(** * The account-state engine of quarkchain/evm/state.py

    A shallow embedding of [TokenBalances], [Account] and [State] and the
    properties of snapshot/revert, commit, the token-balance codec and the
    snapshot codec, of the getters and setters of accounts, of account
    deletion, of the dumps and of the block hashes.

    Conventions of the embedding.
    - A Python [dict] is an insertion-ordered association list ([dict]);
      the tries are finite maps ([gmap]).
    - Hashes are ideal commitments: [sha3 x] is represented by [x] itself
      and the root hash of a trie by the map the trie holds, so that
      assigning [root_hash] switches the trie to the committed map and a
      lookup of a code hash in the backing store returns its preimage.
    - Python exceptions are values of [exn]; stateful methods live in the
      monad [M], which returns the state also when an exception is raised
      (an exception does not roll anything back).
    - Journal closures are the tagged records [undo], interpreted by
      [run_undo]; an account object is named by its address in the cache:
      between two commits the cache only grows, so the object of an
      address is the same one for as long as the journal lives.
    - A dict handed to set_balances is stored as the value it has at the
      call, as for the fresh dicts that del_account and from_snapshot
      pass. A dict that get_balances handed out can be handed to
      set_balances of another account, and the two accounts then hold one
      and the same dict: the module [ByRef] keeps the dicts in a store,
      with account objects that hold references, and the properties of
      the methods that write an entry of a dict in place
      (set_token_balance, transfer_value, deduct_value) are stated
      there. *)

From stdpp Require Import base option list gmap strings sorting.
From Stdlib Require Import ZArith NArith Lia.
From Stdlib.Strings Require Import Byte.

Local Open Scope Z_scope.

(** ** Bytes *)

Definition bytes := list byte.

#[global] Instance byte_eq_dec : EqDecision byte := Byte.byte_eq_dec.

Definition byte_of_N (n : N) : byte :=
  default x00 (Byte.of_N (n mod 256)%N).

(** ** Exceptions *)

Inductive exn :=
| Exception (msg : string)     (* raise Exception(msg) *)
| AssertionError               (* a failed assert *)
| SerializationError           (* rlp: object not serializable *)
| DecodingError                (* rlp: malformed input *)
| AttributeError               (* attribute access on None *)
| TypeError.

#[global] Instance exn_eq_dec : EqDecision exn.
Proof. solve_decision. Defined.

(** ** Python dictionaries *)

(* a dict with keys in K and values in V, in insertion order *)
Abbreviation dict K V := (list (K * V)) (only parsing).

Section dict.
Context {K V : Type} `{EqDecision K}.

(* d.get(k) *)
Fixpoint dict_get (d : dict K V) (k : K) : option V :=
  match d with
  | [] => None
  | (k', v) :: d' => if decide (k = k') then Some v else dict_get d' k
  end.

(* d[k] = v : an existing key keeps its position, a new one goes last *)
Fixpoint dict_set (d : dict K V) (k : K) (v : V) : dict K V :=
  match d with
  | [] => [(k, v)]
  | (k', v') :: d' =>
      if decide (k = k') then (k, v) :: d' else (k', v') :: dict_set d' k v
  end.

(* d.pop(k), for a key that is present *)
Definition dict_pop (d : dict K V) (k : K) : dict K V :=
  filter (λ p, p.1 ≠ k) d.

Definition dict_keys (d : dict K V) : list K := d.*1.
Definition dict_values (d : dict K V) : list V := d.*2.

(* the keys of a dict are pairwise different *)
Definition dict_wf (d : dict K V) : Prop := NoDup (dict_keys d).

(* d1 == d2 : same keys with the same values, whatever the order *)
Definition dict_eqb `{EqDecision V} (d1 d2 : dict K V) : bool :=
  bool_decide (length d1 = length d2) &&
  forallb (λ p, bool_decide (dict_get d2 p.1 = Some p.2)) d1.
End dict.

(** ** RLP, as far as the token-balance codec needs it

    The codec of the rlp package, which the sources import: the
    encoding of byte strings and lists, and the strict decoding of a
    list of pairs of integers (no leading zero, minimal lengths, no
    trailing bytes). *)

Module Rlp.

Local Open Scope N_scope.

Fixpoint int_to_big_endian_aux (fuel : nat) (n : N) (acc : bytes) : bytes :=
  match fuel with
  | O => acc
  | S fuel' =>
      if n =? 0 then acc
      else int_to_big_endian_aux fuel' (n / 256) (byte_of_N n :: acc)
  end.

(* minimal big-endian form; zero is the empty string *)
Definition int_to_big_endian (n : N) : bytes :=
  int_to_big_endian_aux (N.size_nat n) n [].

Definition big_endian_to_int (b : bytes) : N :=
  fold_left (λ acc x, acc * 256 + Byte.to_N x) b 0.

(* rlp.sedes.big_endian_int.serialize *)
Definition serialize_int (z : Z) : exn + bytes :=
  if (z <? 0)%Z then inl SerializationError
  else inr (int_to_big_endian (Z.to_N z)).

Definition length_prefix (offset len : N) : bytes :=
  if len <? 56 then [byte_of_N (offset + len)]
  else
    let bl := int_to_big_endian len in
    byte_of_N (offset + 55 + N.of_nat (length bl)) :: bl.

Definition encode_string (b : bytes) : bytes :=
  match b with
  | [x] => if Byte.to_N x <? 128 then [x]
           else length_prefix 128 1 ++ b
  | _ => length_prefix 128 (N.of_nat (length b)) ++ b
  end.

(* a list whose items are already encoded *)
Definition encode_list (items : list bytes) : bytes :=
  let payload := concat items in
  length_prefix 192 (N.of_nat (length payload)) ++ payload.

(* split [len] bytes off the front *)
Definition split_at (len : N) (data : bytes) : option (bytes * bytes) :=
  let n := N.to_nat len in
  if bool_decide (n ≤ length data)%nat
  then Some (take n data, drop n data) else None.

Definition long_length (ll : N) (data : bytes) : option (N * bytes) :=
  '(lb, rest) ← split_at ll data;
  match lb with
  | x :: _ =>
      if Byte.to_N x =? 0 then None
      else
        let len := big_endian_to_int lb in
        if len <? 56 then None else Some (len, rest)
  | [] => None
  end.

(* one item off the front: (is it a list, its payload, what follows) *)
Definition consume_item (data : bytes) : option (bool * bytes * bytes) :=
  match data with
  | [] => None
  | b0 :: rest =>
      let n := Byte.to_N b0 in
      if n <? 128 then Some (false, [b0], rest)
      else if n <? 184 then
        '(payload, rest') ← split_at (n - 128) rest;
        match payload with
        | [x] => if Byte.to_N x <? 128 then None
                 else Some (false, payload, rest')
        | _ => Some (false, payload, rest')
        end
      else if n <? 192 then
        '(len, rest1) ← long_length (n - 183) rest;
        '(payload, rest') ← split_at len rest1;
        Some (false, payload, rest')
      else if n <? 248 then
        '(payload, rest') ← split_at (n - 192) rest;
        Some (true, payload, rest')
      else
        '(len, rest1) ← long_length (n - 247) rest;
        '(payload, rest') ← split_at len rest1;
        Some (true, payload, rest')
  end.

(* big_endian_int.deserialize: no leading zero *)
Definition consume_int (data : bytes) : option (N * bytes) :=
  '(is_list, payload, rest) ← consume_item data;
  if (is_list : bool) then None
  else match payload with
       | x :: _ => if Byte.to_N x =? 0 then None
                   else Some (big_endian_to_int payload, rest)
       | [] => Some (0, rest)
       end.

(* a TokenBalancePair: a list of exactly two integers *)
Definition consume_pair (data : bytes) : option (N * N * bytes) :=
  '(is_list, payload, rest) ← consume_item data;
  if (is_list : bool) then
    '(k, p1) ← consume_int payload;
    '(v, p2) ← consume_int p1;
    match p2 with [] => Some (k, v, rest) | _ => None end
  else None.

Fixpoint consume_pairs (fuel : nat) (data : bytes) : option (list (N * N)) :=
  match data with
  | [] => Some []
  | _ =>
      match fuel with
      | O => None
      | S fuel' =>
          '(k, v, rest) ← consume_pair data;
          ps ← consume_pairs fuel' rest;
          Some ((k, v) :: ps)
      end
  end.

(* rlp.decode(data, CountableList(TokenBalancePair)) *)
Definition decode_pairs (data : bytes) : exn + list (N * N) :=
  match consume_item data with
  | Some (true, payload, []) =>
      match consume_pairs (length payload) payload with
      | Some ps => inr ps
      | None => inl DecodingError
      end
  | _ => inl DecodingError
  end.

End Rlp.


(** ** TokenBalances *)

Definition BLANK_HASH : bytes := [].          (* utils.sha3(b"") *)
Definition THREE : N := 3.                    (* b"\x00" * 19 + b"\x03" *)

Record TokenBalancePair := mkPair { token_id : N; balance : Z }.

#[global] Instance TokenBalancePair_eq_dec : EqDecision TokenBalancePair.
Proof. solve_decision. Defined.

Record TokenBalances := mkTokenBalances {
  balances : dict N Z;
  enum : bytes
}.

#[global] Instance TokenBalances_eq_dec : EqDecision TokenBalances.
Proof. solve_decision. Defined.

Definition not_implemented : exn :=
  Exception "Token balance trie is not yet implemented".
Definition unknown_enum : exn :=
  Exception "Unknown enum byte in token_balances".

(* for p in decoded: self.balances[p.token_id] = p.balance *)
Definition fill_balances (ps : list (N * N)) : dict N Z :=
  fold_left (λ d p, dict_set d p.1 (Z.of_N p.2)) ps [].

(* TokenBalances.__init__ *)
Definition TokenBalances_init (data : bytes) : exn + TokenBalances :=
  if bool_decide (length data ≠ 0%nat) then
    let enum := take 1 data in
    if decide (enum = [x00]) then
      match Rlp.decode_pairs (drop 1 data) with
      | inl e => inl e
      | inr ps => inr (mkTokenBalances (fill_balances ps) enum)
      end
    else if decide (enum = [x01]) then inl not_implemented
    else inl unknown_enum
  else inr (mkTokenBalances [] [x00]).

(* l.sort(key=lambda b: b.token_id), a stable sort *)
Fixpoint insert_by_token_id (p : TokenBalancePair) (l : list TokenBalancePair)
  : list TokenBalancePair :=
  match l with
  | [] => [p]
  | q :: l' =>
      if (token_id p <=? token_id q)%N then p :: l
      else q :: insert_by_token_id p l'
  end.

Definition sort_by_token_id (l : list TokenBalancePair) : list TokenBalancePair :=
  foldr insert_by_token_id [] l.

(* the list [l] of serialize, after the sort *)
Definition sorted_pairs (tb : TokenBalances) : list TokenBalancePair :=
  sort_by_token_id (map (λ kv, mkPair kv.1 kv.2) (balances tb)).

Definition encode_pair (p : TokenBalancePair) : exn + bytes :=
  match Rlp.serialize_int (Z.of_N (token_id p)), Rlp.serialize_int (balance p) with
  | inr k, inr v =>
      inr (Rlp.encode_list [Rlp.encode_string k; Rlp.encode_string v])
  | inl e, _ => inl e
  | _, inl e => inl e
  end.

Fixpoint encode_pairs (l : list TokenBalancePair) : exn + list bytes :=
  match l with
  | [] => inr []
  | p :: l' =>
      match encode_pair p with
      | inl e => inl e
      | inr b =>
          match encode_pairs l' with
          | inl e => inl e
          | inr bs => inr (b :: bs)
          end
      end
  end.

(* rlp.encode(l) for a list of TokenBalancePair *)
Definition rlp_encode_pairs (l : list TokenBalancePair) : exn + bytes :=
  match encode_pairs l with
  | inl e => inl e
  | inr bs => inr (Rlp.encode_list bs)
  end.

(* TokenBalances.serialize *)
Definition serialize (tb : TokenBalances) : exn + bytes :=
  if bool_decide (length (balances tb) = 0%nat) then inr []
  else if decide (enum tb = [x00]) then
    match rlp_encode_pairs (sorted_pairs tb) with
    | inl e => inl e
    | inr b => inr (enum tb ++ b)
    end
  else if decide (enum tb = [x01]) then inl not_implemented
  else inl unknown_enum.

(* TokenBalances.balance *)
Definition tb_balance (tb : TokenBalances) (token_id : N) : Z :=
  default 0 (dict_get (balances tb) token_id).

(* TokenBalances.is_empty *)
Definition is_empty (tb : TokenBalances) : bool :=
  forallb (λ v, bool_decide (v = 0)) (dict_values (balances tb)).


(** ** Accounts *)

(* a 20-byte address, as the big-endian number it denotes *)
Definition address := N.

(* an external object the state only stores (a log, a receipt, a deposit) *)
Inductive pyobj := PyObj (id : N).

(** Modelled from the spec: utils.sha3 is not part of the sources at
    hand; code is content-addressed by its hash and looked up by hash,
    so the hash is an ideal one, represented by its preimage. *)
Definition sha3 (x : bytes) : bytes := x.

(* the rlp-serializable account record stored in the state trie *)
Record _Account := mk_Account {
  acc_nonce : Z;
  acc_token_balances : bytes;
  acc_storage : gmap Z Z;
  acc_code_hash : bytes;
  acc_full_shard_key : Z
}.

#[global] Instance _Account_eq_dec : EqDecision _Account.
Proof. solve_decision. Defined.

Record Account := mkAccount {
  nonce : Z;
  token_balances : TokenBalances;
  storage : gmap Z Z;
  code_hash : bytes;
  acct_full_shard_key : Z;
  storage_cache : dict Z Z;
  storage_trie : gmap Z Z;           (* storage_trie.root_hash *)
  touched : bool;
  existent_at_start : bool;
  deleted : bool
}.

(* the attributes of an account that setattr assigns, with the value;
   "balances" is the attribute of acct.token_balances and "root_hash" the
   one of acct.storage_trie *)
Inductive acct_attr :=
| A_nonce (v : Z)
| A_code (v : bytes)
| A_touched (v : bool)
| A_deleted (v : bool)
| A_balances (v : dict N Z)
| A_storage_cache (v : dict Z Z)
| A_root_hash (v : gmap Z Z).

(* getattr(acct, param), keeping the name of the attribute *)
Definition getattr (at_ : acct_attr) (a : Account) : acct_attr :=
  match at_ with
  | A_nonce _ => A_nonce (nonce a)
  | A_code _ => A_code (code_hash a)          (* self.db[self.code_hash] *)
  | A_touched _ => A_touched (touched a)
  | A_deleted _ => A_deleted (deleted a)
  | A_balances _ => A_balances (balances (token_balances a))
  | A_storage_cache _ => A_storage_cache (storage_cache a)
  | A_root_hash _ => A_root_hash (storage_trie a)
  end.

(* setattr(acct, param, val) *)
Definition setattr (at_ : acct_attr) (a : Account) : Account :=
  match at_ with
  | A_nonce v =>
      mkAccount v (token_balances a) (storage a) (code_hash a)
        (acct_full_shard_key a) (storage_cache a) (storage_trie a)
        (touched a) (existent_at_start a) (deleted a)
  | A_code v =>                       (* code_hash = sha3(value); db.put *)
      mkAccount (nonce a) (token_balances a) (storage a) (sha3 v)
        (acct_full_shard_key a) (storage_cache a) (storage_trie a)
        (touched a) (existent_at_start a) (deleted a)
  | A_touched v =>
      mkAccount (nonce a) (token_balances a) (storage a) (code_hash a)
        (acct_full_shard_key a) (storage_cache a) (storage_trie a)
        v (existent_at_start a) (deleted a)
  | A_deleted v =>
      mkAccount (nonce a) (token_balances a) (storage a) (code_hash a)
        (acct_full_shard_key a) (storage_cache a) (storage_trie a)
        (touched a) (existent_at_start a) v
  | A_balances v =>
      mkAccount (nonce a) (mkTokenBalances v (enum (token_balances a)))
        (storage a) (code_hash a)
        (acct_full_shard_key a) (storage_cache a) (storage_trie a)
        (touched a) (existent_at_start a) (deleted a)
  | A_storage_cache v =>
      mkAccount (nonce a) (token_balances a) (storage a) (code_hash a)
        (acct_full_shard_key a) v (storage_trie a)
        (touched a) (existent_at_start a) (deleted a)
  | A_root_hash v =>
      mkAccount (nonce a) (token_balances a) (storage a) (code_hash a)
        (acct_full_shard_key a) (storage_cache a) v
        (touched a) (existent_at_start a) (deleted a)
  end.

Definition with_storage (v : gmap Z Z) (a : Account) : Account :=
  mkAccount (nonce a) (token_balances a) v (code_hash a)
    (acct_full_shard_key a) (storage_cache a) (storage_trie a)
    (touched a) (existent_at_start a) (deleted a).

Definition with_existent_at_start (v : bool) (a : Account) : Account :=
  mkAccount (nonce a) (token_balances a) (storage a) (code_hash a)
    (acct_full_shard_key a) (storage_cache a) (storage_trie a)
    (touched a) v (deleted a).

(* Account.__init__ *)
Definition Account_init (nonce : Z) (token_balances : bytes)
    (storage : gmap Z Z) (code_hash : bytes) (full_shard_key : Z)
  : exn + Account :=
  match TokenBalances_init token_balances with
  | inl e => inl e
  | inr tb =>
      inr (mkAccount nonce tb storage code_hash full_shard_key
             [] storage false true false)
  end.

(* Account.blank_account *)
Definition blank_account (full_shard_key initial_nonce : Z) : exn + Account :=
  match Account_init initial_nonce [] ∅ BLANK_HASH full_shard_key with
  | inl e => inl e
  | inr o => inr (with_existent_at_start false o)
  end.

(** Modelled from the spec: the trie and the secure trie are not part
    of the sources at hand; a trie has get, update, delete, root_hash and
    to_dict, and is a finite map named by its root. This is the value of
    a slot of the storage trie, big_endian_to_int(rlp.decode(v) if v else
    b""): zero for a slot that is not there. *)
Definition storage_trie_get (t : gmap Z Z) (key : Z) : Z :=
  default 0 (t !! key).

(* Account.get_storage_data: the value and the account with the slot cached *)
Definition Account_get_storage_data (key : Z) (a : Account) : Z * Account :=
  match dict_get (storage_cache a) key with
  | Some v => (v, a)
  | None =>
      let v := storage_trie_get (storage_trie a) key in
      (v, setattr (A_storage_cache (dict_set (storage_cache a) key v)) a)
  end.

(* Account.set_storage_data *)
Definition Account_set_storage_data (key value : Z) (a : Account) : Account :=
  setattr (A_storage_cache (dict_set (storage_cache a) key value)) a.

(* Account.commit *)
Definition Account_commit (a : Account) : Account :=
  let t := fold_left (λ t kv,
                        if bool_decide (kv.2 ≠ 0) then <[kv.1 := kv.2]> t
                        else delete kv.1 t)
                     (storage_cache a) (storage_trie a) in
  with_storage t (setattr (A_root_hash t) (setattr (A_storage_cache []) a)).

(* Account.is_blank *)
Definition is_blank (a : Account) : bool :=
  bool_decide (nonce a = 0) && is_empty (token_balances a)
  && bool_decide (code_hash a = BLANK_HASH).

(* Account.exists *)
Definition Account_exists (a : Account) : bool :=
  if is_blank a then touched a || (existent_at_start a && negb (deleted a))
  else true.

(** ** The state *)

Record FakeHeader := mkFakeHeader {
  h_hash : bytes;
  h_number : Z;
  h_timestamp : Z;
  h_difficulty : Z;
  h_gas_used : Z;
  h_gas_limit : Z;
  h_uncles_hash : bytes
}.

(* the variables of STATE_DEFAULTS *)
Record AuxVars := mkAuxVars {
  txindex : Z;
  gas_used : Z;
  xshard_receive_gas_used : Z;
  gas_limit : Z;
  block_number : Z;
  block_coinbase : bytes;
  block_difficulty : Z;
  block_fee : Z;
  timestamp : Z;
  logs : (list pyobj);
  receipts : (list pyobj);
  bloom : Z;
  suicides : (list address);
  recent_uncles : (dict Z (list bytes));
  prev_headers : (list FakeHeader);
  refunds : Z;
  xshard_list : (list pyobj);
  full_shard_key : Z;
  xshard_tx_cursor_info : (option pyobj)
}.

Definition STATE_DEFAULTS : AuxVars :=
  mkAuxVars 0 0 0 3141592 0 (replicate 20 x00) 1 0 0 [] [] 0 [] [] [] 0 [] 0 None.

(* a name of STATE_DEFAULTS with a value for it *)
Inductive param :=
| P_txindex (v : Z)
| P_gas_used (v : Z)
| P_xshard_receive_gas_used (v : Z)
| P_gas_limit (v : Z)
| P_block_number (v : Z)
| P_block_coinbase (v : bytes)
| P_block_difficulty (v : Z)
| P_block_fee (v : Z)
| P_timestamp (v : Z)
| P_logs (v : (list pyobj))
| P_receipts (v : (list pyobj))
| P_bloom (v : Z)
| P_suicides (v : (list address))
| P_recent_uncles (v : (dict Z (list bytes)))
| P_prev_headers (v : (list FakeHeader))
| P_refunds (v : Z)
| P_xshard_list (v : (list pyobj))
| P_full_shard_key (v : Z)
| P_xshard_tx_cursor_info (v : (option pyobj)).

(* getattr(self, k) *)
Definition getattr_param (p : param) (x : AuxVars) : param :=
  match p with
  | P_txindex _ => P_txindex (txindex x)
  | P_gas_used _ => P_gas_used (gas_used x)
  | P_xshard_receive_gas_used _ => P_xshard_receive_gas_used (xshard_receive_gas_used x)
  | P_gas_limit _ => P_gas_limit (gas_limit x)
  | P_block_number _ => P_block_number (block_number x)
  | P_block_coinbase _ => P_block_coinbase (block_coinbase x)
  | P_block_difficulty _ => P_block_difficulty (block_difficulty x)
  | P_block_fee _ => P_block_fee (block_fee x)
  | P_timestamp _ => P_timestamp (timestamp x)
  | P_logs _ => P_logs (logs x)
  | P_receipts _ => P_receipts (receipts x)
  | P_bloom _ => P_bloom (bloom x)
  | P_suicides _ => P_suicides (suicides x)
  | P_recent_uncles _ => P_recent_uncles (recent_uncles x)
  | P_prev_headers _ => P_prev_headers (prev_headers x)
  | P_refunds _ => P_refunds (refunds x)
  | P_xshard_list _ => P_xshard_list (xshard_list x)
  | P_full_shard_key _ => P_full_shard_key (full_shard_key x)
  | P_xshard_tx_cursor_info _ => P_xshard_tx_cursor_info (xshard_tx_cursor_info x)
  end.

(* setattr(self, k, v) *)
Definition setattr_param (p : param) (x : AuxVars) : AuxVars :=
  match p with
  | P_txindex v =>
      mkAuxVars v (gas_used x) (xshard_receive_gas_used x) (gas_limit x)
        (block_number x) (block_coinbase x) (block_difficulty x) (block_fee x)
        (timestamp x) (logs x) (receipts x) (bloom x) (suicides x)
        (recent_uncles x) (prev_headers x) (refunds x) (xshard_list x)
        (full_shard_key x) (xshard_tx_cursor_info x)
  | P_gas_used v =>
      mkAuxVars (txindex x) v (xshard_receive_gas_used x) (gas_limit x)
        (block_number x) (block_coinbase x) (block_difficulty x) (block_fee x)
        (timestamp x) (logs x) (receipts x) (bloom x) (suicides x)
        (recent_uncles x) (prev_headers x) (refunds x) (xshard_list x)
        (full_shard_key x) (xshard_tx_cursor_info x)
  | P_xshard_receive_gas_used v =>
      mkAuxVars (txindex x) (gas_used x) v (gas_limit x) (block_number x)
        (block_coinbase x) (block_difficulty x) (block_fee x) (timestamp x)
        (logs x) (receipts x) (bloom x) (suicides x) (recent_uncles x)
        (prev_headers x) (refunds x) (xshard_list x) (full_shard_key x)
        (xshard_tx_cursor_info x)
  | P_gas_limit v =>
      mkAuxVars (txindex x) (gas_used x) (xshard_receive_gas_used x) v
        (block_number x) (block_coinbase x) (block_difficulty x) (block_fee x)
        (timestamp x) (logs x) (receipts x) (bloom x) (suicides x)
        (recent_uncles x) (prev_headers x) (refunds x) (xshard_list x)
        (full_shard_key x) (xshard_tx_cursor_info x)
  | P_block_number v =>
      mkAuxVars (txindex x) (gas_used x) (xshard_receive_gas_used x)
        (gas_limit x) v (block_coinbase x) (block_difficulty x) (block_fee x)
        (timestamp x) (logs x) (receipts x) (bloom x) (suicides x)
        (recent_uncles x) (prev_headers x) (refunds x) (xshard_list x)
        (full_shard_key x) (xshard_tx_cursor_info x)
  | P_block_coinbase v =>
      mkAuxVars (txindex x) (gas_used x) (xshard_receive_gas_used x)
        (gas_limit x) (block_number x) v (block_difficulty x) (block_fee x)
        (timestamp x) (logs x) (receipts x) (bloom x) (suicides x)
        (recent_uncles x) (prev_headers x) (refunds x) (xshard_list x)
        (full_shard_key x) (xshard_tx_cursor_info x)
  | P_block_difficulty v =>
      mkAuxVars (txindex x) (gas_used x) (xshard_receive_gas_used x)
        (gas_limit x) (block_number x) (block_coinbase x) v (block_fee x)
        (timestamp x) (logs x) (receipts x) (bloom x) (suicides x)
        (recent_uncles x) (prev_headers x) (refunds x) (xshard_list x)
        (full_shard_key x) (xshard_tx_cursor_info x)
  | P_block_fee v =>
      mkAuxVars (txindex x) (gas_used x) (xshard_receive_gas_used x)
        (gas_limit x) (block_number x) (block_coinbase x) (block_difficulty x)
        v (timestamp x) (logs x) (receipts x) (bloom x) (suicides x)
        (recent_uncles x) (prev_headers x) (refunds x) (xshard_list x)
        (full_shard_key x) (xshard_tx_cursor_info x)
  | P_timestamp v =>
      mkAuxVars (txindex x) (gas_used x) (xshard_receive_gas_used x)
        (gas_limit x) (block_number x) (block_coinbase x) (block_difficulty x)
        (block_fee x) v (logs x) (receipts x) (bloom x) (suicides x)
        (recent_uncles x) (prev_headers x) (refunds x) (xshard_list x)
        (full_shard_key x) (xshard_tx_cursor_info x)
  | P_logs v =>
      mkAuxVars (txindex x) (gas_used x) (xshard_receive_gas_used x)
        (gas_limit x) (block_number x) (block_coinbase x) (block_difficulty x)
        (block_fee x) (timestamp x) v (receipts x) (bloom x) (suicides x)
        (recent_uncles x) (prev_headers x) (refunds x) (xshard_list x)
        (full_shard_key x) (xshard_tx_cursor_info x)
  | P_receipts v =>
      mkAuxVars (txindex x) (gas_used x) (xshard_receive_gas_used x)
        (gas_limit x) (block_number x) (block_coinbase x) (block_difficulty x)
        (block_fee x) (timestamp x) (logs x) v (bloom x) (suicides x)
        (recent_uncles x) (prev_headers x) (refunds x) (xshard_list x)
        (full_shard_key x) (xshard_tx_cursor_info x)
  | P_bloom v =>
      mkAuxVars (txindex x) (gas_used x) (xshard_receive_gas_used x)
        (gas_limit x) (block_number x) (block_coinbase x) (block_difficulty x)
        (block_fee x) (timestamp x) (logs x) (receipts x) v (suicides x)
        (recent_uncles x) (prev_headers x) (refunds x) (xshard_list x)
        (full_shard_key x) (xshard_tx_cursor_info x)
  | P_suicides v =>
      mkAuxVars (txindex x) (gas_used x) (xshard_receive_gas_used x)
        (gas_limit x) (block_number x) (block_coinbase x) (block_difficulty x)
        (block_fee x) (timestamp x) (logs x) (receipts x) (bloom x) v
        (recent_uncles x) (prev_headers x) (refunds x) (xshard_list x)
        (full_shard_key x) (xshard_tx_cursor_info x)
  | P_recent_uncles v =>
      mkAuxVars (txindex x) (gas_used x) (xshard_receive_gas_used x)
        (gas_limit x) (block_number x) (block_coinbase x) (block_difficulty x)
        (block_fee x) (timestamp x) (logs x) (receipts x) (bloom x)
        (suicides x) v (prev_headers x) (refunds x) (xshard_list x)
        (full_shard_key x) (xshard_tx_cursor_info x)
  | P_prev_headers v =>
      mkAuxVars (txindex x) (gas_used x) (xshard_receive_gas_used x)
        (gas_limit x) (block_number x) (block_coinbase x) (block_difficulty x)
        (block_fee x) (timestamp x) (logs x) (receipts x) (bloom x)
        (suicides x) (recent_uncles x) v (refunds x) (xshard_list x)
        (full_shard_key x) (xshard_tx_cursor_info x)
  | P_refunds v =>
      mkAuxVars (txindex x) (gas_used x) (xshard_receive_gas_used x)
        (gas_limit x) (block_number x) (block_coinbase x) (block_difficulty x)
        (block_fee x) (timestamp x) (logs x) (receipts x) (bloom x)
        (suicides x) (recent_uncles x) (prev_headers x) v (xshard_list x)
        (full_shard_key x) (xshard_tx_cursor_info x)
  | P_xshard_list v =>
      mkAuxVars (txindex x) (gas_used x) (xshard_receive_gas_used x)
        (gas_limit x) (block_number x) (block_coinbase x) (block_difficulty x)
        (block_fee x) (timestamp x) (logs x) (receipts x) (bloom x)
        (suicides x) (recent_uncles x) (prev_headers x) (refunds x) v
        (full_shard_key x) (xshard_tx_cursor_info x)
  | P_full_shard_key v =>
      mkAuxVars (txindex x) (gas_used x) (xshard_receive_gas_used x)
        (gas_limit x) (block_number x) (block_coinbase x) (block_difficulty x)
        (block_fee x) (timestamp x) (logs x) (receipts x) (bloom x)
        (suicides x) (recent_uncles x) (prev_headers x) (refunds x)
        (xshard_list x) v (xshard_tx_cursor_info x)
  | P_xshard_tx_cursor_info v =>
      mkAuxVars (txindex x) (gas_used x) (xshard_receive_gas_used x)
        (gas_limit x) (block_number x) (block_coinbase x) (block_difficulty x)
        (block_fee x) (timestamp x) (logs x) (receipts x) (bloom x)
        (suicides x) (recent_uncles x) (prev_headers x) (refunds x)
        (xshard_list x) (full_shard_key x) v
  end.

(** Modelled from the spec: the configuration is not part of the sources
    at hand; these are the entries of env.config and of shard_config that
    the state reads. *)
Record Config := mkConfig {
  ACCOUNT_INITIAL_NONCE : Z;
  SPURIOUS_DRAGON_FORK_BLKNUM : Z;
  PREV_HEADER_DEPTH : nat;
  default_chain_token : N
}.

(* the closures the journal holds *)
Inductive undo :=
| USetattr (a : address) (preval : acct_attr)
    (* lambda: setattr(acct, param, preval) *)
| UPopToken (a : address) (token_id : N)
    (* lambda: acct.token_balances.balances.pop(token_id) *)
| USetToken (a : address) (token_id : N) (preval : Z)
    (* lambda: acct.token_balances.balances.__setitem__(token_id, preval) *)
| USetStorage (a : address) (key preval : Z)
    (* lambda: acct.set_storage_data(key, preval) *)
| UPopSuicide                       (* lambda: self.suicides.pop() *)
| UPopLog                           (* lambda: self.logs.pop() *)
| UPopReceipt                       (* lambda: self.receipts.pop() *)
| USetRefunds (preval : Z)          (* lambda: setattr(self.refunds, preval) *)
| USetParam (preval : param).       (* lambda: setattr(self, k, preval) *)

Record State := mkState {
  trie : gmap address _Account;     (* the state trie, named by its root *)
  cache : dict address Account;
  journal : list undo;              (* most recent entry first *)
  aux : AuxVars;
  changed : dict address bool;
  executing_on_head : bool;
  config : Config
}.

Definition with_trie (v : gmap address _Account) (S : State) : State :=
  mkState v (cache S) (journal S) (aux S) (changed S) (executing_on_head S)
    (config S).
Definition with_cache (v : dict address Account) (S : State) : State :=
  mkState (trie S) v (journal S) (aux S) (changed S) (executing_on_head S)
    (config S).
Definition with_journal (v : list undo) (S : State) : State :=
  mkState (trie S) (cache S) v (aux S) (changed S) (executing_on_head S)
    (config S).
Definition with_aux (v : AuxVars) (S : State) : State :=
  mkState (trie S) (cache S) (journal S) v (changed S) (executing_on_head S)
    (config S).
Definition with_changed (v : dict address bool) (S : State) : State :=
  mkState (trie S) (cache S) (journal S) (aux S) v (executing_on_head S)
    (config S).
Definition with_executing_on_head (v : bool) (S : State) : State :=
  mkState (trie S) (cache S) (journal S) (aux S) (changed S) v (config S).

(* State.__init__ *)
Definition State_init (root : gmap address _Account) (cfg : Config) : State :=
  mkState root [] [] STATE_DEFAULTS [] false cfg.

(** ** The monad of the methods of State *)

Definition M (A : Type) : Type := State → (exn + A) * State.

Definition ret {A} (x : A) : M A := λ S, (inr x, S).
Definition raise {A} (e : exn) : M A := λ S, (inl e, S).
Definition bind {A B} (m : M A) (f : A → M B) : M B :=
  λ S, match m S with
       | (inl e, S') => (inl e, S')
       | (inr x, S') => f x S'
       end.
Definition gets {A} (f : State → A) : M A := λ S, (inr (f S), S).
Definition modify (f : State → State) : M unit := λ S, (inr tt, f S).
Definition lift {A} (r : exn + A) : M A := λ S, (r, S).

Notation "'do' x <- m ; k" := (bind m (λ x, k))
  (at level 10, x name, m at level 99, k at level 200).
Notation "m >> k" := (bind m (λ _, k))
  (at level 100, k at level 200, right associativity).

(* for x in xs: f(x) *)
Fixpoint for_each {A} (xs : list A) (f : A → M unit) : M unit :=
  match xs with
  | [] => ret tt
  | x :: xs' => f x >> for_each xs' f
  end.

(** ** Reading accounts *)

(* the Account object that get_and_cache_account builds for an address
   that is not cached *)
Definition load (S : State) (address : address) : exn + Account :=
  match trie S !! address with
  | Some o =>
      Account_init (acc_nonce o) (acc_token_balances o) (acc_storage o)
        (acc_code_hash o) (acc_full_shard_key o)
  | None =>
      blank_account (full_shard_key (aux S)) (ACCOUNT_INITIAL_NONCE (config S))
  end.

Definition get_and_cache_account (address : address) : M Account :=
  λ S, match dict_get (cache S) address with
       | Some a => (inr a, S)
       | None =>
           match load S address with
           | inl e => (inl e, S)
           | inr o => (inr o, with_cache (dict_set (cache S) address o) S)
           end
       end.

Definition get_balances (address : address) : M (dict N Z) :=
  do a <- get_and_cache_account address; ret (balances (token_balances a)).

Definition get_balance (address : address) (token_id : option N) : M Z :=
  do token_id <- match token_id with
                 | None => gets (λ S, default_chain_token (config S))
                 | Some t => ret t
                 end;
  do a <- get_and_cache_account address;
  ret (tb_balance (token_balances a) token_id).

Definition get_code (address : address) : M bytes :=
  do a <- get_and_cache_account address; ret (code_hash a).

Definition get_nonce (address : address) : M Z :=
  do a <- get_and_cache_account address; ret (nonce a).

Definition get_full_shard_key (address : address) : M Z :=
  do a <- get_and_cache_account address; ret (acct_full_shard_key a).

(** ** Writing accounts *)

(* a method of the account object cached for [address] that mutates it *)
Definition update_cache (address : address) (f : Account → Account) (S : State) : State :=
  match dict_get (cache S) address with
  | Some a => with_cache (dict_set (cache S) address (f a)) S
  | None => S
  end.

Definition update_account (address : address) (f : Account → Account) : M unit :=
  modify (update_cache address f).

Definition journal_append (u : undo) : M unit :=
  modify (λ S, with_journal (u :: journal S) S).

Definition set_and_journal (acct : address) (val : acct_attr) : M unit :=
  do a <- get_and_cache_account acct;
  journal_append (USetattr acct (getattr val a)) >>
  update_account acct (setattr val).

(* the dict is stored by value; [ByRef.set_balances] stores the object *)
Definition set_balances (address : address) (token_balances : dict N Z) : M unit :=
  do _ <- get_and_cache_account address;
  do cur <- get_balances address;
  if dict_eqb cur token_balances then set_and_journal address (A_touched true)
  else
    set_and_journal address (A_balances token_balances) >>
    set_and_journal address (A_touched true).

Definition set_code (address : address) (value : bytes) : M unit :=
  do _ <- get_and_cache_account address;
  set_and_journal address (A_code value) >>
  set_and_journal address (A_touched true).

Definition set_nonce (address : address) (value : Z) : M unit :=
  do _ <- get_and_cache_account address;
  set_and_journal address (A_nonce value) >>
  set_and_journal address (A_touched true).

Definition _set_token_balance_and_journal
    (acct : address) (token_id : N) (val : Z) : M unit :=
  do a <- get_and_cache_account acct;
  match dict_get (balances (token_balances a)) token_id with
  | None => journal_append (UPopToken acct token_id)
  | Some preval => journal_append (USetToken acct token_id preval)
  end >>
  update_account acct
    (λ a, setattr (A_balances (dict_set (balances (token_balances a)) token_id val)) a).

Definition set_token_balance (address : address) (token_id : N) (val : Z) : M unit :=
  do _ <- get_and_cache_account address;
  do cur <- get_balance address (Some token_id);
  if bool_decide (val = cur) then set_and_journal address (A_touched true)
  else
    _set_token_balance_and_journal address token_id val >>
    set_and_journal address (A_touched true).

Definition set_balance (address : address) (val : Z) : M unit :=
  do t <- gets (λ S, default_chain_token (config S));
  set_token_balance address t val.

Definition delta_token_balance (address : address) (token_id : N) (value : Z) : M unit :=
  do a <- get_and_cache_account address;
  if bool_decide (value = 0) then set_and_journal address (A_touched true)
  else
    let newbal := tb_balance (token_balances a) token_id + value in
    _set_token_balance_and_journal address token_id newbal >>
    set_and_journal address (A_touched true).

Definition increment_nonce (address : address) : M unit :=
  do a <- get_and_cache_account address;
  let newnonce := nonce a + 1 in
  set_and_journal address (A_nonce newnonce) >>
  set_and_journal address (A_touched true).

Definition get_storage_data (address : address) (key : Z) : M Z :=
  do a <- get_and_cache_account address;
  let '(v, a') := Account_get_storage_data key a in
  update_account address (λ _, a') >> ret v.

Definition set_storage_data (address : address) (key value : Z) : M unit :=
  do a <- get_and_cache_account address;
  let '(preval, a') := Account_get_storage_data key a in
  update_account address (λ _, a') >>
  update_account address (Account_set_storage_data key value) >>
  journal_append (USetStorage address key preval) >>
  set_and_journal address (A_touched true).

(** ** Auxiliary variables *)

Definition modify_aux (f : AuxVars → AuxVars) : M unit :=
  modify (λ S, with_aux (f (aux S)) S).

Definition add_suicide (address : address) : M unit :=
  modify_aux (λ x, setattr_param (P_suicides (suicides x ++ [address])) x) >>
  journal_append UPopSuicide.

(* no log listener is registered *)
Definition add_log (log : pyobj) : M unit :=
  modify_aux (λ x, setattr_param (P_logs (logs x ++ [log])) x) >>
  journal_append UPopLog.

Definition add_receipt (receipt : pyobj) : M unit :=
  modify_aux (λ x, setattr_param (P_receipts (receipts x ++ [receipt])) x) >>
  journal_append UPopReceipt.

Definition add_refund (value : Z) : M unit :=
  do preval <- gets (λ S, refunds (aux S));
  modify_aux (λ x, setattr_param (P_refunds (refunds x + value)) x) >>
  journal_append (USetRefunds preval).

Definition set_param (kv : param) : M unit :=
  do preval <- gets (λ S, getattr_param kv (aux S));
  journal_append (USetParam preval) >>
  modify_aux (setattr_param kv).

(** ** Snapshot and revert *)

Definition Snapshot : Type := gmap address _Account * nat * AuxVars.

Definition snapshot : M Snapshot :=
  gets (λ S, (trie S, length (journal S), aux S)).

(* one journal entry invoked; an exception it raises is caught by the
   loop of revert, which prints it and goes on *)
Definition run_undo (u : undo) (S : State) : State :=
  match u with
  | USetattr a preval => update_cache a (setattr preval) S
  | UPopToken a token_id =>
      update_cache a
        (λ acct, setattr (A_balances (dict_pop (balances (token_balances acct)) token_id)) acct) S
  | USetToken a token_id preval =>
      update_cache a
        (λ acct, setattr (A_balances (dict_set (balances (token_balances acct)) token_id preval)) acct) S
  | USetStorage a key preval =>
      update_cache a (Account_set_storage_data key preval) S
  | UPopSuicide =>
      with_aux (setattr_param (P_suicides (removelast (suicides (aux S)))) (aux S)) S
  | UPopLog =>
      with_aux (setattr_param (P_logs (removelast (logs (aux S)))) (aux S)) S
  | UPopReceipt =>
      with_aux (setattr_param (P_receipts (removelast (receipts (aux S)))) (aux S)) S
  | USetRefunds _ => S               (* setattr with two arguments: TypeError *)
  | USetParam preval => with_aux (setattr_param preval (aux S)) S
  end.

(* while len(self.journal) > L: self.journal.pop()() *)
Fixpoint unwind (fuel : nat) (L : nat) (S : State) : State :=
  match fuel with
  | O => S
  | S fuel' =>
      match journal S with
      | lastitem :: j =>
          if bool_decide (L < length (journal S))%nat
          then unwind fuel' L (run_undo lastitem (with_journal j S))
          else S
      | [] => S
      end
  end.

Definition in_compat_window (block_number : Z) : bool :=
  bool_decide (2675000 < block_number) && bool_decide (block_number < 2675200).

Definition revert (snapshot : Snapshot) : M unit :=
  let '(h, L, auxvars) := snapshot in
  do three_touched <- gets (λ S, match dict_get (cache S) THREE with
                                 | Some a => touched a
                                 | None => false
                                 end);
  modify (λ S, unwind (length (journal S)) L S) >>
  do root <- gets trie;
  (if bool_decide (h ≠ root) then
     (if bool_decide (L = 0%nat) then ret tt else raise AssertionError) >>
     modify (with_trie h) >>
     modify (with_cache [])
   else ret tt) >>
  modify (with_aux auxvars) >>
  do bn <- gets (λ S, block_number (aux S));
  if three_touched && in_compat_window bn then
    do t <- gets (λ S, default_chain_token (config S));
    delta_token_balance THREE t 0
  else ret tt.

(** ** Forks and existence *)

Definition is_SPURIOUS_DRAGON : M bool :=
  gets (λ S, bool_decide (SPURIOUS_DRAGON_FORK_BLKNUM (config S) ≤ block_number (aux S))).

Definition account_exists (address : address) : M bool :=
  do sd <- is_SPURIOUS_DRAGON;
  if sd then
    do a <- get_and_cache_account address;
    ret (negb (is_blank a))
  else
    do a <- get_and_cache_account address;
    if deleted a && negb (touched a) then ret false
    else if touched a then ret true
    else ret (existent_at_start a).

(** ** Commit *)

(* the body of the loop of commit for one item of the cache *)
Definition commit_item (allow_empties : bool) (addr : address) : M unit :=
  do acct <- get_and_cache_account addr;
  if touched acct || deleted acct then
    update_account addr Account_commit >>
    modify (λ S, with_changed (dict_set (changed S) addr true) S) >>
    do ex <- account_exists addr;
    if ex || allow_empties then
      do acct <- get_and_cache_account addr;
      do tb <- lift (serialize (token_balances acct));
      let _acct := mk_Account (nonce acct) tb (storage acct) (code_hash acct)
                     (acct_full_shard_key acct) in
      modify (λ S, with_trie (<[addr := _acct]> (trie S)) S)
    else
      modify (λ S, with_trie (delete addr (trie S)) S)
  else ret tt.

Definition commit (allow_empties : bool) : M unit :=
  do items <- gets cache;
  for_each (dict_keys items) (commit_item allow_empties) >>
  modify (with_cache []) >>
  modify (with_journal []).

(** ** Deleting accounts *)

Definition reset_storage (address : address) : M unit :=
  do acct <- get_and_cache_account address;
  let pre_cache := storage_cache acct in
  update_account address (setattr (A_storage_cache [])) >>
  journal_append (USetattr address (A_storage_cache pre_cache)) >>
  let pre_root := storage_trie acct in
  journal_append (USetattr address (A_root_hash pre_root)) >>
  update_account address (setattr (A_root_hash ∅)).

Definition del_account (address : address) : M unit :=
  set_balances address [] >>
  set_nonce address 0 >>
  set_code address [] >>
  reset_storage address >>
  set_and_journal address (A_deleted true) >>
  set_and_journal address (A_touched false).

(** ** The snapshot codec *)

(** Modelled from the spec: the text codecs of quarkchain.evm.utils and
    of Python (str and parse_as_int for integers, encode_hex and
    parse_as_bin for byte strings, str and eval for the balance dict)
    are not part of the sources at hand; the spec has integers as decimal
    strings and byte strings as hex, and a field of a snapshot is
    represented by the value its text denotes. This is the dict of
    Account.to_dict, as from_snapshot reads it. *)
Record AccountDict := mkAccountDict {
  d_wei : option (dict N Z);
  d_token_balances : option (dict N Z);
  d_nonce : option Z;
  d_code : option bytes;
  d_storage : option (dict Z Z)
}.

(* the dict of prev_header_to_dict, as dict_to_prev_header reads it *)
Record HeaderDict := mkHeaderDict {
  hd_hash : bytes;
  hd_number : Z;
  hd_timestamp : Z;
  hd_difficulty : Z;
  hd_gas_used : option Z;
  hd_gas_limit : Z;
  hd_uncles_hash : option bytes
}.

Record snapshot_data := mkSnapshotData {
  s_alloc : option (dict address AccountDict);
  s_state_root : option (gmap address _Account);
  s_txindex : option Z;
  s_gas_used : option Z;
  s_xshard_receive_gas_used : option Z;
  s_gas_limit : option Z;
  s_block_number : option Z;
  s_block_coinbase : option bytes;
  s_block_difficulty : option Z;
  s_block_fee : option Z;
  s_timestamp : option Z;
  s_bloom : option Z;
  s_recent_uncles : option (dict Z (list bytes));
  s_prev_headers : option (list HeaderDict);
  s_refunds : option Z;
  s_full_shard_key : option Z
}.

(* Account.to_dict *)
Definition Account_to_dict (a : Account) : AccountDict :=
  let odict := fold_left (λ d kv, dict_set d kv.1 kv.2) (storage_cache a)
                 (map_to_list (storage_trie a)) in
  mkAccountDict None (Some (balances (token_balances a))) (Some (nonce a))
    (Some (code_hash a)) (Some odict).

(* State.to_dict *)
Definition to_dict : M (dict address AccountDict) :=
  do keys <- gets (λ S, (map_to_list (trie S)).*1);
  for_each keys (λ addr, get_and_cache_account addr >> ret tt) >>
  gets (λ S, map (λ kv, (kv.1, Account_to_dict kv.2)) (cache S)).

Definition prev_header_to_dict (h : FakeHeader) : HeaderDict :=
  mkHeaderDict (h_hash h) (h_number h) (h_timestamp h) (h_difficulty h)
    (Some (h_gas_used h)) (h_gas_limit h) (Some (h_uncles_hash h)).

Definition BLANK_UNCLES_HASH : bytes := sha3 [xc0].   (* sha3(rlp.encode([])) *)

Definition dict_to_prev_header (h : HeaderDict) : FakeHeader :=
  mkFakeHeader (hd_hash h) (hd_number h) (hd_timestamp h) (hd_difficulty h)
    (default 0 (hd_gas_used h)) (hd_gas_limit h)
    (default BLANK_UNCLES_HASH (hd_uncles_hash h)).

Definition to_snapshot (root_only no_prevblocks : bool) : M snapshot_data :=
  do alloc <- (if root_only then ret None
               else do d <- to_dict; ret (Some d));
  do root <- gets trie;
  do x <- gets aux;
  do depth <- gets (λ S, PREV_HEADER_DEPTH (config S));
  ret (mkSnapshotData
         alloc
         (if root_only then Some root else None)
         (Some (txindex x)) (Some (gas_used x))
         (Some (xshard_receive_gas_used x)) (Some (gas_limit x))
         (Some (block_number x)) (Some (block_coinbase x))
         (Some (block_difficulty x)) (Some (block_fee x))
         (Some (timestamp x)) (Some (bloom x))
         (if no_prevblocks then None else Some (recent_uncles x))
         (if no_prevblocks then None
          else Some (map prev_header_to_dict (take depth (prev_headers x))))
         (Some (refunds x)) (Some (full_shard_key x))).

(* the loop of from_snapshot over STATE_DEFAULTS *)
Definition restore_vars (d : snapshot_data) (x : AuxVars) : AuxVars :=
  mkAuxVars
    (default (txindex STATE_DEFAULTS) (s_txindex d))
    (default (gas_used STATE_DEFAULTS) (s_gas_used d))
    (default (xshard_receive_gas_used STATE_DEFAULTS) (s_xshard_receive_gas_used d))
    (default (gas_limit STATE_DEFAULTS) (s_gas_limit d))
    (default (block_number STATE_DEFAULTS) (s_block_number d))
    (default (block_coinbase STATE_DEFAULTS) (s_block_coinbase d))
    (default (block_difficulty STATE_DEFAULTS) (s_block_difficulty d))
    (default (block_fee STATE_DEFAULTS) (s_block_fee d))
    (default (timestamp STATE_DEFAULTS) (s_timestamp d))
    (logs x)
    (receipts x)
    (default (bloom STATE_DEFAULTS) (s_bloom d))
    (suicides x)
    (match s_recent_uncles d with
     | Some v => fold_left (λ uncles kv, dict_set uncles kv.1 kv.2) v []
     | None => recent_uncles STATE_DEFAULTS
     end)
    (match s_prev_headers d with
     | Some v => map dict_to_prev_header v
     | None => prev_headers STATE_DEFAULTS
     end)
    (default (refunds STATE_DEFAULTS) (s_refunds d))
    (xshard_list x)
    (default (full_shard_key STATE_DEFAULTS) (s_full_shard_key d))
    (xshard_tx_cursor_info x).

Definition when {A} (o : option A) (f : A → M unit) : M unit :=
  match o with
  | Some x => f x
  | None => ret tt
  end.

(* the body of the loop of from_snapshot over the items of "alloc" *)
Definition from_alloc_item (item : address * AccountDict) : M unit :=
  let '(addr, data) := item in
  when (d_wei data) (set_balances addr) >>
  when (d_token_balances data) (set_balances addr) >>
  when (d_code data) (set_code addr) >>
  when (d_nonce data) (set_nonce addr) >>
  when (d_storage data)
    (λ st, for_each st (λ kv, set_storage_data addr kv.1 kv.2)).

Definition from_snapshot_body (snapshot_data : snapshot_data)
    (executing_on_head : bool) : M unit :=
  match s_alloc snapshot_data, s_state_root snapshot_data with
  | Some alloc, _ => for_each alloc from_alloc_item
  | None, Some root => modify (with_trie root)
  | None, None =>
      raise (Exception "Must specify either alloc or state root parameter")
  end >>
  modify_aux (restore_vars snapshot_data) >>
  (if executing_on_head then modify (with_executing_on_head true) else ret tt) >>
  commit false >>
  modify (with_changed []).

Definition from_snapshot (snapshot_data : snapshot_data) (env : Config)
    (executing_on_head : bool) : exn + State :=
  match from_snapshot_body snapshot_data executing_on_head (State_init ∅ env) with
  | (inl e, _) => inl e
  | (inr _, state) => inr state
  end.

Definition le_token_id (p q : TokenBalancePair) : Prop :=
  (token_id p ≤ token_id q)%N.

(* the encoding of a pair whose balance is zero: the balance is the
   empty string, 0x80 *)
Definition encode_zero_pair (p : TokenBalancePair) : bytes :=
  Rlp.encode_list
    [Rlp.encode_string (Rlp.int_to_big_endian (token_id p)); [x80]].

(** ** Calls, observations and examples *)

(* a call of one of the journaled mutators *)
Inductive mutator :=
| Set_nonce (address : address) (value : Z)
| Set_code (address : address) (value : bytes)
| Set_balances (address : address) (token_balances : dict N Z)
| Set_token_balance (address : address) (token_id : N) (val : Z)
| Delta_token_balance (address : address) (token_id : N) (value : Z)
| Increment_nonce (address : address)
| Set_storage_data (address : address) (key value : Z)
| Add_suicide (address : address)
| Add_log (log : pyobj)
| Add_receipt (receipt : pyobj)
| Set_param (kv : param).

Definition call (m : mutator) : M unit :=
  match m with
  | Set_nonce a v => set_nonce a v
  | Set_code a v => set_code a v
  | Set_balances a d => set_balances a d
  | Set_token_balance a t v => set_token_balance a t v
  | Delta_token_balance a t v => delta_token_balance a t v
  | Increment_nonce a => increment_nonce a
  | Set_storage_data a k v => set_storage_data a k v
  | Add_suicide a => add_suicide a
  | Add_log l => add_log l
  | Add_receipt r => add_receipt r
  | Set_param kv => set_param kv
  end.

(* the account a mutator is called on *)
Definition target (m : mutator) : option address :=
  match m with
  | Set_nonce a _ | Set_code a _ | Set_balances a _ | Set_token_balance a _ _
  | Delta_token_balance a _ _ | Increment_nonce a | Set_storage_data a _ _ =>
      Some a
  | Add_suicide _ | Add_log _ | Add_receipt _ | Set_param _ => None
  end.

(* calls made one after the other; a call that raises leaves the state as
   it is at the raise and the caller goes on *)
Definition call_all (ms : list mutator) (S : State) : State :=
  fold_left (λ S m, (call m S).2) ms S.

(* what a method returns, or the exception it raises *)
Definition observe {A} (m : M A) (S : State) : exn + A := (m S).1.

(* the account object the state has for an address: the cached one, or the
   one that the next access builds *)
Definition view (S : State) (address : address) : exn + Account :=
  match dict_get (cache S) address with
  | Some a => inr a
  | None => load S address
  end.

(* the touched flag of the account object of an address; an object that is
   not yet built starts untouched *)
Definition touched_of (S : State) (address : address) : bool :=
  match dict_get (cache S) address with
  | Some a => touched a
  | None => false
  end.

Definition deleted_of (S : State) (address : address) : bool :=
  match dict_get (cache S) address with
  | Some a => deleted a
  | None => false
  end.

Definition example_config : Config := mkConfig 0 0 256 0.

(* State() *)
Definition fresh_state : State := State_init ∅ example_config.

(* the state once the account object [x] of [address] is in the cache *)
Definition cache_account (address : address) (x : Account) (S : State) : State :=
  match dict_get (cache S) address with
  | Some _ => S
  | None => with_cache (dict_set (cache S) address x) S
  end.

(* the journal entry of the balance of a token before it is written *)
Definition token_undo (a : address) (x : Account) (token_id : N) : undo :=
  match dict_get (balances (token_balances x)) token_id with
  | None => UPopToken a token_id
  | Some preval => USetToken a token_id preval
  end.

(* what a call of a mutator on the account object [x] of address [a]
   makes of the object, and the journal entries it adds, the last one
   first *)
Definition effect (a : address) (m : mutator) (x : Account) : Account * list undo :=
  let touch := setattr (A_touched true) in
  let ut := USetattr a (A_touched (touched x)) in
  match m with
  | Set_nonce _ v =>
      (touch (setattr (A_nonce v) x), [ut; USetattr a (A_nonce (nonce x))])
  | Set_code _ v =>
      (touch (setattr (A_code v) x), [ut; USetattr a (A_code (code_hash x))])
  | Set_balances _ d =>
      if dict_eqb (balances (token_balances x)) d then (touch x, [ut])
      else (touch (setattr (A_balances d) x),
            [ut; USetattr a (A_balances (balances (token_balances x)))])
  | Set_token_balance _ t v =>
      if bool_decide (v = tb_balance (token_balances x) t) then (touch x, [ut])
      else (touch (setattr (A_balances (dict_set (balances (token_balances x)) t v)) x),
            [ut; token_undo a x t])
  | Delta_token_balance _ t v =>
      if bool_decide (v = 0) then (touch x, [ut])
      else (touch (setattr (A_balances (dict_set (balances (token_balances x)) t
                                          (tb_balance (token_balances x) t + v))) x),
            [ut; token_undo a x t])
  | Increment_nonce _ =>
      (touch (setattr (A_nonce (nonce x + 1)) x), [ut; USetattr a (A_nonce (nonce x))])
  | Set_storage_data _ k v =>
      let '(preval, x1) := Account_get_storage_data k x in
      (touch (Account_set_storage_data k v x1), [ut; USetStorage a k preval])
  | _ => (x, [])
  end.

(* what account_exists returns for a cached account object *)
Definition account_exists_of (S : State) (x : Account) : bool :=
  if bool_decide (SPURIOUS_DRAGON_FORK_BLKNUM (config S) ≤ block_number (aux S))
  then negb (is_blank x)
  else if deleted x && negb (touched x) then false
       else if touched x then true
            else existent_at_start x.

(* the record that commit writes for an account object *)
Definition account_record (x : Account) (tb : bytes) : _Account :=
  mk_Account (nonce x) tb (storage x) (code_hash x) (acct_full_shard_key x).

(* the state after the loop body of commit has run for the cached account
   object [x] of address [a] *)
Definition commit_item_of (allow_empties : bool) (a : address) (x : Account)
    (S : State) : (exn + unit) * State :=
  if touched x || deleted x then
    let x' := Account_commit x in
    let S1 := with_changed (dict_set (changed S) a true)
                (with_cache (dict_set (cache S) a x') S) in
    if account_exists_of S x' || allow_empties then
      match serialize (token_balances x') with
      | inl e => (inl e, S1)
      | inr tb => (inr tt, with_trie (<[a := account_record x' tb]> (trie S)) S1)
      end
    else (inr tt, with_trie (delete a (trie S)) S1)
  else (inr tt, S).

(* State() with the blank account 1 forced into the trie *)
Definition blank_committed : State :=
  ((set_nonce 1%N 0 >> commit true) fresh_state).2.

(* State() after account 1 received 5 units of token 0 and a commit *)
Definition funded_committed : State :=
  ((set_token_balance 1%N 0%N 5 >> commit false) fresh_state).2.

(* the account object built for account 1 of [funded_committed] *)
Definition funded_account : Account :=
  mkAccount 0 (mkTokenBalances [(0%N, 5)] [x00]) ∅ [] 0 [] ∅ false true false.

(* the balance get_balance returns, or the exception it raises *)
Definition balance_of (S : State) (a : address) (t : N) : exn + Z :=
  observe (get_balance a (Some t)) S.

(* journal entries invoked one after the other *)
Definition undo_all (es : list undo) (S : State) : State :=
  fold_left (λ S e, run_undo e S) es S.

(* the state once the loop of revert has brought the journal down to
   length [L] *)
Definition replayed (L : nat) (S : State) : State :=
  unwind (length (journal S)) L S.

(* the entry [new] of the trie for an address after the loop body of
   commit has run for its account object [x], the entry being [old]
   before *)
Definition entry_after (allow_empties : bool) (S : State) (x : Account)
    (old new : option _Account) : Prop :=
  if touched x || deleted x then
    if account_exists_of S (Account_commit x) || allow_empties then
      ∃ tb, serialize (token_balances (Account_commit x)) = inr tb ∧
            new = Some (account_record (Account_commit x) tb)
    else new = None
  else new = old.

(* [funded_committed] after the balance of account 1 was brought to zero
   and the balance of the unknown account 2 was read *)
Definition pruning_example : State :=
  ((set_token_balance 1%N 0%N 0 >> get_balance 2%N (Some 0%N)) funded_committed).2.

(** ** Relating states for revert *)

(* the value get_storage_data has for a slot of an account object *)
Definition storage_view (x : Account) (key : Z) : Z :=
  match dict_get (storage_cache x) key with
  | Some v => v
  | None => storage_trie_get (storage_trie x) key
  end.

(* [y] is [x] but for slots of the storage trie that it has read into its
   storage cache, and for the shard key *)
Definition acct_sim (x y : Account) : Prop :=
  nonce x = nonce y ∧ token_balances x = token_balances y ∧
  storage x = storage y ∧ code_hash x = code_hash y ∧
  storage_trie x = storage_trie y ∧ touched x = touched y ∧
  existent_at_start x = existent_at_start y ∧ deleted x = deleted y ∧
  ∀ k, match dict_get (storage_cache x) k with
       | Some v => dict_get (storage_cache y) k = Some v
       | None => dict_get (storage_cache y) k = None ∨
                 dict_get (storage_cache y) k = Some (storage_trie_get (storage_trie x) k)
       end.

(* the same relation on what [view] returns *)
Definition view_sim (r1 r2 : exn + Account) : Prop :=
  match r1, r2 with
  | inr x, inr y => acct_sim x y
  | inl e1, inl e2 => e1 = e2
  | _, _ => False
  end.

(* [T] is [S] with more account objects in the cache, each as it is
   built or with more slots read, whatever the auxiliary variables and the
   journal *)
Definition state_sim (S T : State) : Prop :=
  trie S = trie T ∧ config S = config T ∧
  ∀ a, match dict_get (cache S) a with
       | Some x => ∃ y, dict_get (cache T) a = Some y ∧ acct_sim x y
       | None =>
           match dict_get (cache T) a with
           | Some y => ∃ x, load S a = inr x ∧ acct_sim x y
           | None => True
           end
       end.

(* what a journal entry does to the account object it is about *)
Definition undo_acct (u : undo) (x : Account) : Account :=
  match u with
  | USetattr _ preval => setattr preval x
  | UPopToken _ token_id =>
      setattr (A_balances (dict_pop (balances (token_balances x)) token_id)) x
  | USetToken _ token_id preval =>
      setattr (A_balances (dict_set (balances (token_balances x)) token_id preval)) x
  | USetStorage _ key preval => Account_set_storage_data key preval x
  | _ => x
  end.

(* the address of the account object a journal entry is about *)
Definition undo_target (u : undo) : option address :=
  match u with
  | USetattr a _ | UPopToken a _ | USetToken a _ _ | USetStorage a _ _ => Some a
  | _ => None
  end.

(* a journal entry of one of the calls of [mutator], about an account
   object that is in the cache *)
Definition supported (S : State) (u : undo) : Prop :=
  match u with
  | USetattr _ (A_storage_cache _) | USetattr _ (A_root_hash _) => False
  | _ =>
      match undo_target u with
      | Some a => is_Some (dict_get (cache S) a)
      | None => True
      end
  end.

(* State(block_number=2675100) *)
Definition compat_state : State :=
  with_aux (setattr_param (P_block_number 2675100) STATE_DEFAULTS) fresh_state.

(* journal entries invoked on the account object they are about *)
Definition undo_acct_all (es : list undo) (x : Account) : Account :=
  fold_left (λ y e, undo_acct e y) es x.

(** ** Relating states for the snapshot codec *)

(* the token balances that a record of the trie decodes to *)
Definition decode_balances (r : _Account) : TokenBalances :=
  match TokenBalances_init (acc_token_balances r) with
  | inr tb => tb
  | inl _ => mkTokenBalances [] [x00]
  end.

(* the account object built from a record of the trie *)
Definition record_object (r : _Account) : Account :=
  mkAccount (acc_nonce r) (decode_balances r) (acc_storage r) (acc_code_hash r)
    (acc_full_shard_key r) [] (acc_storage r) false true false.

(* the account object from_snapshot has built, before the commit, from the
   dict of the object of a record *)
Definition rebuilt_object (r : _Account) : Account :=
  mkAccount (acc_nonce r) (mkTokenBalances (balances (decode_balances r)) [x00])
    ∅ (acc_code_hash r) 0 (map_to_list (acc_storage r)) ∅ true false false.

(* a record of the trie in the form from_snapshot and commit produce:
   the default shard key, token balances as serialize writes them, no
   zero storage slot and, from the Spurious Dragon fork of [env] on, not
   blank *)
Definition canonical (env : Config) (block_number : Z) (r : _Account) : bool :=
  bool_decide (acc_full_shard_key r = 0) &&
  match TokenBalances_init (acc_token_balances r) with
  | inr tb =>
      bool_decide (serialize tb = inr (acc_token_balances r)) &&
      (bool_decide (block_number < SPURIOUS_DRAGON_FORK_BLKNUM env) ||
       negb (bool_decide (acc_nonce r = 0) && is_empty tb &&
             bool_decide (acc_code_hash r = BLANK_HASH)))
  | inl _ => false
  end &&
  forallb (λ kv, bool_decide (kv.2 ≠ 0)) (map_to_list (acc_storage r)).

(* the auxiliary variables that a snapshot carries over: the numbers and
   byte strings, the uncles and the first [depth] headers unless
   suppressed; the others are those of State() *)
Definition carried_vars (no_prevblocks : bool) (depth : nat) (x : AuxVars) : AuxVars :=
  mkAuxVars (txindex x) (gas_used x) (xshard_receive_gas_used x) (gas_limit x)
    (block_number x) (block_coinbase x) (block_difficulty x) (block_fee x)
    (timestamp x) (logs STATE_DEFAULTS) (receipts STATE_DEFAULTS) (bloom x)
    (suicides STATE_DEFAULTS)
    (if no_prevblocks then recent_uncles STATE_DEFAULTS else recent_uncles x)
    (if no_prevblocks then prev_headers STATE_DEFAULTS
     else take depth (prev_headers x))
    (refunds x) (xshard_list STATE_DEFAULTS) (full_shard_key x)
    (xshard_tx_cursor_info STATE_DEFAULTS).

(* State() after a log and an uncommitted set_nonce *)
Definition uncommitted_state : State :=
  ((add_log (PyObj 1) >> set_nonce 1%N 1) fresh_state).2.

(* from_snapshot(to_snapshot(S, root_only=False), env) *)
Definition round_trip (S : State) (env : Config) : exn + State :=
  match to_snapshot false false S with
  | (inr d, _) => from_snapshot d env false
  | (inl e, _) => inl e
  end.

(* State() after writes to two accounts and to gas_used, and a commit *)
Definition rich_committed : State :=
  ((set_token_balance 1%N 0%N 5 >> set_storage_data 1%N 7 9 >>
    set_nonce 2%N 3 >> set_param (P_gas_used 21000) >> commit false)
     fresh_state).2.

(* State() after an account was created under shard key 7, and a commit *)
Definition keyed_committed : State :=
  ((set_param (P_full_shard_key 7) >> set_nonce 1%N 1 >> commit false)
     fresh_state).2.

(** ** What the getters return *)

(* what can be read of an account: get_nonce, get_code, get_balance for a
   token, get_storage_data for a slot *)
Inductive field :=
| F_nonce
| F_code
| F_balance (token_id : N)
| F_storage (key : Z).

#[global] Instance field_eq_dec : EqDecision field.
Proof. solve_decision. Defined.

(* what the getter of a field returns for an address, or the exception it
   raises; a number or a byte string *)
Definition read (S : State) (a : address) (f : field) : exn + (Z + bytes) :=
  match f with
  | F_nonce => sum_map id inl (observe (get_nonce a) S)
  | F_code => sum_map id inr (observe (get_code a) S)
  | F_balance t => sum_map id inl (observe (get_balance a (Some t)) S)
  | F_storage k => sum_map id inl (observe (get_storage_data a k) S)
  end.

(* the same for an account object *)
Definition field_of (x : Account) (f : field) : Z + bytes :=
  match f with
  | F_nonce => inl (nonce x)
  | F_code => inr (code_hash x)
  | F_balance t => inl (tb_balance (token_balances x) t)
  | F_storage k => inl (storage_view x k)
  end.

(* a call of one of the getters *)
Inductive getter :=
| Get_nonce (address : address)
| Get_code (address : address)
| Get_balance (address : address) (token_id : option N)
| Get_balances (address : address)
| Get_full_shard_key (address : address)
| Get_storage_data (address : address) (key : Z)
| Account_exists_ (address : address).

(* the state that the call of a getter leaves *)
Definition after_getter (g : getter) (S : State) : State :=
  match g with
  | Get_nonce a => (get_nonce a S).2
  | Get_code a => (get_code a S).2
  | Get_balance a t => (get_balance a t S).2
  | Get_balances a => (get_balances a S).2
  | Get_full_shard_key a => (get_full_shard_key a S).2
  | Get_storage_data a k => (get_storage_data a k S).2
  | Account_exists_ a => (account_exists a S).2
  end.

(** ** Deleting accounts *)

(* what del_account makes of the account object [x] of address [a], and
   the journal entries it adds, the last one first *)
Definition del_effect (a : address) (x : Account) : Account * list undo :=
  let '(x1, j1) := effect a (Set_balances a []) x in
  let '(x2, j2) := effect a (Set_nonce a 0) x1 in
  let '(x3, j3) := effect a (Set_code a []) x2 in
  let x4 := setattr (A_root_hash ∅) (setattr (A_storage_cache []) x3) in
  let x5 := setattr (A_deleted true) x4 in
  (setattr (A_touched false) x5,
   [USetattr a (A_touched (touched x5)); USetattr a (A_deleted (deleted x4));
    USetattr a (A_root_hash (storage_trie x3));
    USetattr a (A_storage_cache (storage_cache x3))] ++ j3 ++ j2 ++ j1).

(** ** Block hashes *)

Section block_hashes.

(** Modelled from the spec: FakeHeader is imported from
    quarkchain.evm.common, which is not part of the sources at hand; the
    state calls get_hash() on a header and tests its truth value, and
    both are left open here. *)
Variable get_hash : FakeHeader → bytes.
Variable truth_value : FakeHeader → bool.

(* b"\x00" * 32 *)
Definition ZERO_HASH32 : bytes := replicate 32 x00.

(* State.get_block_hash; None for the IndexError of prev_headers[n] *)
Definition get_block_hash (n : Z) (S : State) : option bytes :=
  if bool_decide (block_number (aux S) < n) || bool_decide (256 < n)
     || bool_decide (n < 0)
  then Some ZERO_HASH32
  else
    match prev_headers (aux S) !! Z.to_nat n with
    | Some h => Some (if truth_value h then get_hash h else ZERO_HASH32)
    | None => None
    end.

End block_hashes.

(* State.add_block_header *)
Definition add_block_header (block_header : FakeHeader) : M unit :=
  modify_aux (λ x, setattr_param (P_prev_headers (block_header :: prev_headers x)) x).

(** ** Balances dicts as objects

    The balances of an account are a Python dict that get_balances hands
    out and set_balances takes in as it is, so that after
    set_balances(b, get_balances(a)) the accounts a and b hold one and the
    same dict, and _set_token_balance_and_journal writes it in place. The
    methods that read and write the entries of that dict are modelled here
    with the dicts in a store and an account object holding a reference
    into it; everything else of the state is as above. *)
Module ByRef.

(* a dict object, named by its place in the store *)
Definition ref := N.

Record Account := mkAccount {
  nonce : Z;
  balances : ref;                    (* token_balances.balances *)
  enum : bytes;                      (* token_balances.enum *)
  storage : gmap Z Z;
  code_hash : bytes;
  acct_full_shard_key : Z;
  storage_cache : dict Z Z;
  storage_trie : gmap Z Z;
  touched : bool;
  existent_at_start : bool;
  deleted : bool
}.

(* the attributes that the methods below assign, with the value *)
Inductive attr :=
| A_touched (v : bool)
| A_balances (v : ref).

(* getattr(acct, param), keeping the name of the attribute *)
Definition getattr (at_ : attr) (a : Account) : attr :=
  match at_ with
  | A_touched _ => A_touched (touched a)
  | A_balances _ => A_balances (balances a)
  end.

(* setattr(acct, param, val) *)
Definition setattr (at_ : attr) (a : Account) : Account :=
  match at_ with
  | A_touched v =>
      mkAccount (nonce a) (balances a) (enum a) (storage a) (code_hash a)
        (acct_full_shard_key a) (storage_cache a) (storage_trie a)
        v (existent_at_start a) (deleted a)
  | A_balances v =>
      mkAccount (nonce a) v (enum a) (storage a) (code_hash a)
        (acct_full_shard_key a) (storage_cache a) (storage_trie a)
        (touched a) (existent_at_start a) (deleted a)
  end.

(* the closures the journal holds *)
Inductive undo :=
| USetattr (a : address) (preval : attr)
    (* lambda: setattr(acct, param, preval) *)
| UPopToken (a : address) (token_id : N)
    (* lambda: acct.token_balances.balances.pop(token_id) *)
| USetToken (a : address) (token_id : N) (preval : Z).
    (* lambda: acct.token_balances.balances.__setitem__(token_id, preval) *)

Record State := mkState {
  trie : gmap address _Account;
  cache : dict address Account;
  dicts : gmap ref (dict N Z);       (* the dict objects there are *)
  journal : list undo;               (* most recent entry first *)
  aux : AuxVars;
  config : Config
}.

Definition with_cache (v : dict address Account) (S : State) : State :=
  mkState (trie S) v (dicts S) (journal S) (aux S) (config S).
Definition with_dicts (v : gmap ref (dict N Z)) (S : State) : State :=
  mkState (trie S) (cache S) v (journal S) (aux S) (config S).
Definition with_journal (v : list undo) (S : State) : State :=
  mkState (trie S) (cache S) (dicts S) v (aux S) (config S).

Definition M (A : Type) : Type := State → (exn + A) * State.

Definition ret {A} (x : A) : M A := λ S, (inr x, S).
Definition raise {A} (e : exn) : M A := λ S, (inl e, S).
Definition bind {A B} (m : M A) (f : A → M B) : M B :=
  λ S, match m S with
       | (inl e, S') => (inl e, S')
       | (inr x, S') => f x S'
       end.
Definition gets {A} (f : State → A) : M A := λ S, (inr (f S), S).
Definition modify (f : State → State) : M unit := λ S, (inr tt, f S).

Declare Scope byref_scope.
Notation "'do' x <- m ; k" := (bind m (λ x, k))
  (at level 10, x name, m at level 99, k at level 200) : byref_scope.
Notation "m >> k" := (bind m (λ _, k))
  (at level 100, k at level 200, right associativity) : byref_scope.
Local Open Scope byref_scope.

(* a place of the store that holds no dict yet *)
Definition fresh_ref (h : gmap ref (dict N Z)) : ref :=
  N.succ (foldr N.max 0%N (map_to_list h).*1).

(* the dict that a reference names *)
Definition deref (S : State) (r : ref) : dict N Z := default [] (dicts S !! r).

(* Account.__init__; TokenBalances.__init__ makes the dict of the account *)
Definition Account_init (nonce : Z) (token_balances : bytes)
    (storage : gmap Z Z) (code_hash : bytes) (full_shard_key : Z) : M Account :=
  λ S, match TokenBalances_init token_balances with
       | inl e => (inl e, S)
       | inr (mkTokenBalances d en) =>
           let r := fresh_ref (dicts S) in
           (inr (mkAccount nonce r en storage code_hash full_shard_key
                   [] storage false true false),
            with_dicts (<[r := d]> (dicts S)) S)
       end.

(* Account.blank_account *)
Definition blank_account (full_shard_key initial_nonce : Z) : M Account :=
  do o <- Account_init initial_nonce [] ∅ BLANK_HASH full_shard_key;
  ret (mkAccount (nonce o) (balances o) (enum o) (storage o) (code_hash o)
         (acct_full_shard_key o) (storage_cache o) (storage_trie o)
         (touched o) false (deleted o)).

Definition get_and_cache_account (address : address) : M Account :=
  do hit <- gets (λ S, dict_get (cache S) address);
  match hit with
  | Some o => ret o
  | None =>
      do rlpdata <- gets (λ S, trie S !! address);
      do o <- match rlpdata with
              | Some o =>
                  Account_init (acc_nonce o) (acc_token_balances o)
                    (acc_storage o) (acc_code_hash o) (acc_full_shard_key o)
              | None =>
                  do fsk <- gets (λ S, full_shard_key (aux S));
                  do n0 <- gets (λ S, ACCOUNT_INITIAL_NONCE (config S));
                  blank_account fsk n0
              end;
      modify (λ S, with_cache (dict_set (cache S) address o) S) >>
      ret o
  end.

(* returns the dict object itself *)
Definition get_balances (address : address) : M ref :=
  do a <- get_and_cache_account address; ret (balances a).

Definition get_balance (address : address) (token_id : option N) : M Z :=
  do token_id <- match token_id with
                 | None => gets (λ S, default_chain_token (config S))
                 | Some t => ret t
                 end;
  do a <- get_and_cache_account address;
  gets (λ S, default 0 (dict_get (deref S (balances a)) token_id)).

Definition get_code (address : address) : M bytes :=
  do a <- get_and_cache_account address; ret (code_hash a).

Definition get_nonce (address : address) : M Z :=
  do a <- get_and_cache_account address; ret (nonce a).

(* a method of the account object cached for [address] that mutates it *)
Definition update_account (address : address) (f : Account → Account) : M unit :=
  modify (λ S, match dict_get (cache S) address with
               | Some a => with_cache (dict_set (cache S) address (f a)) S
               | None => S
               end).

Definition journal_append (u : undo) : M unit :=
  modify (λ S, with_journal (u :: journal S) S).

Definition set_and_journal (acct : address) (val : attr) : M unit :=
  do a <- get_and_cache_account acct;
  journal_append (USetattr acct (getattr val a)) >>
  update_account acct (setattr val).

(* the dict handed in is compared by its entries and stored as it is *)
Definition set_balances (address : address) (token_balances : ref) : M unit :=
  do _ <- get_and_cache_account address;
  do cur <- get_balances address;
  do same <- gets (λ S, dict_eqb (deref S cur) (deref S token_balances));
  if same : bool then set_and_journal address (A_touched true)
  else
    set_and_journal address (A_balances token_balances) >>
    set_and_journal address (A_touched true).

(* acct.token_balances.balances[token_id] = val, in place *)
Definition _set_token_balance_and_journal
    (acct : address) (token_id : N) (val : Z) : M unit :=
  do a <- get_and_cache_account acct;
  do d <- gets (λ S, deref S (balances a));
  match dict_get d token_id with
  | None => journal_append (UPopToken acct token_id)
  | Some preval => journal_append (USetToken acct token_id preval)
  end >>
  modify (λ S, with_dicts (<[balances a := dict_set (deref S (balances a)) token_id val]>
                             (dicts S)) S).

Definition set_token_balance (address : address) (token_id : N) (val : Z) : M unit :=
  do _ <- get_and_cache_account address;
  do cur <- get_balance address (Some token_id);
  if bool_decide (val = cur) then set_and_journal address (A_touched true)
  else
    _set_token_balance_and_journal address token_id val >>
    set_and_journal address (A_touched true).

Definition set_balance (address : address) (val : Z) : M unit :=
  do t <- gets (λ S, default_chain_token (config S));
  set_token_balance address t val.

Definition delta_token_balance (address : address) (token_id : N) (value : Z) : M unit :=
  do a <- get_and_cache_account address;
  if bool_decide (value = 0) then set_and_journal address (A_touched true)
  else
    do bal <- gets (λ S, default 0 (dict_get (deref S (balances a)) token_id));
    let newbal := bal + value in
    _set_token_balance_and_journal address token_id newbal >>
    set_and_journal address (A_touched true).

Definition assert (b : bool) : M unit :=
  if b then ret tt else raise AssertionError.

Definition transfer_value (from_addr to_addr : address) (token_id : N) (value : Z) : M bool :=
  assert (bool_decide (0 ≤ value)) >>
  do bal <- get_balance from_addr (Some token_id);
  if bool_decide (value ≤ bal) then
    delta_token_balance from_addr token_id (- value) >>
    delta_token_balance to_addr token_id value >>
    ret true
  else ret false.

Definition deduct_value (from_addr : address) (token_id : N) (value : Z) : M bool :=
  assert (bool_decide (0 ≤ value)) >>
  do bal <- get_balance from_addr (Some token_id);
  if bool_decide (value ≤ bal) then
    delta_token_balance from_addr token_id (- value) >>
    ret true
  else ret false.

(** *** Observations and examples *)

(* what a method returns, or the exception it raises *)
Definition observe {A} (m : M A) (S : State) : exn + A := (m S).1.

(* the balance get_balance returns, or the exception it raises *)
Definition balance_of (S : State) (a : address) (t : N) : exn + Z :=
  observe (get_balance a (Some t)) S.

(* the account object that get_and_cache_account builds for an address
   that is not cached, and the entries of its dict *)
Definition built (S : State) (a : address) : exn + (Account * dict N Z) :=
  match trie S !! a with
  | Some o =>
      match TokenBalances_init (acc_token_balances o) with
      | inl e => inl e
      | inr (mkTokenBalances d en) =>
          inr (mkAccount (acc_nonce o) (fresh_ref (dicts S)) en (acc_storage o)
                 (acc_code_hash o) (acc_full_shard_key o) [] (acc_storage o)
                 false true false, d)
      end
  | None =>
      inr (mkAccount (ACCOUNT_INITIAL_NONCE (config S)) (fresh_ref (dicts S))
             [x00] ∅ BLANK_HASH (full_shard_key (aux S)) [] ∅ false false false,
           [])
  end.

(* what is seen of an address: the entries of the balances dict it holds,
   its nonce and its code; for an address that is not cached, those of
   the object that the next access builds *)
Definition seen (S : State) (a : address) : exn + (dict N Z * Z * bytes) :=
  match dict_get (cache S) a with
  | Some x => inr (deref S (balances x), nonce x, code_hash x)
  | None =>
      match built S a with
      | inl e => inl e
      | inr (x, d) => inr (d, nonce x, code_hash x)
      end
  end.

(* every dict that an account object of the cache holds is in the store *)
Definition wf (S : State) : Prop :=
  ∀ a x, dict_get (cache S) a = Some x → is_Some (dicts S !! balances x).

(* the accounts [a] and [b] hold one and the same balances dict *)
Definition shares (S : State) (a b : address) : bool :=
  bool_decide (a = b) ||
  match dict_get (cache S) a, dict_get (cache S) b with
  | Some x, Some y => bool_decide (balances x = balances y)
  | _, _ => false
  end.

(* [S'] is [S] but for the journal, for account objects that are now
   cached or touched, and for the entries of the balances dicts, which [F]
   rewrites for each address that holds one *)
Definition evolves (S S' : State) (F : address → dict N Z → dict N Z) : Prop :=
  wf S' ∧ trie S' = trie S ∧ aux S' = aux S ∧ config S' = config S ∧
  (∀ b c, shares S' b c = shares S b c) ∧
  (∀ a, is_Some (dict_get (cache S) a) → is_Some (dict_get (cache S') a)) ∧
  (∀ a, seen S' a = match seen S a with
                    | inl e => inl e
                    | inr i => inr (F a i.1.1, i.1.2, i.2)
                    end).

(* the observed balance [r] of token [t] of address [a] after [d] was
   added to the entry of token [t0] in the dict that address [a0] holds *)
Definition adjust (S : State) (a0 : address) (t0 : N) (d : Z) (a : address)
    (t : N) (r : exn + Z) : exn + Z :=
  match r with
  | inl e => inl e
  | inr b => if shares S a0 a && bool_decide (t = t0) then inr (b + d) else inr b
  end.

(* no balance that can be read is negative *)
Definition nonneg (S : State) : Prop :=
  ∀ a t b, balance_of S a t = inr b → 0 ≤ b.

(* a state over the trie [root], with nothing cached *)
Definition State_init (root : gmap address _Account) (cfg : Config) : State :=
  mkState root [] ∅ [] STATE_DEFAULTS cfg.

(* State(), account 1 given 10 units of token 0, then
   set_balances(2, get_balances(1)) *)
Definition shared_example : State :=
  ((set_token_balance 1%N 0%N 10 >>
    do d <- get_balances 1%N; set_balances 2%N d)
     (State_init ∅ example_config)).2.

(* a trie whose record of account 2 has token balances under the enum
   byte 0x01, and account 1 given 5 units of token 0 *)
Definition undecodable_example : State :=
  (set_token_balance 1%N 0%N 5
     (State_init {[2%N := mk_Account 0 [x01] ∅ [] 0]} example_config)).2.

End ByRef.

(** * Properties *)

(** ** Dictionaries *)

Section dict_facts.
Context {K V : Type} `{EqDecision K}.
Implicit Types (d : dict K V) (k : K) (v : V).

Lemma dict_get_set_eq d k v : dict_get (dict_set d k v) k = Some v.
Proof.
  induction d as [|[k' v'] d IH]; simpl.
  - by rewrite decide_True.
  - destruct (decide (k = k')) as [->|Hne]; simpl.
    + by rewrite decide_True.
    + by rewrite decide_False.
Qed.

Lemma dict_get_set_ne d k k' v :
  k ≠ k' → dict_get (dict_set d k v) k' = dict_get d k'.
Proof.
  intros Hne. induction d as [|[k0 v0] d IH]; simpl.
  - by rewrite decide_False.
  - destruct (decide (k = k0)) as [->|Hk]; simpl.
    + by rewrite !decide_False by done.
    + destruct (decide (k' = k0)); [done|apply IH].
Qed.

Lemma dict_get_set d k k' v :
  dict_get (dict_set d k v) k' =
    if decide (k = k') then Some v else dict_get d k'.
Proof.
  destruct (decide (k = k')) as [->|Hne].
  - apply dict_get_set_eq.
  - by apply dict_get_set_ne.
Qed.

Lemma dict_get_None d k : dict_get d k = None ↔ k ∉ dict_keys d.
Proof.
  unfold dict_keys. induction d as [|[k' v'] d IH]; simpl.
  - split; [intros _; apply not_elem_of_nil|done].
  - rewrite not_elem_of_cons. destruct (decide (k = k')) as [->|Hne].
    + split; [done|]. intros [? _]. done.
    + rewrite IH. tauto.
Qed.

Lemma dict_get_Some_elem d k v : dict_get d k = Some v → (k, v) ∈ d.
Proof.
  induction d as [|[k' v'] d IH]; simpl; [done|].
  destruct (decide (k = k')) as [->|Hne].
  - intros [= ->]. apply list_elem_of_here.
  - intros Hd. apply list_elem_of_further. by apply IH.
Qed.

Lemma dict_elem_get d k v : dict_wf d → (k, v) ∈ d → dict_get d k = Some v.
Proof.
  unfold dict_wf, dict_keys. induction d as [|[k' v'] d IH]; simpl.
  - intros _ Hin. by apply elem_of_nil in Hin.
  - rewrite NoDup_cons. intros [Hk' Hnd] Hin.
    apply elem_of_cons in Hin as [[= -> ->]|Hin].
    + by rewrite decide_True.
    + rewrite decide_False; [by apply IH|].
      intros ->. apply Hk'. apply list_elem_of_fmap. by exists (k', v).
Qed.

(* writing a value back restores the dictionary *)
Lemma dict_set_get_id d k v : dict_get d k = Some v → dict_set d k v = d.
Proof.
  induction d as [|[k' v'] d IH]; simpl; [done|].
  destruct (decide (k = k')) as [->|Hne].
  - by intros [= ->].
  - intros Hd. by rewrite IH.
Qed.

Lemma dict_set_set d k v v' : dict_set (dict_set d k v) k v' = dict_set d k v'.
Proof.
  induction d as [|[k0 v0] d IH]; simpl.
  - by rewrite decide_True.
  - destruct (decide (k = k0)) as [->|Hne]; simpl.
    + by rewrite decide_True.
    + by rewrite decide_False, IH.
Qed.

Lemma dict_set_new d k v : dict_get d k = None → dict_set d k v = d ++ [(k, v)].
Proof.
  induction d as [|[k' v'] d IH]; simpl; [done|].
  destruct (decide (k = k')) as [->|Hne]; [done|].
  intros Hd. by rewrite IH.
Qed.

Lemma dict_pop_absent d k : dict_get d k = None → dict_pop d k = d.
Proof.
  unfold dict_pop. induction d as [|[k' v'] d IH]; cbn [dict_get]; [done|].
  destruct (decide (k = k')) as [->|Hne]; [done|].
  intros Hd. rewrite filter_cons_True by (simpl; congruence).
  by rewrite IH.
Qed.

(* popping a key that was just added restores the dictionary *)
Lemma dict_pop_set_new d k v : dict_get d k = None → dict_pop (dict_set d k v) k = d.
Proof.
  intros Hd. rewrite dict_set_new by done. unfold dict_pop.
  rewrite filter_app. fold (dict_pop d k). rewrite dict_pop_absent by done.
  rewrite filter_cons_False by (simpl; tauto).
  by rewrite filter_nil, app_nil_r.
Qed.

Lemma dict_eqb_Permutation `{EqDecision V} d1 d2 :
  dict_wf d1 → dict_wf d2 → dict_eqb d1 d2 = true → d1 ≡ₚ d2.
Proof.
  intros Hwf1 Hwf2 Heq. unfold dict_eqb in Heq.
  apply andb_true_iff in Heq as [Hlen Hall].
  apply bool_decide_eq_true in Hlen.
  apply submseteq_length_Permutation; [|lia].
  apply NoDup_submseteq.
  - eapply NoDup_fmap_1. exact Hwf1.
  - intros [k v] Hin. rewrite forallb_forall in Hall.
    apply list_elem_of_In, Hall, bool_decide_eq_true in Hin.
    by apply dict_get_Some_elem.
Qed.
End dict_facts.

(** ** The sort of serialize *)


Lemma insert_by_token_id_Permutation p l : insert_by_token_id p l ≡ₚ p :: l.
Proof.
  induction l as [|q l IH]; simpl; [done|].
  destruct (token_id p <=? token_id q)%N; [done|].
  rewrite IH. apply Permutation_swap.
Qed.

Lemma sort_by_token_id_Permutation l : sort_by_token_id l ≡ₚ l.
Proof.
  induction l as [|p l IH]; simpl; [done|].
  by rewrite insert_by_token_id_Permutation, IH.
Qed.

Lemma insert_by_token_id_sorted p l :
  StronglySorted le_token_id l → StronglySorted le_token_id (insert_by_token_id p l).
Proof.
  induction 1 as [|q l Hs IH Hq]; simpl.
  - repeat constructor.
  - destruct (N.leb_spec (token_id p) (token_id q)) as [Hle|Hlt].
    + constructor; [by constructor|].
      constructor; [done|].
      eapply Forall_impl; [exact Hq|]. unfold le_token_id. intros; lia.
    + constructor; [done|].
      rewrite insert_by_token_id_Permutation.
      constructor; [unfold le_token_id; lia|done].
  Qed.

Lemma sort_by_token_id_sorted l : StronglySorted le_token_id (sort_by_token_id l).
Proof.
  induction l as [|p l IH]; simpl; [constructor|].
  by apply insert_by_token_id_sorted.
Qed.

(** ** TokenBalances *)

Lemma sorted_pairs_Permutation tb :
  sorted_pairs tb ≡ₚ map (λ kv, mkPair kv.1 kv.2) (balances tb).
Proof. apply sort_by_token_id_Permutation. Qed.

Lemma sorted_pairs_ext tb1 tb2 :
  dict_wf (balances tb1) → balances tb1 ≡ₚ balances tb2 →
  sorted_pairs tb1 = sorted_pairs tb2.
Proof.
  intros Hwf Hperm.
  apply (StronglySorted_unique_strong le_token_id);
    [|apply sort_by_token_id_sorted..|].
  - intros p q Hp Hq Hle Hge.
    assert (Hk : token_id p = token_id q) by (unfold le_token_id in *; lia).
    rewrite sorted_pairs_Permutation in Hp, Hq. rewrite <-Hperm in Hq.
    apply list_elem_of_fmap in Hp as ([k1 v1] & -> & Hp).
    apply list_elem_of_fmap in Hq as ([k2 v2] & -> & Hq).
    simpl in *. subst k2.
    apply (dict_elem_get _ _ _ Hwf) in Hp, Hq. congruence.
  - rewrite !sorted_pairs_Permutation. by rewrite Hperm.
Qed.

Lemma serialize_nonempty tb :
  balances tb ≠ [] → enum tb = [x00] →
  serialize tb =
    match rlp_encode_pairs (sorted_pairs tb) with
    | inl e => inl e
    | inr b => inr (x00 :: b)
    end.
Proof.
  intros Hne He. unfold serialize.
  rewrite bool_decide_eq_false_2 by (by destruct (balances tb)).
  rewrite decide_True by done. rewrite He. by destruct (rlp_encode_pairs _).
Qed.

(** C5. Serialization of token balances is deterministic: the pairs that
    [serialize] encodes are the entries of the balance map sorted by
    ascending token id, two TokenBalances whose balance maps are equal
    (Python's [==], whatever the insertion order) serialize to the same
    result, the empty map serializes to the empty byte string and the
    empty byte string decodes to the empty map. *)
Theorem serialize_deterministic (tb1 tb2 : TokenBalances)
    (Hwf1 : dict_wf (balances tb1)) (Hwf2 : dict_wf (balances tb2))
    (Henum : enum tb1 = enum tb2)
    (Heq : dict_eqb (balances tb1) (balances tb2) = true) :
  StronglySorted le_token_id (sorted_pairs tb1) ∧
  sorted_pairs tb1 ≡ₚ map (λ kv, mkPair kv.1 kv.2) (balances tb1) ∧
  (balances tb1 ≠ [] → enum tb1 = [x00] →
   serialize tb1 = match rlp_encode_pairs (sorted_pairs tb1) with
                   | inl e => inl e
                   | inr b => inr (x00 :: b)
                   end) ∧
  serialize tb1 = serialize tb2 ∧
  serialize (mkTokenBalances [] (enum tb1)) = inr [] ∧
  TokenBalances_init [] = inr (mkTokenBalances [] [x00]).
Proof.
  split; [apply sort_by_token_id_sorted|].
  split; [apply sorted_pairs_Permutation|].
  split; [apply serialize_nonempty|].
  split; [|done].
  pose proof (dict_eqb_Permutation _ _ Hwf1 Hwf2 Heq) as Hperm.
  unfold serialize. rewrite <-Henum, (Permutation_length Hperm).
  by rewrite (sorted_pairs_ext tb1 tb2).
Qed.

Lemma serialize_deterministic_witness :
  serialize (mkTokenBalances [(5%N, 7); (1%N, 2)] [x00]) =
  serialize (mkTokenBalances [(1%N, 2); (5%N, 7)] [x00]).
Proof.
  refine (proj1 (proj2 (proj2 (proj2
    (serialize_deterministic
       (mkTokenBalances [(5%N, 7); (1%N, 2)] [x00])
       (mkTokenBalances [(1%N, 2); (5%N, 7)] [x00]) _ _ _ _))))).
  - apply (bool_decide_unpack _). vm_compute. exact I.
  - apply (bool_decide_unpack _). vm_compute. exact I.
  - reflexivity.
  - vm_compute. reflexivity.
Defined.

(** C8. A non-empty byte string whose version byte is 0x01 makes the
    constructor raise the "not implemented" exception, a version byte
    other than 0x00 and 0x01 makes it raise the "unknown enum byte"
    exception; both are exceptions, not values, and they differ. *)
Theorem TokenBalances_init_bad_enum (b : byte) (rest : bytes)
    (H0 : b ≠ x00) (H1 : b ≠ x01) :
  TokenBalances_init (x01 :: rest) = inl not_implemented ∧
  TokenBalances_init (b :: rest) = inl unknown_enum ∧
  not_implemented ≠ unknown_enum.
Proof.
  split; [done|]. split; [|done].
  unfold TokenBalances_init. simpl.
  rewrite take_0. rewrite !decide_False; [done|congruence..].
Qed.

Lemma TokenBalances_init_bad_enum_witness :
  TokenBalances_init [x01; xc0] = inl not_implemented ∧
  TokenBalances_init [x02; xc0] = inl unknown_enum ∧
  not_implemented ≠ unknown_enum.
Proof. apply (TokenBalances_init_bad_enum x02 [xc0]); discriminate. Defined.


Lemma encode_pairs_zero l :
  Forall (λ p, balance p = 0) l → encode_pairs l = inr (map encode_zero_pair l).
Proof.
  induction 1 as [|p l Hp _ IH]; simpl; [done|].
  rewrite IH. unfold encode_pair, Rlp.serialize_int. rewrite Hp.
  destruct (Z.ltb_spec (Z.of_N (token_id p)) 0) as [?|_]; [lia|].
  by rewrite N2Z.id.
Qed.

Lemma is_empty_spec tb :
  is_empty tb = true ↔ ∀ k v, (k, v) ∈ balances tb → v = 0.
Proof.
  unfold is_empty, dict_values. rewrite forallb_forall. split.
  - intros Hall k v Hin. apply (bool_decide_eq_true (v = 0)), Hall.
    apply list_elem_of_In, list_elem_of_fmap. by exists (k, v).
  - intros Hz v Hin. apply bool_decide_eq_true.
    apply list_elem_of_In, list_elem_of_fmap in Hin as ([k v'] & -> & Hin).
    by eapply Hz.
Qed.

Lemma serialize_empty_iff tb : serialize tb = inr [] ↔ balances tb = [].
Proof.
  unfold serialize. split.
  - destruct (balances tb) as [|kv d] eqn:Hb; [done|].
    rewrite bool_decide_eq_false_2 by done.
    destruct (decide (enum tb = [x00])) as [He|?].
    + rewrite He. by destruct (rlp_encode_pairs _).
    + by destruct (decide (enum tb = [x01])).
  - intros ->. done.
Qed.

(** C10. A TokenBalances whose map is not empty but holds only zero
    balances is empty for [is_empty], yet [serialize] returns a non-empty
    byte string: the version byte followed by the list of the pairs, each
    with its explicit zero balance. [serialize] returns the empty byte
    string only for a map without entries. So such a TokenBalances and the
    one without entries have the same balance for every token and
    different serializations. *)
Theorem zero_balances_serialize (tb : TokenBalances)
    (Henum : enum tb = [x00]) (Hne : balances tb ≠ [])
    (Hz : ∀ k v, (k, v) ∈ balances tb → v = 0) :
  is_empty tb = true ∧
  serialize tb = inr (x00 :: Rlp.encode_list (map encode_zero_pair (sorted_pairs tb))) ∧
  length (sorted_pairs tb) = length (balances tb) ∧
  (∀ tb', serialize tb' = inr [] ↔ balances tb' = []) ∧
  (∀ t, tb_balance tb t = tb_balance (mkTokenBalances [] [x00]) t) ∧
  serialize tb ≠ serialize (mkTokenBalances [] [x00]).
Proof.
  assert (Hser : serialize tb =
            inr (x00 :: Rlp.encode_list (map encode_zero_pair (sorted_pairs tb)))).
  { rewrite serialize_nonempty by done. unfold rlp_encode_pairs.
    rewrite encode_pairs_zero; [done|].
    rewrite Forall_forall. intros p Hp.
    rewrite sorted_pairs_Permutation in Hp.
    apply list_elem_of_fmap in Hp as ([k v] & -> & Hp). simpl. by eapply Hz. }
  split; [by apply is_empty_spec|]. split; [done|].
  split.
  { rewrite (Permutation_length (sorted_pairs_Permutation tb)).
    apply length_map. }
  split; [apply serialize_empty_iff|]. split.
  - intros t. unfold tb_balance. simpl.
    destruct (dict_get (balances tb) t) as [v|] eqn:Hg; [|done].
    apply dict_get_Some_elem in Hg. simpl. by eapply Hz.
  - by rewrite Hser.
Qed.

Lemma zero_balances_serialize_witness :
  is_empty (mkTokenBalances [(1%N, 0)] [x00]) = true ∧
  serialize (mkTokenBalances [(1%N, 0)] [x00]) = inr [x00; xc3; xc2; x01; x80].
Proof.
  pose proof (zero_balances_serialize (mkTokenBalances [(1%N, 0)] [x00])) as H.
  destruct H as (H1 & H2 & _).
  - reflexivity.
  - discriminate.
  - intros k v Hin. apply list_elem_of_In in Hin. simpl in Hin.
    destruct Hin as [[= _ <-]|[]]. reflexivity.
  - split; [exact H1|exact H2].
Defined.

(** ** Stepping through the methods *)

Lemma bind_inr {A B} (m : M A) (f : A → M B) S x S' :
  m S = (inr x, S') → bind m f S = f x S'.
Proof. unfold bind. by intros ->. Qed.

Lemma bind_inl {A B} (m : M A) (f : A → M B) S e S' :
  m S = (inl e, S') → bind m f S = (inl e, S').
Proof. unfold bind. by intros ->. Qed.

Lemma view_cached S a x : dict_get (cache S) a = Some x → view S a = inr x.
Proof. unfold view. by intros ->. Qed.

Lemma get_and_cache_account_eq S a :
  get_and_cache_account a S =
    match view S a with
    | inl e => (inl e, S)
    | inr x => (inr x, cache_account a x S)
    end.
Proof.
  unfold get_and_cache_account, view, cache_account.
  destruct (dict_get (cache S) a); [done|]. by destruct (load S a).
Qed.

Lemma get_and_cache_account_cached S a x :
  dict_get (cache S) a = Some x → get_and_cache_account a S = (inr x, S).
Proof. unfold get_and_cache_account. by intros ->. Qed.

Lemma cache_account_get S a x :
  view S a = inr x → dict_get (cache (cache_account a x S)) a = Some x.
Proof.
  unfold view, cache_account. destruct (dict_get (cache S) a) eqn:Hc.
  - intros [= ->]. done.
  - intros _. simpl. apply dict_get_set_eq.
Qed.

Lemma cache_account_get_ne S a a' x :
  a ≠ a' → dict_get (cache (cache_account a x S)) a' = dict_get (cache S) a'.
Proof.
  intros Hne. unfold cache_account. destruct (dict_get (cache S) a); [done|].
  simpl. by apply dict_get_set_ne.
Qed.

Lemma cache_account_view S a x a' :
  view S a = inr x → view (cache_account a x S) a' = view S a'.
Proof.
  intros Hv. destruct (decide (a = a')) as [<-|Hne].
  - rewrite Hv. by apply view_cached, cache_account_get.
  - unfold view. rewrite cache_account_get_ne by done.
    unfold cache_account. by destruct (dict_get (cache S) a).
Qed.

Lemma cache_account_touched_of S a x a' :
  view S a = inr x → touched x = touched_of S a →
  touched_of (cache_account a x S) a' = touched_of S a'.
Proof.
  intros Hv Ht. unfold touched_of at 1. destruct (decide (a = a')) as [<-|Hne].
  - by rewrite (cache_account_get _ _ _ Hv).
  - by rewrite cache_account_get_ne.
Qed.

Lemma cache_account_fields S a x :
  trie (cache_account a x S) = trie S ∧
  journal (cache_account a x S) = journal S ∧
  aux (cache_account a x S) = aux S ∧
  config (cache_account a x S) = config S ∧
  changed (cache_account a x S) = changed S.
Proof. unfold cache_account. by destruct (dict_get (cache S) a). Qed.

(* an account object that the state builds starts untouched *)
Lemma load_untouched S a x : load S a = inr x → touched x = false ∧ deleted x = false.
Proof.
  unfold load, blank_account, Account_init.
  destruct (trie S !! a) as [o|].
  - destruct (TokenBalances_init _); [done|]. by intros [= <-].
  - simpl. by intros [= <-].
Qed.

Lemma view_touched S a x : view S a = inr x → touched x = touched_of S a.
Proof.
  unfold view, touched_of. destruct (dict_get (cache S) a).
  - by intros [= ->].
  - intros Hl. by apply load_untouched in Hl as [-> _].
Qed.

Lemma set_and_journal_cached S a x v :
  dict_get (cache S) a = Some x →
  set_and_journal a v S =
    (inr tt, with_cache (dict_set (cache S) a (setattr v x))
               (with_journal (USetattr a (getattr v x) :: journal S) S)).
Proof.
  intros Hc. unfold set_and_journal.
  rewrite (bind_inr _ _ _ _ _ (get_and_cache_account_cached _ _ _ Hc)).
  unfold bind, journal_append, update_account, modify, update_cache. simpl.
  by rewrite Hc.
Qed.

Lemma update_account_cached S a x f :
  dict_get (cache S) a = Some x →
  update_account a f S = (inr tt, with_cache (dict_set (cache S) a (f x)) S).
Proof.
  intros Hc. unfold update_account, modify, update_cache. by rewrite Hc.
Qed.

Ltac cached :=
  simpl; rewrite ?dict_get_set_eq; first [eassumption | reflexivity].

Ltac mstep :=
  first
    [ erewrite (bind_inr (get_and_cache_account _))
        by (apply get_and_cache_account_cached; cached)
    | erewrite (bind_inr (set_and_journal _ _))
        by (apply set_and_journal_cached; cached)
    | erewrite (bind_inr (update_account _ _))
        by (apply update_account_cached; cached)
    | erewrite set_and_journal_cached by cached
    | erewrite update_account_cached by cached
    | erewrite get_and_cache_account_cached by cached ].

Lemma get_balance_cached S a x t :
  dict_get (cache S) a = Some x →
  get_balance a (Some t) S = (inr (tb_balance (token_balances x) t), S).
Proof.
  intros Hc. unfold get_balance, bind, ret.
  by rewrite (get_and_cache_account_cached _ _ _ Hc).
Qed.

Lemma get_balances_cached S a x :
  dict_get (cache S) a = Some x →
  get_balances a S = (inr (balances (token_balances x)), S).
Proof. intros Hc. unfold get_balances. by repeat mstep. Qed.

Lemma _set_token_balance_and_journal_cached S a x t v :
  dict_get (cache S) a = Some x →
  _set_token_balance_and_journal a t v S =
    (inr tt,
     with_cache (dict_set (cache S) a
                   (setattr (A_balances (dict_set (balances (token_balances x)) t v)) x))
       (with_journal (token_undo a x t :: journal S) S)).
Proof.
  intros Hc. unfold _set_token_balance_and_journal, token_undo. mstep.
  destruct (dict_get (balances (token_balances x)) t);
    unfold bind, journal_append, modify; by mstep.
Qed.

Lemma Account_get_storage_data_touched key x :
  touched (Account_get_storage_data key x).2 = touched x.
Proof.
  unfold Account_get_storage_data. by destruct (dict_get (storage_cache x) key).
Qed.

(* a mutator called on an address whose account object is cached *)
Lemma call_cached S a x m :
  target m = Some a → dict_get (cache S) a = Some x →
  call m S = (inr tt, with_cache (dict_set (cache S) a (effect a m x).1)
                        (with_journal ((effect a m x).2 ++ journal S) S)).
Proof.
  intros Ht Hc. destruct m; simplify_eq/=.
  - unfold set_nonce. repeat mstep. simpl. by rewrite ?dict_set_set.
  - unfold set_code. repeat mstep. simpl. by rewrite ?dict_set_set.
  - unfold set_balances. mstep.
    rewrite (bind_inr _ _ _ _ _ (get_balances_cached _ _ _ Hc)).
    destruct (dict_eqb _ _); repeat mstep; simpl; by rewrite ?dict_set_set.
  - unfold set_token_balance. mstep.
    rewrite (bind_inr _ _ _ _ _ (get_balance_cached _ _ _ _ Hc)).
    destruct (bool_decide _); repeat mstep; [done|].
    rewrite (bind_inr _ _ _ _ _ (_set_token_balance_and_journal_cached _ _ _ _ _ Hc)).
    repeat mstep. simpl. by rewrite ?dict_set_set.
  - unfold delta_token_balance. mstep.
    destruct (bool_decide _); repeat mstep; [done|].
    rewrite (bind_inr _ _ _ _ _ (_set_token_balance_and_journal_cached _ _ _ _ _ Hc)).
    repeat mstep. simpl. by rewrite ?dict_set_set.
  - unfold increment_nonce. repeat mstep. simpl. by rewrite ?dict_set_set.
  - unfold set_storage_data. mstep.
    pose proof (Account_get_storage_data_touched key x) as Hx1.
    destruct (Account_get_storage_data key x) as [preval x1].
    repeat mstep. unfold bind at 1, journal_append at 1, modify at 1.
    repeat mstep. simpl in *. by rewrite ?dict_set_set, Hx1.
Qed.

Lemma call_uncached S a m :
  target m = Some a →
  call m S = match view S a with
             | inl e => (inl e, S)
             | inr x => call m (cache_account a x S)
             end.
Proof.
  intros Ht. destruct (view S a) as [e|x] eqn:Hv.
  - destruct m; simplify_eq/=;
      unfold set_nonce, set_code, set_balances, set_token_balance,
        delta_token_balance, increment_nonce, set_storage_data, bind;
      by rewrite get_and_cache_account_eq, Hv.
  - pose proof (cache_account_get _ _ _ Hv) as Hc.
    destruct m; simplify_eq/=;
      unfold set_nonce, set_code, set_balances, set_token_balance,
        delta_token_balance, increment_nonce, set_storage_data;
      unfold bind at 1; rewrite get_and_cache_account_eq, Hv;
      symmetry; unfold bind at 1;
      by rewrite (get_and_cache_account_cached _ _ _ Hc).
Qed.

(* a mutator called on an address, in terms of the account object the
   state has for it *)
Lemma call_target S a m :
  target m = Some a →
  call m S =
    match view S a with
    | inl e => (inl e, S)
    | inr x =>
        let S1 := cache_account a x S in
        (inr tt, with_cache (dict_set (cache S1) a (effect a m x).1)
                   (with_journal ((effect a m x).2 ++ journal S) S1))
    end.
Proof.
  intros Ht. rewrite (call_uncached _ _ _ Ht).
  destruct (view S a) as [e|x] eqn:Hv; [done|].
  rewrite (call_cached _ _ x _ Ht) by by apply cache_account_get.
  simpl. by rewrite (proj1 (proj2 (cache_account_fields S a x))).
Qed.

Lemma effect_touched a m x :
  target m = Some a →
  touched (effect a m x).1 = true ∧
  ∃ es, (effect a m x).2 = USetattr a (A_touched (touched x)) :: es.
Proof.
  intros Ht. destruct m; simplify_eq/=; eauto.
  - destruct (dict_eqb _ _); simpl; eauto.
  - destruct (bool_decide _); simpl; eauto.
  - destruct (bool_decide _); simpl; eauto.
  - destruct (Account_get_storage_data key x); simpl; eauto.
Qed.

Lemma reset_storage_cached S a x :
  dict_get (cache S) a = Some x →
  reset_storage a S =
    (inr tt,
     with_cache (dict_set (cache S) a (setattr (A_root_hash ∅) (setattr (A_storage_cache []) x)))
       (with_journal (USetattr a (A_root_hash (storage_trie x))
                      :: USetattr a (A_storage_cache (storage_cache x)) :: journal S) S)).
Proof.
  intros Hc. unfold reset_storage. repeat mstep.
  unfold bind at 1, journal_append at 1, modify at 1.
  unfold bind at 1, journal_append at 1, modify at 1.
  repeat mstep. simpl. by rewrite dict_set_set.
Qed.

Lemma del_account_cached S a x :
  dict_get (cache S) a = Some x →
  ∃ x' j, del_account a S = (inr tt, with_cache (dict_set (cache S) a x') (with_journal j S)) ∧
          touched x' = false ∧ deleted x' = true.
Proof.
  intros Hc. unfold del_account.
  change (set_balances a []) with (call (Set_balances a [])).
  change (set_nonce a 0) with (call (Set_nonce a 0)).
  change (set_code a []) with (call (Set_code a [])).
  erewrite (bind_inr (call _)) by (by apply (call_cached _ a x)).
  erewrite (bind_inr (call _)) by (apply (call_cached _ a); [done|cached]).
  erewrite (bind_inr (call _)) by (apply (call_cached _ a); [done|cached]).
  erewrite (bind_inr (reset_storage _)) by (apply reset_storage_cached; cached).
  repeat mstep. simpl. rewrite !dict_set_set.
  eexists _, _. split; [reflexivity|]. done.
Qed.

Lemma bind_congr_state {A B} (m : M A) (k : A → M B) S S1 :
  m S = m S1 → bind m k S = bind m k S1.
Proof. unfold bind. by intros ->. Qed.

Lemma get_and_cache_account_twice S a x :
  view S a = inr x →
  get_and_cache_account a S = get_and_cache_account a (cache_account a x S).
Proof.
  intros Hv. rewrite get_and_cache_account_eq, Hv. symmetry.
  by apply get_and_cache_account_cached, cache_account_get.
Qed.

Lemma touched_of_set S a x c j :
  touched_of (with_cache (dict_set c a x) (with_journal j S)) a = touched x.
Proof. unfold touched_of. simpl. by rewrite dict_get_set_eq. Qed.

(** C9, as the code has it. Each of set_nonce, set_code, set_balances,
    set_token_balance, delta_token_balance, increment_nonce and
    set_storage_data, called on an address whose account object can be
    built, returns with the touched flag of that account set, and the
    entry it put last on the journal restores the flag the account had
    before the call. del_account returns with the flag cleared and the
    deleted flag set; reset_storage leaves the flag as it was. *)
Theorem account_mutators_touch (S : State) (a : address) (x : Account)
    (Hv : view S a = inr x) :
  (∀ m, target m = Some a →
     ∃ S' j, call m S = (inr tt, S') ∧ touched_of S' a = true ∧
             journal S' = USetattr a (A_touched (touched_of S a)) :: j ++ journal S) ∧
  (∃ S', del_account a S = (inr tt, S') ∧
         touched_of S' a = false ∧ deleted_of S' a = true) ∧
  (∃ S', reset_storage a S = (inr tt, S') ∧ touched_of S' a = touched_of S a).
Proof.
  pose proof (cache_account_get _ _ _ Hv) as Hc.
  pose proof (view_touched _ _ _ Hv) as Hx.
  split; [|split].
  - intros m Ht. rewrite (call_target _ _ _ Ht), Hv.
    destruct (effect_touched a m x Ht) as [Htouched [es Hes]].
    eexists _, es. split; [reflexivity|]. simpl.
    rewrite touched_of_set, Hes, <-Hx. done.
  - destruct (del_account_cached _ _ _ Hc) as (x' & j & Hdel & Ht & Hd).
    eexists. split.
    + unfold del_account.
      rewrite (bind_congr_state _ _ S (cache_account a x S)).
      * exact Hdel.
      * change (set_balances a []) with (call (Set_balances a [])).
        rewrite (call_uncached S a) by done. by rewrite Hv.
    + rewrite touched_of_set. unfold deleted_of. simpl.
      by rewrite dict_get_set_eq.
  - eexists. split.
    + unfold reset_storage.
      rewrite (bind_congr_state _ _ S (cache_account a x S))
        by by apply get_and_cache_account_twice.
      apply (reset_storage_cached _ _ _ Hc).
    + rewrite touched_of_set. simpl. done.
Qed.

Lemma account_mutators_touch_witness :
  ∃ S', call (Set_nonce 1%N 5) fresh_state = (inr tt, S') ∧
        touched_of S' 1%N = true.
Proof.
  destruct (account_mutators_touch fresh_state 1%N
              (mkAccount 0 (mkTokenBalances [] [x00]) ∅ [] 0 [] ∅ false false false)
              eq_refl) as [H _].
  destruct (H (Set_nonce 1%N 5) eq_refl) as (S' & j & Hcall & Ht & _).
  exists S'. split; [exact Hcall|exact Ht].
Defined.

(** C9, as stated, fails: del_account returns with the touched flag of
    its account cleared. *)
Lemma del_account_leaves_untouched :
  (del_account 1%N fresh_state).1 = inr tt ∧
  touched_of (del_account 1%N fresh_state).2 1%N = false.
Proof. vm_compute. done. Qed.

Lemma reset_storage_leaves_untouched :
  (reset_storage 1%N fresh_state).1 = inr tt ∧
  touched_of (reset_storage 1%N fresh_state).2 1%N = false.
Proof. vm_compute. done. Qed.

Lemma account_exists_cached S a x :
  dict_get (cache S) a = Some x →
  account_exists a S = (inr (account_exists_of S x), S).
Proof.
  intros Hc. unfold account_exists, account_exists_of, is_SPURIOUS_DRAGON.
  unfold bind at 1, gets at 1.
  destruct (bool_decide _); mstep; [done|].
  destruct (deleted x && negb (touched x)); [done|]. by destruct (touched x).
Qed.

Lemma account_exists_of_frame S c d y :
  account_exists_of (with_changed c (with_cache d S)) y = account_exists_of S y.
Proof. done. Qed.

Lemma commit_item_cached S ae a x :
  dict_get (cache S) a = Some x → commit_item ae a S = commit_item_of ae a x S.
Proof.
  intros Hc. unfold commit_item, commit_item_of. mstep.
  destruct (touched x || deleted x); [|done].
  mstep. unfold bind at 1, modify at 1.
  erewrite (bind_inr (account_exists _)) by (apply account_exists_cached; cached).
  rewrite account_exists_of_frame.
  destruct (account_exists_of S (Account_commit x) || ae); [|done].
  mstep. unfold bind, lift, account_record.
  by destruct (serialize _).
Qed.

Lemma load_record S a r x :
  trie S !! a = Some r → load S a = inr x →
  TokenBalances_init (acc_token_balances r) = inr (token_balances x) ∧
  x = mkAccount (acc_nonce r) (token_balances x) (acc_storage r) (acc_code_hash r)
        (acc_full_shard_key r) [] (acc_storage r) false true false.
Proof.
  unfold load, Account_init. intros ->.
  destruct (TokenBalances_init _); [done|]. by intros [= <-].
Qed.

Lemma for_each_one {A} (f : A → M unit) (y : A) S :
  for_each [y] f S = f y S.
Proof.
  simpl. unfold bind, ret. by destruct (f y S) as [[e|[]] S'].
Qed.

Lemma commit_single S a x :
  cache S = [(a, x)] →
  commit false S =
    match commit_item_of false a x S with
    | (inl e, S') => (inl e, S')
    | (inr _, S') => (inr tt, with_journal [] (with_cache [] S'))
    end.
Proof.
  intros Hc. unfold commit. unfold bind at 1, gets at 1. rewrite Hc.
  unfold dict_keys. simpl fmap. unfold bind at 1.
  rewrite for_each_one, (commit_item_cached _ _ _ x)
    by (rewrite Hc; simpl; by rewrite decide_True).
  by destruct (commit_item_of false a x S) as [[e|[]] S'].
Qed.

(** C7, as the code has it. Writing a balance that is already there
    (set_token_balance with the current balance, delta_token_balance with
    a delta that leaves the balance as it is) adds one entry to the
    journal, the one of the touched flag, and changes nothing of the
    account but that flag. The account is touched, so commit writes it:
    from a committed state, the write followed by commit leaves the trie
    root as it was when the account is in the trie in the form that
    serialize produces and, from the Spurious Dragon fork on, is not
    blank. *)
Theorem noop_write_journal (S : State) (a : address) (t : N) (x : Account)
    (Hv : view S a = inr x) :
  let v := tb_balance (token_balances x) t in
  let touch := setattr (A_touched true) in
  observe (get_balance a (Some t)) S = inr v ∧
  (∃ S', set_token_balance a t v S = (inr tt, S') ∧
         journal S' = USetattr a (A_touched (touched x)) :: journal S ∧
         view S' a = inr (touch x)) ∧
  (∀ d, v + d = v →
     ∃ S', delta_token_balance a t d S = (inr tt, S') ∧
           journal S' = USetattr a (A_touched (touched x)) :: journal S ∧
           view S' a = inr (touch x)) ∧
  (∀ r, cache S = [] → trie S !! a = Some r →
     serialize (token_balances x) = inr (acc_token_balances r) →
     (SPURIOUS_DRAGON_FORK_BLKNUM (config S) ≤ block_number (aux S) →
      is_blank x = false) →
     ∃ S', (set_token_balance a t v >> commit false) S = (inr tt, S') ∧
           trie S' = trie S).
Proof.
  intros v touch.
  assert (Hset : set_token_balance a t v S =
            (inr tt, with_cache (dict_set (cache (cache_account a x S)) a (touch x))
                       (with_journal (USetattr a (A_touched (touched x)) :: journal S)
                          (cache_account a x S)))).
  { change (set_token_balance a t v) with (call (Set_token_balance a t v)).
    rewrite (call_target _ a) by done. rewrite Hv. simpl.
    by rewrite bool_decide_eq_true_2. }
  split; [|split; [|split]].
  - unfold observe, get_balance, bind, ret.
    by rewrite get_and_cache_account_eq, Hv.
  - eexists. split; [exact Hset|]. split; [done|].
    apply view_cached. simpl. apply dict_get_set_eq.
  - intros d Hd. assert (d = 0) as -> by lia.
    change (delta_token_balance a t 0) with (call (Delta_token_balance a t 0)).
    rewrite (call_target _ a) by done. rewrite Hv.
    eexists. split; [reflexivity|]. split; [done|].
    apply view_cached. simpl. apply dict_get_set_eq.
  - intros r Hcache Htrie Hser Hfork.
    assert (Hload : load S a = inr x).
    { unfold view in Hv. by rewrite Hcache in Hv. }
    destruct (load_record _ _ _ _ Htrie Hload) as [Htb Hx].
    rewrite (bind_inr _ _ _ _ _ Hset).
    unfold cache_account. rewrite Hcache. simpl dict_get. cbv iota.
    erewrite commit_single; last first.
    { simpl. by rewrite decide_True. }
    unfold commit_item_of.
    assert (Hex : account_exists_of S (Account_commit (touch x)) = true).
    { unfold account_exists_of. simpl. case_bool_decide as Hf;
        [|by rewrite andb_false_r].
      apply Hfork in Hf. unfold is_blank in *. simpl. by rewrite Hf. }
    simpl (touched _). simpl (_ || _). cbv iota.
    change (account_exists_of _ (Account_commit (touch x)))
      with (account_exists_of S (Account_commit (touch x))).
    rewrite Hex. simpl (token_balances _). rewrite Hser.
    eexists. split; [reflexivity|]. simpl.
    apply insert_id. rewrite Htrie. f_equal.
    rewrite Hx. unfold account_record. simpl. by destruct r.
Qed.

Lemma noop_write_journal_witness :
  ∃ S', (set_token_balance 1%N 0%N 5 >> commit false) funded_committed = (inr tt, S') ∧
        trie S' = trie funded_committed.
Proof.
  destruct (noop_write_journal funded_committed 1%N 0%N funded_account eq_refl)
    as (_ & _ & _ & H).
  apply (H (mk_Account 0 [x00; xc3; xc2; x80; x05] ∅ [] 0)).
  - reflexivity.
  - vm_compute. reflexivity.
  - vm_compute. reflexivity.
  - intros _. vm_compute. reflexivity.
Defined.

(** C7, as stated, fails: account 1 is blank and in the trie; writing
    the balance it has touches it, and the commit prunes it. *)
Lemma noop_write_changes_root :
  observe (get_balance 1%N (Some 0%N)) blank_committed = inr 0 ∧
  ((set_token_balance 1%N 0%N 0 >> commit false) blank_committed).1 = inr tt ∧
  trie ((set_token_balance 1%N 0%N 0 >> commit false) blank_committed).2
    ≠ trie blank_committed.
Proof.
  split; [by vm_compute|]. split; [by vm_compute|].
  intros H. apply (f_equal (λ m, m !! 1%N)) in H. vm_compute in H. discriminate.
Qed.

(** ** Balances *)

Lemma balance_of_view S a t :
  balance_of S a t =
    match view S a with
    | inl e => inl e
    | inr x => inr (tb_balance (token_balances x) t)
    end.
Proof.
  unfold balance_of, observe, get_balance, bind, ret.
  rewrite get_and_cache_account_eq. by destruct (view S a).
Qed.

Lemma view_with_cache_set S a x' j a' :
  view (with_cache (dict_set (cache S) a x') (with_journal j S)) a' =
    if decide (a = a') then inr x' else view S a'.
Proof.
  unfold view. simpl. rewrite dict_get_set. by destruct (decide (a = a')).
Qed.

(** ** Replaying the journal *)

Lemma update_cache_with_journal a f j S :
  update_cache a f (with_journal j S) = with_journal j (update_cache a f S).
Proof. unfold update_cache. simpl. by destruct (dict_get (cache S) a). Qed.

Lemma run_undo_with_journal u j S :
  run_undo u (with_journal j S) = with_journal j (run_undo u S).
Proof. destruct u; simpl; by rewrite ?update_cache_with_journal. Qed.

Lemma update_cache_fields a f S :
  trie (update_cache a f S) = trie S ∧ journal (update_cache a f S) = journal S ∧
  aux (update_cache a f S) = aux S ∧ config (update_cache a f S) = config S.
Proof. unfold update_cache. by destruct (dict_get (cache S) a). Qed.

Lemma run_undo_fields u S :
  trie (run_undo u S) = trie S ∧ journal (run_undo u S) = journal S ∧
  config (run_undo u S) = config S.
Proof.
  destruct u; simpl; unfold update_cache; try done;
    by destruct (dict_get (cache S) a).
Qed.

Lemma undo_all_fields es S :
  trie (undo_all es S) = trie S ∧ journal (undo_all es S) = journal S ∧
  config (undo_all es S) = config S.
Proof.
  revert S. induction es as [|e es IH]; intros S; simpl; [done|].
  destruct (IH (run_undo e S)) as (-> & -> & ->). apply run_undo_fields.
Qed.

Lemma undo_all_with_journal es j S :
  undo_all es (with_journal j S) = with_journal j (undo_all es S).
Proof.
  revert S. induction es as [|e es IH]; intros S; simpl; [done|].
  by rewrite run_undo_with_journal, IH.
Qed.

(* the loop of revert pops the entries above length [L], the last
   appended first *)
Lemma unwind_app fuel new old S :
  journal S = new ++ old → (length new ≤ fuel)%nat →
  unwind fuel (length old) S = with_journal old (undo_all new S).
Proof.
  revert new S. induction fuel as [|fuel IH]; intros new S Hj Hfuel.
  - destruct new; [|simpl in Hfuel; lia]. simpl in *. rewrite <-Hj. by destruct S.
  - simpl. destruct new as [|e new]; simpl in Hj.
    + rewrite Hj. destruct old as [|e old].
      * simpl. rewrite <-Hj. by destruct S.
      * rewrite bool_decide_eq_false_2 by (simpl; lia).
        simpl. rewrite <-Hj. by destruct S.
    + rewrite Hj. rewrite bool_decide_eq_true_2
        by (simpl; rewrite length_app; lia).
      rewrite (IH new).
      * simpl. by rewrite run_undo_with_journal, undo_all_with_journal.
      * destruct (run_undo_fields e (with_journal (new ++ old) S)) as (_ & -> & _).
        done.
      * simpl in Hfuel. lia.
Qed.

Lemma replayed_app new old S :
  journal S = new ++ old →
  replayed (length old) S = with_journal old (undo_all new S).
Proof.
  intros Hj. unfold replayed. apply unwind_app; [done|].
  rewrite Hj, length_app. lia.
Qed.

Lemma replayed_fields L S :
  trie (replayed L S) = trie S ∧ config (replayed L S) = config S ∧
  (journal (replayed L S) = drop (length (journal S) - L) (journal S)).
Proof.
  pose proof (take_drop (length (journal S) - L) (journal S)) as Hj.
  destruct (decide (L ≤ length (journal S))%nat) as [Hle|Hgt].
  - assert (HL : L = length (drop (length (journal S) - L) (journal S))).
    { rewrite length_drop. lia. }
    rewrite HL at 1 2 3. rewrite (replayed_app _ _ _ (eq_sym Hj)). simpl.
    by destruct (undo_all_fields (take (length (journal S) - L) (journal S)) S)
      as (-> & _ & ->).
  - replace (length (journal S) - L)%nat with 0%nat by lia. simpl.
    unfold replayed. destruct (length (journal S)) as [|n] eqn:Hn; [done|].
    simpl. destruct (journal S) as [|e j] eqn:Hjs; [done|].
    rewrite bool_decide_eq_false_2; [done|]. simpl in *. lia.
Qed.

(* revert, phase by phase *)
Lemma revert_eq h L auxvars S :
  revert (h, L, auxvars) S =
    let S1 := replayed L S in
    if bool_decide (h ≠ trie S) then
      if bool_decide (L = 0%nat) then
        let S2 := with_aux auxvars (with_cache [] (with_trie h S1)) in
        if touched_of S THREE && in_compat_window (block_number auxvars)
        then delta_token_balance THREE (default_chain_token (config S)) 0 S2
        else (inr tt, S2)
      else (inl AssertionError, S1)
    else
      let S2 := with_aux auxvars S1 in
      if touched_of S THREE && in_compat_window (block_number auxvars)
      then delta_token_balance THREE (default_chain_token (config S)) 0 S2
      else (inr tt, S2).
Proof.
  unfold revert. unfold bind at 1, gets at 1. unfold bind at 1, modify at 1.
  fold (replayed L S). fold (touched_of S THREE).
  destruct (replayed_fields L S) as (Ht & Hcfg & _).
  unfold bind at 1, gets at 1. rewrite Ht.
  destruct (bool_decide (h ≠ trie S)).
  - destruct (bool_decide (L = 0%nat)).
    + unfold bind, ret, modify, gets. simpl.
      destruct (touched_of S THREE && in_compat_window (block_number auxvars));
        [|done].
      simpl. by rewrite Hcfg.
    + by unfold bind, ret, raise.
  - unfold bind, ret, modify, gets. simpl.
    destruct (touched_of S THREE && in_compat_window (block_number auxvars));
      [|done].
    simpl. by rewrite Hcfg.
Qed.

Lemma delta_token_balance_trie a t d S :
  trie (delta_token_balance a t d S).2 = trie S.
Proof.
  change (delta_token_balance a t d) with (call (Delta_token_balance a t d)).
  rewrite (call_target _ a) by done.
  destruct (view S a) as [e|x]; [done|]. simpl.
  apply cache_account_fields.
Qed.

(** C6. In revert, when the trie root differs from the root of the
    snapshot: a snapshot with a journal length other than zero fails
    the assertion (the journal has been replayed, nothing else is done);
    with journal length zero the trie root is set to the root of the
    snapshot and the account cache is emptied, after which revert
    restores the auxiliary variables and applies its compatibility rule
    for address THREE to that state. The returned state has the root of
    the snapshot. *)
Theorem revert_root_reset (S : State) (h : gmap address _Account) (L : nat)
    (auxvars : AuxVars) (Hroot : h ≠ trie S) :
  let S2 := with_aux auxvars (with_cache [] (with_trie h (replayed 0 S))) in
  (L ≠ 0%nat → revert (h, L, auxvars) S = (inl AssertionError, replayed L S)) ∧
  (L = 0%nat →
     trie S2 = h ∧ cache S2 = [] ∧ journal S2 = [] ∧ aux S2 = auxvars ∧
     revert (h, L, auxvars) S =
       (if touched_of S THREE && in_compat_window (block_number auxvars)
        then delta_token_balance THREE (default_chain_token (config S)) 0 S2
        else (inr tt, S2)) ∧
     trie (revert (h, L, auxvars) S).2 = h).
Proof.
  intros S2. split.
  - intros HL. rewrite revert_eq. cbv zeta.
    rewrite bool_decide_eq_true_2 by done.
    by rewrite bool_decide_eq_false_2.
  - intros ->.
    assert (Hrev : revert (h, 0%nat, auxvars) S =
              (if touched_of S THREE && in_compat_window (block_number auxvars)
               then delta_token_balance THREE (default_chain_token (config S)) 0 S2
               else (inr tt, S2))).
    { rewrite revert_eq. cbv zeta. by rewrite !bool_decide_eq_true_2. }
    split; [done|]. split; [done|]. split.
    { destruct (replayed_fields 0 S) as (_ & _ & Hj). simpl. rewrite Hj.
      rewrite Nat.sub_0_r. apply drop_all. }
    split; [done|]. split; [done|].
    rewrite Hrev. destruct (_ && _); [|done].
    by rewrite delta_token_balance_trie.
Qed.

Lemma revert_root_reset_witness :
  revert (∅, 0%nat, STATE_DEFAULTS) funded_committed =
    (inr tt, with_aux STATE_DEFAULTS
               (with_cache [] (with_trie ∅ (replayed 0 funded_committed)))).
Proof.
  destruct (revert_root_reset funded_committed ∅ 0 STATE_DEFAULTS) as [_ H].
  - intros Heq. apply (f_equal (λ m, m !! 1%N)) in Heq. vm_compute in Heq.
    discriminate.
  - destruct (H eq_refl) as (_ & _ & _ & _ & Hrev & _). exact Hrev.
Defined.

(** ** Commit *)

Lemma account_exists_of_ext S1 S x :
  aux S1 = aux S → config S1 = config S →
  account_exists_of S1 x = account_exists_of S x.
Proof. unfold account_exists_of. by intros -> ->. Qed.

Lemma entry_after_ext ae S1 S x old new :
  aux S1 = aux S → config S1 = config S →
  entry_after ae S1 x old new ↔ entry_after ae S x old new.
Proof.
  intros Ha Hc. unfold entry_after.
  by rewrite (account_exists_of_ext S1 S _ Ha Hc).
Qed.

(* the loop body of commit: what it changes *)
Lemma commit_item_of_spec ae k x S r S1 :
  commit_item_of ae k x S = (r, S1) →
  aux S1 = aux S ∧ config S1 = config S ∧
  (∀ a, a ≠ k → trie S1 !! a = trie S !! a ∧
                dict_get (cache S1) a = dict_get (cache S) a) ∧
  (r = inr tt → entry_after ae S x (trie S !! k) (trie S1 !! k)).
Proof.
  unfold commit_item_of, entry_after.
  destruct (touched x || deleted x); [|by intros [= <- <-]].
  destruct (account_exists_of S (Account_commit x) || ae).
  - destruct (serialize _) as [e|tb] eqn:Hser; intros [= <- <-]; simpl;
      (split; [done|]); (split; [done|]); split.
    + intros a Hne. by rewrite dict_get_set_ne.
    + done.
    + intros a Hne. by rewrite lookup_insert_ne, dict_get_set_ne.
    + intros _. exists tb. by rewrite lookup_insert_eq.
  - intros [= <- <-]. simpl. split; [done|]. split; [done|]. split.
    + intros a Hne. by rewrite lookup_delete_ne, dict_get_set_ne.
    + intros _. by rewrite lookup_delete_eq.
Qed.

(* the loop of commit over keys that are cached and pairwise different *)
Lemma commit_loop_spec ae ks S S' :
  NoDup ks → (∀ k, k ∈ ks → is_Some (dict_get (cache S) k)) →
  for_each ks (commit_item ae) S = (inr tt, S') →
  aux S' = aux S ∧ config S' = config S ∧
  (∀ a, a ∉ ks → trie S' !! a = trie S !! a) ∧
  (∀ a x, a ∈ ks → dict_get (cache S) a = Some x →
     entry_after ae S x (trie S !! a) (trie S' !! a)).
Proof.
  revert S. induction ks as [|k ks IH]; intros S Hnd Hcached.
  - simpl. intros [= <-]. repeat split; try done.
    intros a x Hin. by apply elem_of_nil in Hin.
  - apply NoDup_cons in Hnd as [Hk Hnd]. simpl. unfold bind at 1.
    destruct (Hcached k) as [xk Hxk]; [apply list_elem_of_here|].
    rewrite (commit_item_cached _ _ _ _ Hxk).
    destruct (commit_item_of ae k xk S) as [[e|[]] S1] eqn:Hitem; [done|].
    intros Hloop.
    destruct (commit_item_of_spec _ _ _ _ _ _ Hitem) as (Ha1 & Hc1 & Hother & Hk1).
    destruct (IH S1 Hnd) as (Ha & Hc & Hout & Hin); [|done|].
    { intros k' Hk'. destruct (Hother k') as [_ ->]; [by intros ->|].
      apply Hcached. by apply list_elem_of_further. }
    split; [congruence|]. split; [congruence|]. split.
    + intros a Ha'. apply not_elem_of_cons in Ha' as [Hne Ha'].
      rewrite (Hout a Ha'). by apply Hother.
    + intros a x Ha' Hx. apply elem_of_cons in Ha' as [->|Ha'].
      * rewrite (Hout k Hk). simplify_eq. by apply Hk1.
      * assert (a ≠ k) as Hne by (by intros ->).
        destruct (Hother a Hne) as [Ht Hg].
        rewrite <-Ht. apply (entry_after_ext ae S1 S); [done..|].
        apply Hin; [done|]. by rewrite Hg.
Qed.

Lemma dict_keys_cached {V} (d : dict address V) k :
  k ∈ dict_keys d → is_Some (dict_get d k).
Proof.
  intros Hin. destruct (dict_get d k) eqn:Hg; [by eexists|].
  by apply dict_get_None in Hg.
Qed.

(* commit, entry by entry of the trie *)
Lemma commit_spec ae S S' :
  dict_wf (cache S) → commit ae S = (inr tt, S') →
  cache S' = [] ∧ journal S' = [] ∧ aux S' = aux S ∧ config S' = config S ∧
  (∀ a, dict_get (cache S) a = None → trie S' !! a = trie S !! a) ∧
  (∀ a x, dict_get (cache S) a = Some x →
     entry_after ae S x (trie S !! a) (trie S' !! a)).
Proof.
  intros Hwf. unfold commit. unfold bind at 1, gets at 1. unfold bind at 1.
  destruct (for_each _ _ S) as [[e|[]] S1] eqn:Hloop; [done|].
  unfold bind, modify. simpl. intros [= <-]. simpl.
  destruct (commit_loop_spec _ _ _ _ Hwf (dict_keys_cached _) Hloop)
    as (Ha & Hc & Hout & Hin).
  repeat split; try done.
  - intros a Hnone. apply Hout. by apply dict_get_None.
  - intros a x Hx. apply Hin; [|done].
    assert (is_Some (dict_get (cache S) a)) as Hs by (by eexists).
    destruct (decide (a ∈ dict_keys (cache S))) as [|Hn]; [done|].
    apply dict_get_None in Hn. rewrite Hn in Hs. by destruct Hs.
Qed.

Lemma is_blank_Account_commit x : is_blank (Account_commit x) = is_blank x.
Proof. done. Qed.

(** C4. After commit() has returned: an address that is not in the trie
    and whose account object, if the cache has one, is blank and was
    never touched, is not in the trie; and, from the Spurious Dragon fork
    on, the address of a touched account object that is blank is not in
    the trie. *)
Theorem commit_prunes_blank (S S' : State) (a : address)
    (Hwf : dict_wf (cache S)) (Hcommit : commit false S = (inr tt, S')) :
  (trie S !! a = None →
   (∀ x, dict_get (cache S) a = Some x → is_blank x = true ∧ touched x = false) →
   trie S' !! a = None) ∧
  (∀ x, dict_get (cache S) a = Some x → touched x = true → is_blank x = true →
     SPURIOUS_DRAGON_FORK_BLKNUM (config S) ≤ block_number (aux S) →
     trie S' !! a = None).
Proof.
  destruct (commit_spec _ _ _ Hwf Hcommit) as (_ & _ & _ & _ & Hout & Hin).
  split.
  - intros Htrie Hblank. destruct (dict_get (cache S) a) as [x|] eqn:Hx.
    + destruct (Hblank x eq_refl) as [Hb Ht].
      specialize (Hin a x Hx). unfold entry_after in Hin.
      rewrite Ht, Htrie in Hin. simpl in Hin.
      destruct (deleted x) eqn:Hd; [|done].
      unfold account_exists_of in Hin. rewrite is_blank_Account_commit, Hb in Hin.
      simpl in Hin. rewrite Hd, Ht in Hin. simpl in Hin.
      by destruct (bool_decide _).
    + by rewrite (Hout a Hx).
  - intros x Hx Ht Hb Hfork. specialize (Hin a x Hx).
    unfold entry_after, account_exists_of in Hin.
    rewrite Ht, is_blank_Account_commit, Hb in Hin. simpl in Hin.
    by rewrite bool_decide_eq_true_2 in Hin.
Qed.

Lemma commit_prunes_blank_witness :
  trie pruning_example !! 1%N ≠ None ∧
  trie (commit false pruning_example).2 !! 1%N = None ∧
  trie (commit false pruning_example).2 !! 2%N = None.
Proof.
  split; [vm_compute; discriminate|].
  assert (Hwf : dict_wf (cache pruning_example)).
  { apply (bool_decide_unpack _). vm_compute. exact I. }
  assert (Hcommit : commit false pruning_example =
                      (inr tt, (commit false pruning_example).2)).
  { vm_compute. reflexivity. }
  split.
  - refine (proj2 (commit_prunes_blank _ _ 1%N Hwf Hcommit) _ _ _ _ _).
    + vm_compute. reflexivity.
    + reflexivity.
    + vm_compute. reflexivity.
    + vm_compute. discriminate.
  - refine (proj1 (commit_prunes_blank _ _ 2%N Hwf Hcommit) _ _).
    + vm_compute. reflexivity.
    + intros x Hx. vm_compute in Hx. injection Hx as <-. split; reflexivity.
Defined.

(** ** Revert *)

Lemma acct_sim_refl x : acct_sim x x.
Proof.
  repeat split. intros k. destruct (dict_get (storage_cache x) k); auto.
Qed.

Lemma acct_sim_trans x y z : acct_sim x y → acct_sim y z → acct_sim x z.
Proof.
  intros (? & ? & ? & ? & Hst & ? & ? & ? & Hxy) (? & ? & ? & ? & ? & ? & ? & ? & Hyz).
  repeat split; try congruence.
  intros k. specialize (Hxy k). specialize (Hyz k).
  destruct (dict_get (storage_cache x) k) as [v|].
  - by rewrite Hxy in Hyz.
  - destruct Hxy as [Hxy|Hxy]; rewrite Hxy in Hyz.
    + by rewrite <-Hst in Hyz.
    + by right.
Qed.

Lemma view_sim_refl r : view_sim r r.
Proof. destruct r; simpl; [done|apply acct_sim_refl]. Qed.

Lemma view_sim_trans r1 r2 r3 : view_sim r1 r2 → view_sim r2 r3 → view_sim r1 r3.
Proof.
  destruct r1, r2, r3; simpl; try done; [congruence|apply acct_sim_trans].
Qed.

Lemma load_sim S T a :
  trie S = trie T → config S = config T → view_sim (load S a) (load T a).
Proof.
  intros Ht Hc. unfold load. rewrite Ht, Hc.
  destruct (trie T !! a); [apply view_sim_refl|].
  simpl. repeat split. intros k. by left.
Qed.

Lemma state_sim_refl S : state_sim S S.
Proof.
  split; [done|]. split; [done|]. intros a.
  destruct (dict_get (cache S) a) as [x|]; [|done].
  exists x. split; [done|apply acct_sim_refl].
Qed.

Lemma state_sim_trans S T U : state_sim S T → state_sim T U → state_sim S U.
Proof.
  intros (Ht1 & Hc1 & H1) (Ht2 & Hc2 & H2).
  split; [congruence|]. split; [congruence|]. intros a.
  specialize (H1 a). specialize (H2 a).
  destruct (dict_get (cache S) a) as [x|].
  - destruct H1 as (y & Hy & Hxy). rewrite Hy in H2.
    destruct H2 as (z & Hz & Hyz). exists z. split; [done|].
    by eapply acct_sim_trans.
  - destruct (dict_get (cache T) a) as [y|].
    + destruct H1 as (x & Hx & Hxy). destruct H2 as (z & Hz & Hyz).
      rewrite Hz. exists x. split; [done|]. by eapply acct_sim_trans.
    + destruct (dict_get (cache U) a) as [z|]; [|done].
      destruct H2 as (y & Hy & Hyz).
      pose proof (load_sim S T a Ht1 Hc1) as Hl. rewrite Hy in Hl.
      destruct (load S a) as [e|x]; [done|].
      exists x. split; [done|]. by eapply acct_sim_trans.
Qed.

Lemma state_sim_view S T a : state_sim S T → view_sim (view S a) (view T a).
Proof.
  intros (Ht & Hc & H). specialize (H a). unfold view.
  destruct (dict_get (cache S) a) as [x|].
  - destruct H as (y & -> & Hxy). done.
  - destruct (dict_get (cache T) a) as [y|].
    + destruct H as (x & -> & Hxy). done.
    + by apply load_sim.
Qed.

Lemma state_sim_frame S T j v :
  state_sim S T → state_sim S (with_aux v (with_journal j T)).
Proof. intros (? & ? & H). by repeat split. Qed.

(* a journal entry about an account object acts on that object only *)
Lemma run_undo_target u a S :
  undo_target u = Some a → run_undo u S = update_cache a (undo_acct u) S.
Proof. destruct u; simpl; try done; by intros [= ->]. Qed.

Lemma run_undo_no_target u S :
  undo_target u = None → cache (run_undo u S) = cache S.
Proof. by destruct u. Qed.

Lemma update_cache_get a f S a' :
  dict_get (cache (update_cache a f S)) a' =
    if decide (a = a') then f <$> dict_get (cache S) a' else dict_get (cache S) a'.
Proof.
  unfold update_cache. destruct (dict_get (cache S) a) as [x|] eqn:Hx; simpl.
  - rewrite dict_get_set. destruct (decide (a = a')) as [<-|]; [|done].
    by rewrite Hx.
  - destruct (decide (a = a')) as [<-|]; [|done]. by rewrite Hx.
Qed.

Lemma run_undo_get u S a :
  dict_get (cache (run_undo u S)) a =
    if decide (undo_target u = Some a) then undo_acct u <$> dict_get (cache S) a
    else dict_get (cache S) a.
Proof.
  destruct (undo_target u) as [a0|] eqn:Hu.
  - rewrite (run_undo_target _ _ _ Hu), update_cache_get.
    destruct (decide (a0 = a)) as [->|Hne].
    + by rewrite decide_True.
    + by rewrite decide_False by congruence.
  - rewrite (run_undo_no_target _ _ Hu). by rewrite decide_False.
Qed.

Lemma run_undo_cached u S a :
  is_Some (dict_get (cache (run_undo u S)) a) ↔ is_Some (dict_get (cache S) a).
Proof.
  rewrite run_undo_get. destruct (decide _); [|done].
  by rewrite fmap_is_Some.
Qed.

Lemma undo_all_cached es S a :
  is_Some (dict_get (cache (undo_all es S)) a) ↔ is_Some (dict_get (cache S) a).
Proof.
  revert S. induction es as [|e es IH]; intros S; simpl; [done|].
  by rewrite IH, run_undo_cached.
Qed.

Lemma supported_run_undo u e S : supported S e → supported (run_undo u S) e.
Proof.
  unfold supported. destruct e as [a []| | | | | | | |]; simpl; try done;
    by rewrite run_undo_cached.
Qed.

Lemma undo_acct_sim S u x y :
  supported S u → acct_sim x y → acct_sim (undo_acct u x) (undo_acct u y).
Proof.
  intros Hs (Hn & Htb & Hsto & Hcode & Hst & Ht & He & Hd & Hsc).
  destruct u as [a []|a t|a t v|a k v| | | | |]; simpl in *; try done;
    repeat split; simpl; try done; try congruence.
  intros k'. specialize (Hsc k').
  rewrite !dict_get_set. by destruct (decide (k = k')).
Qed.

Lemma load_with_aux_sim S S' a :
  trie S' = trie S → config S' = config S → ∀ x y,
  load S a = inr x → acct_sim x y → ∃ x', load S' a = inr x' ∧ acct_sim x' y.
Proof.
  intros Ht Hc x y Hx Hxy.
  pose proof (load_sim S' S a Ht Hc) as Hl. rewrite Hx in Hl.
  destruct (load S' a) as [e|x']; [done|].
  exists x'. split; [done|]. by eapply acct_sim_trans.
Qed.

(* the same journal entry invoked in two related states *)
Lemma run_undo_sim u S T :
  state_sim S T → supported S u → state_sim (run_undo u S) (run_undo u T).
Proof.
  intros (Ht & Hc & H) Hs.
  destruct (run_undo_fields u S) as (HtS & _ & HcS).
  destruct (run_undo_fields u T) as (HtT & _ & HcT).
  split; [congruence|]. split; [congruence|]. intros a.
  specialize (H a). rewrite !run_undo_get.
  destruct (decide (undo_target u = Some a)) as [Hu|Hu].
  - assert (is_Some (dict_get (cache S) a)) as [x Hx].
    { unfold supported in Hs. rewrite Hu in Hs.
      by destruct u as [? []| | | | | | | |]. }
    rewrite Hx in *. destruct H as (y & -> & Hxy). simpl.
    eexists. split; [done|]. by eapply undo_acct_sim.
  - destruct (dict_get (cache S) a) as [x|]; [done|].
    destruct (dict_get (cache T) a) as [y|]; [|done].
    destruct H as (x & Hx & Hxy).
    by eapply (load_with_aux_sim S).
Qed.

Lemma undo_all_sim es S T :
  state_sim S T → Forall (supported S) es →
  state_sim (undo_all es S) (undo_all es T).
Proof.
  revert S T. induction es as [|e es IH]; intros S T Hsim Hall; simpl; [done|].
  apply Forall_cons_1 in Hall as [He Hes]. apply IH.
  - by apply run_undo_sim.
  - eapply Forall_impl; [exact Hes|]. intros e'. apply supported_run_undo.
Qed.

Lemma undo_all_app es1 es2 S :
  undo_all (es1 ++ es2) S = undo_all es2 (undo_all es1 S).
Proof. apply fold_left_app. Qed.

Lemma setattr_balances_id x :
  setattr (A_balances (balances (token_balances x))) x = x.
Proof. by destruct x as [? [] ? ? ? ? ? ? ? ?]. Qed.

Lemma token_undo_restores a x t v :
  undo_acct (token_undo a x t)
    (setattr (A_touched (touched x))
       (setattr (A_touched true)
          (setattr (A_balances (dict_set (balances (token_balances x)) t v)) x))) = x.
Proof.
  unfold token_undo.
  destruct (dict_get (balances (token_balances x)) t) as [p|] eqn:Hg; simpl.
  - rewrite dict_set_set, (dict_set_get_id _ _ _ Hg). by destruct x as [? [] ? ? ? ? ? ? ? ?].
  - rewrite (dict_pop_set_new _ _ _ Hg). by destruct x as [? [] ? ? ? ? ? ? ? ?].
Qed.

(* the entries a call adds to the journal, invoked on the account object
   the call has left, give back the object the call has found *)
Lemma effect_undo a m x :
  target m = Some a →
  acct_sim x (undo_acct_all (effect a m x).2 (effect a m x).1) ∧
  Forall (λ e, undo_target e = Some a ∧
               ∀ S, is_Some (dict_get (cache S) a) → supported S e)
    (effect a m x).2.
Proof.
  intros Ht. unfold undo_acct_all.
  destruct m; simplify_eq/=.
  - split; [destruct x; apply acct_sim_refl|]. by repeat constructor.
  - split; [destruct x; apply acct_sim_refl|]. by repeat constructor.
  - destruct (dict_eqb _ _); simpl.
    + split; [destruct x; apply acct_sim_refl|]. by repeat constructor.
    + split; [destruct x as [? [] ? ? ? ? ? ? ? ?]; apply acct_sim_refl|].
      by repeat constructor.
  - destruct (bool_decide _); simpl.
    + split; [destruct x; apply acct_sim_refl|]. by repeat constructor.
    + split.
      * match goal with |- context [token_undo a x ?t] =>
          match goal with |- context [dict_set _ t ?v] =>
            pose proof (token_undo_restores a x t v) as Hr end end.
        simpl in Hr. rewrite Hr. apply acct_sim_refl.
      * unfold token_undo.
        destruct (dict_get _ _); by repeat constructor.
  - destruct (bool_decide _); simpl.
    + split; [destruct x; apply acct_sim_refl|]. by repeat constructor.
    + split.
      * match goal with |- context [token_undo a x ?t] =>
          match goal with |- context [dict_set _ t ?v] =>
            pose proof (token_undo_restores a x t v) as Hr end end.
        simpl in Hr. rewrite Hr. apply acct_sim_refl.
      * unfold token_undo.
        destruct (dict_get _ _); by repeat constructor.
  - split; [destruct x; apply acct_sim_refl|]. by repeat constructor.
  - unfold Account_get_storage_data.
    destruct (dict_get (storage_cache x) key) as [p|] eqn:Hg; simpl.
    + split; [|by repeat constructor].
      unfold Account_set_storage_data. simpl.
      rewrite dict_set_set, (dict_set_get_id _ _ _ Hg).
      destruct x; apply acct_sim_refl.
    + split; [|by repeat constructor].
      unfold Account_set_storage_data. simpl.
      rewrite !dict_set_set. repeat split. simpl. intros k.
      rewrite dict_get_set. destruct (decide (key = k)) as [<-|Hne].
      * rewrite Hg. by right.
      * destruct (dict_get (storage_cache x) k); auto.
Qed.

Lemma undo_all_targeted a es c y S :
  Forall (λ e, undo_target e = Some a) es →
  undo_all es (with_cache (dict_set c a y) S) =
    with_cache (dict_set c a (undo_acct_all es y)) S.
Proof.
  revert y. induction es as [|e es IH]; intros y Hall; simpl; [done|].
  apply Forall_cons_1 in Hall as [He Hes].
  rewrite (run_undo_target _ _ _ He). unfold update_cache. simpl.
  rewrite dict_get_set_eq, dict_set_set.
  by rewrite <-(IH _ Hes).
Qed.

(* the entries a call adds to the journal, invoked on the state the
   call has left, give a state related to the one the call has found *)
Lemma call_undo m S :
  ∃ es, journal (call m S).2 = es ++ journal S ∧
        Forall (supported (call m S).2) es ∧
        state_sim S (undo_all es (call m S).2) ∧
        trie (call m S).2 = trie S ∧ config (call m S).2 = config S.
Proof.
  destruct (target m) as [a|] eqn:Ht.
  - rewrite (call_target _ _ _ Ht).
    destruct (view S a) as [e|x] eqn:Hv.
    { exists []. simpl. repeat split; try done. apply state_sim_refl. }
    destruct (effect_undo a m x Ht) as [Hsim Hall].
    destruct (cache_account_fields S a x) as (HtS & HjS & _ & HcS & _).
    exists (effect a m x).2. cbv zeta. simpl. split; [done|]. split; [|split].
    + eapply Forall_impl; [exact Hall|]. intros e [_ He]. apply He.
      simpl. rewrite dict_get_set_eq. by eexists.
    + rewrite undo_all_targeted
        by (eapply Forall_impl; [exact Hall|]; by intros e [? _]).
      split; [done|]. split; [done|]. intros a'. simpl.
      rewrite dict_get_set. destruct (decide (a = a')) as [<-|Hne].
      * unfold view in Hv. destruct (dict_get (cache S) a) as [x0|].
        -- simplify_eq. eauto.
        -- eauto.
      * rewrite cache_account_get_ne by done.
        destruct (dict_get (cache S) a') as [x0|]; [|done].
        exists x0. split; [done|apply acct_sim_refl].
    + done.
  - destruct m; simplify_eq/=.
    + exists [UPopSuicide]. repeat split; try done. by repeat constructor.
      intros a. simpl. destruct (dict_get (cache S) a) as [x|]; [|done].
      exists x. split; [done|apply acct_sim_refl].
    + exists [UPopLog]. repeat split; try done. by repeat constructor.
      intros a. simpl. destruct (dict_get (cache S) a) as [x|]; [|done].
      exists x. split; [done|apply acct_sim_refl].
    + exists [UPopReceipt]. repeat split; try done. by repeat constructor.
      intros a. simpl. destruct (dict_get (cache S) a) as [x|]; [|done].
      exists x. split; [done|apply acct_sim_refl].
    + exists [USetParam (getattr_param kv (aux S))].
      repeat split; try done. by repeat constructor.
      intros a. simpl. destruct (dict_get (cache S) a) as [x|]; [|done].
      exists x. split; [done|apply acct_sim_refl].
Qed.

Lemma call_all_undo ms S :
  ∃ new, journal (call_all ms S) = new ++ journal S ∧
         state_sim S (undo_all new (call_all ms S)) ∧
         trie (call_all ms S) = trie S ∧ config (call_all ms S) = config S.
Proof.
  revert S. induction ms as [|m ms IH]; intros S.
  - exists []. simpl. repeat split; try done. apply state_sim_refl.
  - simpl. destruct (call_undo m S) as (es & Hj & Hsup & Hsim & Ht & Hc).
    destruct (IH (call m S).2) as (new & Hj' & Hsim' & Ht' & Hc').
    exists (new ++ es). unfold call_all in *. simpl.
    rewrite Hj', Hj, Ht', Hc', app_assoc. split; [done|]. split; [|done].
    rewrite undo_all_app. eapply state_sim_trans; [exact Hsim|].
    by apply undo_all_sim.
Qed.

Lemma get_nonce_view S a :
  observe (get_nonce a) S =
    match view S a with inl e => inl e | inr x => inr (nonce x) end.
Proof.
  unfold observe, get_nonce, bind, ret.
  rewrite get_and_cache_account_eq. by destruct (view S a).
Qed.

Lemma get_storage_data_view S a k :
  observe (get_storage_data a k) S =
    match view S a with inl e => inl e | inr x => inr (storage_view x k) end.
Proof.
  unfold observe, get_storage_data. unfold bind at 1.
  rewrite get_and_cache_account_eq.
  destruct (view S a) as [e|x]; [done|]. unfold storage_view.
  unfold Account_get_storage_data.
  by destruct (dict_get (storage_cache x) k); unfold bind, update_account, modify, ret.
Qed.

Lemma touched_of_view S a :
  touched_of S a = match view S a with inl _ => false | inr x => touched x end.
Proof.
  unfold touched_of, view. destruct (dict_get (cache S) a) as [x|]; [done|].
  destruct (load S a) as [e|x] eqn:Hl; [done|].
  by apply load_untouched in Hl as [-> _].
Qed.

Lemma acct_sim_storage_view x y k :
  acct_sim x y → storage_view x k = storage_view y k.
Proof.
  intros (_ & _ & _ & _ & Hst & _ & _ & _ & Hsc). specialize (Hsc k).
  unfold storage_view. destruct (dict_get (storage_cache x) k) as [v|].
  - by rewrite Hsc.
  - destruct Hsc as [->| ->]; [by rewrite Hst|done].
Qed.

(* related states answer the same to the getters *)
Lemma state_sim_observe S T :
  state_sim S T →
  (∀ a t, balance_of T a t = balance_of S a t) ∧
  (∀ a, observe (get_nonce a) T = observe (get_nonce a) S) ∧
  (∀ a k, observe (get_storage_data a k) T = observe (get_storage_data a k) S) ∧
  (∀ a, touched_of T a = touched_of S a).
Proof.
  intros Hsim.
  assert (Hv : ∀ a, view_sim (view S a) (view T a))
    by (intros; by apply state_sim_view).
  repeat split.
  - intros a t. rewrite !balance_of_view. specialize (Hv a).
    destruct (view S a), (view T a); simpl in Hv; try done; [congruence|].
    destruct Hv as (_ & -> & _). done.
  - intros a. rewrite !get_nonce_view. specialize (Hv a).
    destruct (view S a), (view T a); simpl in Hv; try done; [congruence|].
    destruct Hv as (-> & _). done.
  - intros a k. rewrite !get_storage_data_view. specialize (Hv a).
    destruct (view S a), (view T a); simpl in Hv; try done; [congruence|].
    by rewrite (acct_sim_storage_view _ _ k Hv).
  - intros a. rewrite !touched_of_view. specialize (Hv a).
    destruct (view S a), (view T a); simpl in Hv; try done.
    by destruct Hv as (_ & _ & _ & _ & _ & -> & _).
Qed.

(* touching an account object changes nothing the getters return *)
Lemma touch_observe U y t0 j :
  dict_get (cache U) THREE = Some y →
  let S' := with_cache (dict_set (cache U) THREE (setattr (A_touched true) y))
              (with_journal j U) in
  (∀ a t, balance_of S' a t = balance_of U a t) ∧
  (∀ a, observe (get_nonce a) S' = observe (get_nonce a) U) ∧
  (∀ a k, observe (get_storage_data a k) S' = observe (get_storage_data a k) U) ∧
  (∀ a, a ≠ THREE → touched_of S' a = touched_of U a) ∧
  touched_of S' THREE = true ∧
  delta_token_balance THREE t0 0 U =
    (inr tt, with_cache (dict_set (cache U) THREE (setattr (A_touched true) y))
               (with_journal (USetattr THREE (A_touched (touched y)) :: journal U) U)).
Proof.
  intros Hy S'.
  assert (Hv : ∀ a, view S' a = if decide (THREE = a)
                                then inr (setattr (A_touched true) y) else view U a).
  { intros a. apply view_with_cache_set. }
  pose proof (view_cached _ _ _ Hy) as HvU.
  repeat split.
  - intros a t. rewrite !balance_of_view, Hv.
    destruct (decide (THREE = a)) as [<-|]; [|done]. by rewrite HvU.
  - intros a. rewrite !get_nonce_view, Hv.
    destruct (decide (THREE = a)) as [<-|]; [|done]. by rewrite HvU.
  - intros a k. rewrite !get_storage_data_view, Hv.
    destruct (decide (THREE = a)) as [<-|]; [|done]. by rewrite HvU.
  - intros a Hne. unfold touched_of, S'. simpl.
    by rewrite dict_get_set_ne.
  - unfold touched_of, S'. simpl. by rewrite dict_get_set_eq.
  - change (delta_token_balance THREE t0 0)
      with (call (Delta_token_balance THREE t0 0)).
    by rewrite (call_cached _ THREE y).
Qed.

(** C1, as the code has it. Take a snapshot of a state, call any of
    set_nonce, set_code, set_balances, set_token_balance,
    delta_token_balance, increment_nonce, set_storage_data, add_suicide,
    add_log, add_receipt and set_param any number of times without a
    commit, and revert to the snapshot: revert returns, and the trie
    root, every auxiliary variable, every token balance, nonce and
    storage slot of every account and the touched flag of every account
    other than THREE are as at the snapshot. The touched flag of THREE
    too, unless THREE is touched when revert is called and the block
    number of the snapshot is between 2675000 and 2675200: then the
    compatibility rule of revert leaves it set. *)
Theorem revert_restores (S : State) (ms : list mutator) :
  let snap := (trie S, length (journal S), aux S) in
  let SM := call_all ms S in
  let S' := (revert snap SM).2 in
  let fires := touched_of SM THREE && in_compat_window (block_number (aux S)) in
  snapshot S = (inr snap, S) ∧
  (revert snap SM).1 = inr tt ∧
  trie S' = trie S ∧ aux S' = aux S ∧
  (∀ a t, balance_of S' a t = balance_of S a t) ∧
  (∀ a, observe (get_nonce a) S' = observe (get_nonce a) S) ∧
  (∀ a k, observe (get_storage_data a k) S' = observe (get_storage_data a k) S) ∧
  (∀ a, a ≠ THREE → touched_of S' a = touched_of S a) ∧
  touched_of S' THREE = (if fires then true else touched_of S THREE) ∧
  (fires = false → journal S' = journal S).
Proof.
  intros snap SM S' fires.
  destruct (call_all_undo ms S) as (new & Hj & Hsim & Ht & Hc).
  fold SM in Hj, Hsim, Ht, Hc.
  set (U := with_aux (aux S) (with_journal (journal S) (undo_all new SM))).
  assert (HsimU : state_sim S U) by by apply state_sim_frame.
  destruct (state_sim_observe _ _ HsimU) as (Hbal & Hnonce & Hsto & Htou).
  assert (Hrev : revert snap SM =
            if fires then delta_token_balance THREE (default_chain_token (config SM)) 0 U
            else (inr tt, U)).
  { unfold snap. rewrite revert_eq. cbv zeta.
    rewrite bool_decide_eq_false_2 by (by rewrite Ht; intros []).
    by rewrite (replayed_app _ _ _ Hj). }
  split; [done|]. unfold S'. rewrite Hrev. clear Hrev S'.
  destruct fires eqn:Hfires.
  - assert (is_Some (dict_get (cache U) THREE)) as [y Hy].
    { simpl. apply undo_all_cached. unfold fires in Hfires.
      apply andb_true_iff in Hfires as [Htt _]. unfold touched_of in Htt.
      destruct (dict_get (cache SM) THREE); [by eexists|done]. }
    destruct (touch_observe U y (default_chain_token (config SM))
                (USetattr THREE (A_touched (touched y)) :: journal U) Hy)
      as (Hbal' & Hnonce' & Hsto' & Htou' & Hthree & ->).
    simpl snd. simpl fst. split; [done|]. split.
    { simpl. destruct (undo_all_fields new SM) as (-> & _). done. }
    split; [done|]. split; [intros; by rewrite Hbal'|].
    split; [intros; by rewrite Hnonce'|]. split; [intros; by rewrite Hsto'|].
    split; [intros; by rewrite Htou'|]. done.
  - simpl. split; [done|]. split.
    { destruct (undo_all_fields new SM) as (-> & _). done. }
    done.
Qed.

Lemma revert_restores_witness :
  balance_of
    (revert (trie funded_committed, length (journal funded_committed),
             aux funded_committed)
       (call_all [Delta_token_balance 1%N 0%N (-2); Set_storage_data 1%N 7 9;
                  Add_log (PyObj 1)] funded_committed)).2 1%N 0%N = inr 5.
Proof.
  destruct (revert_restores funded_committed
              [Delta_token_balance 1%N 0%N (-2); Set_storage_data 1%N 7 9;
               Add_log (PyObj 1)]) as (_ & _ & _ & _ & Hbal & _).
  rewrite Hbal. reflexivity.
Defined.

(** C1, as stated, fails: in a state with block number 2675100, a
    set_nonce on THREE after the snapshot leaves THREE touched after the
    revert, and it was not touched at the snapshot. *)
Lemma revert_leaves_three_touched :
  snapshot compat_state =
    (inr (trie compat_state, length (journal compat_state), aux compat_state),
     compat_state) ∧
  touched_of compat_state THREE = false ∧
  touched_of
    (revert (trie compat_state, length (journal compat_state), aux compat_state)
       (call_all [Set_nonce THREE 5] compat_state)).2 THREE = true.
Proof. split; [done|]. split; by vm_compute. Qed.

(** ** The snapshot codec *)

Lemma for_each_cons {A} (f : A → M unit) y ys S S1 :
  f y S = (inr tt, S1) → for_each (y :: ys) f S = for_each ys f S1.
Proof. intros Hy. simpl. by rewrite (bind_inr _ _ _ _ _ Hy). Qed.

Lemma load_record_object T a r :
  trie T !! a = Some r →
  TokenBalances_init (acc_token_balances r) = inr (decode_balances r) →
  load T a = inr (record_object r).
Proof.
  intros Ht Htb. unfold load, Account_init. rewrite Ht, Htb. done.
Qed.

(* to_dict builds the account object of every record of the trie *)
Lemma cache_all l T :
  NoDup l.*1 →
  (∀ ar, ar ∈ l →
     trie T !! ar.1 = Some ar.2 ∧
     TokenBalances_init (acc_token_balances ar.2) = inr (decode_balances ar.2)) →
  (∀ a, a ∈ l.*1 → dict_get (cache T) a = None) →
  for_each l.*1 (λ addr, get_and_cache_account addr >> ret tt) T =
    (inr tt, with_cache (cache T ++ map (λ ar, (ar.1, record_object ar.2)) l) T).
Proof.
  revert T. induction l as [|[a r] l IH]; intros T Hnd Hl Hc.
  - simpl. rewrite app_nil_r. by destruct T.
  - rewrite fmap_cons in Hnd, Hc |- *. cbn [fst] in *.
    apply NoDup_cons in Hnd as [Ha Hnd].
    destruct (Hl (a, r)) as [Htrie Htb]; [apply list_elem_of_here|].
    cbn [fst snd] in Htrie, Htb.
    pose proof (Hc a (list_elem_of_here _ _)) as Hca.
    erewrite for_each_cons; last first.
    { unfold bind, get_and_cache_account, ret.
      by rewrite Hca, (load_record_object _ _ _ Htrie Htb). }
    rewrite IH; [| done | |].
    + cbn [cache with_cache map fst snd].
      rewrite (dict_set_new _ _ _ Hca), <-app_assoc. done.
    + intros ar Har. apply Hl. by apply list_elem_of_further.
    + intros a' Ha'. cbn [cache with_cache]. rewrite dict_get_set_ne.
      * apply Hc. by apply list_elem_of_further.
      * intros ->. done.
Qed.

Lemma setattr_storage_cache_touched sc1 sc2 x :
  touched x = true →
  setattr (A_storage_cache sc2) (setattr (A_touched true) (setattr (A_storage_cache sc1) x)) =
  setattr (A_storage_cache sc2) x.
Proof. destruct x. simpl. by intros ->. Qed.

(* the loop of from_snapshot over the storage of an account *)
Lemma storage_loop a l T x :
  dict_get (cache T) a = Some x → storage_trie x = ∅ → touched x = true →
  NoDup l.*1 → (∀ k, k ∈ l.*1 → dict_get (storage_cache x) k = None) →
  ∃ j, for_each l (λ kv, set_storage_data a kv.1 kv.2) T =
         (inr tt, with_cache (dict_set (cache T) a
                                (setattr (A_storage_cache (storage_cache x ++ l)) x))
                    (with_journal j T)).
Proof.
  revert T x. induction l as [|[k v] l IH]; intros T x Hx Hst Htou Hnd Hk.
  - exists (journal T). cbn [for_each]. unfold ret. rewrite app_nil_r.
    replace (setattr (A_storage_cache (storage_cache x)) x) with x by by destruct x.
    rewrite (dict_set_get_id _ _ _ Hx). by destruct T.
  - rewrite fmap_cons in Hnd, Hk. cbn [fst] in *.
    apply NoDup_cons in Hnd as [Hkl Hnd].
    pose proof (Hk k (list_elem_of_here _ _)) as Hkx.
    assert (Hx1 : (effect a (Set_storage_data a k v) x).1 =
              setattr (A_touched true)
                (setattr (A_storage_cache (storage_cache x ++ [(k, v)])) x)).
    { cbn [effect]. unfold Account_get_storage_data. rewrite Hkx.
      unfold storage_trie_get. rewrite Hst, lookup_empty.
      simpl. by rewrite dict_set_set, (dict_set_new _ _ _ Hkx). }
    set (x1 := setattr (A_touched true)
                 (setattr (A_storage_cache (storage_cache x ++ [(k, v)])) x)) in *.
    set (T1 := with_cache (dict_set (cache T) a x1)
                 (with_journal ((effect a (Set_storage_data a k v) x).2 ++ journal T) T)).
    assert (Hcall : set_storage_data a k v T = (inr tt, T1)).
    { change (set_storage_data a k v) with (call (Set_storage_data a k v)).
      rewrite (call_cached _ a x) by done. by rewrite Hx1. }
    rewrite (for_each_cons (λ kv : Z * Z, set_storage_data a kv.1 kv.2)
               (k, v) l T T1 Hcall).
    destruct (IH T1 x1) as [j Hj]; [apply dict_get_set_eq|done|done|done| |].
    { intros k' Hk'. cbn [x1 storage_cache setattr].
      rewrite <-(dict_set_new _ _ _ Hkx), dict_get_set_ne.
      - apply Hk. by apply list_elem_of_further.
      - intros ->. done. }
    exists j. rewrite Hj. unfold T1. cbn [cache with_cache with_journal].
    rewrite dict_set_set.
    assert (setattr (A_storage_cache (storage_cache x1 ++ l)) x1 =
            setattr (A_storage_cache (storage_cache x ++ (k, v) :: l)) x) as ->.
    { unfold x1. cbn [storage_cache setattr]. rewrite <-app_assoc.
      destruct x. simpl in *. by subst. }
    done.
Qed.

Lemma call_fresh m a x T :
  target m = Some a → dict_get (cache T) a = None → load T a = inr x →
  call m T = (inr tt, with_cache (dict_set (cache T) a (effect a m x).1)
                        (with_journal ((effect a m x).2 ++ journal T) T)).
Proof.
  intros Ht Hc Hl. rewrite (call_target _ _ _ Ht). unfold view, cache_account.
  rewrite Hc, Hl. cbv zeta. cbn [cache with_cache]. by rewrite dict_set_set.
Qed.

Lemma dict_eqb_nil_l {K V} `{EqDecision K, EqDecision V} (d : dict K V) :
  dict_eqb [] d = true → d = [].
Proof.
  unfold dict_eqb. rewrite andb_true_iff, bool_decide_eq_true.
  intros [Hlen _]. by destruct d.
Qed.

(* the body of the loop of from_snapshot over "alloc", run on the dict of
   the account object of a record *)
Lemma from_alloc_item_spec a r T :
  trie T = ∅ → dict_get (cache T) a = None → full_shard_key (aux T) = 0 →
  ∃ j, from_alloc_item (a, Account_to_dict (record_object r)) T =
         (inr tt, with_cache (cache T ++ [(a, rebuilt_object r)]) (with_journal j T)).
Proof.
  intros Htrie Hc Hfsk.
  set (x0 := mkAccount (ACCOUNT_INITIAL_NONCE (config T)) (mkTokenBalances [] [x00])
               ∅ BLANK_HASH 0 [] ∅ false false false).
  assert (Hload : load T a = inr x0).
  { unfold load. by rewrite Htrie, lookup_empty, Hfsk. }
  set (bals := balances (decode_balances r)).
  set (m1 := Set_balances a bals).
  set (x1 := (effect a m1 x0).1).
  set (m2 := Set_code a (acc_code_hash r)).
  set (x2 := (effect a m2 x1).1).
  set (m3 := Set_nonce a (acc_nonce r)).
  set (x3 := (effect a m3 x2).1).
  assert (Hx3 : x3 = mkAccount (acc_nonce r) (mkTokenBalances bals [x00]) ∅
                       (acc_code_hash r) 0 [] ∅ true false false).
  { unfold x3, x2, x1, m1, m2, m3, x0. simpl.
    destruct (dict_eqb [] bals) eqn:Heq; [|done].
    apply dict_eqb_nil_l in Heq. by rewrite Heq. }
  pose proof (call_fresh m1 a x0 T eq_refl Hc Hload) as H1.
  set (T1 := with_cache (dict_set (cache T) a x1)
               (with_journal ((effect a m1 x0).2 ++ journal T) T)) in *.
  pose proof (call_cached T1 a x1 m2 eq_refl (dict_get_set_eq _ _ _)) as H2.
  set (T2 := with_cache (dict_set (cache T1) a x2)
               (with_journal ((effect a m2 x1).2 ++ journal T1) T1)) in *.
  pose proof (call_cached T2 a x2 m3 eq_refl (dict_get_set_eq _ _ _)) as H3.
  set (T3 := with_cache (dict_set (cache T2) a x3)
               (with_journal ((effect a m3 x2).2 ++ journal T2) T2)) in *.
  destruct (storage_loop a (map_to_list (acc_storage r)) T3 x3) as [j Hj].
  { apply dict_get_set_eq. }
  { by rewrite Hx3. }
  { by rewrite Hx3. }
  { apply NoDup_fst_map_to_list. }
  { intros k _. by rewrite Hx3. }
  exists j. unfold from_alloc_item, Account_to_dict, when.
  cbn [d_wei d_token_balances d_code d_nonce d_storage record_object
         token_balances nonce code_hash storage_cache storage_trie fold_left].
  unfold bind at 1, ret at 1.
  change (set_balances a (balances (decode_balances r))) with (call m1).
  change (set_code a (acc_code_hash r)) with (call m2).
  change (set_nonce a (acc_nonce r)) with (call m3).
  rewrite (bind_inr _ _ _ _ _ H1), (bind_inr _ _ _ _ _ H2), (bind_inr _ _ _ _ _ H3).
  fold x3. fold T3. rewrite Hj. unfold T3, T2, T1.
  cbn [cache with_cache with_journal].
  rewrite !dict_set_set, (dict_set_new _ _ _ Hc).
  rewrite Hx3. cbn [storage_cache setattr app]. done.
Qed.

(* the loop of from_snapshot over "alloc", run on what to_dict returns
   for a committed state *)
Lemma from_alloc_spec l T :
  NoDup l.*1 → trie T = ∅ → full_shard_key (aux T) = 0 →
  (∀ a, a ∈ l.*1 → dict_get (cache T) a = None) →
  ∃ j, for_each (map (λ ar, (ar.1, Account_to_dict (record_object ar.2))) l)
         from_alloc_item T =
       (inr tt, with_cache (cache T ++ map (λ ar, (ar.1, rebuilt_object ar.2)) l)
                  (with_journal j T)).
Proof.
  revert T. induction l as [|[a r] l IH]; intros T Hnd Htrie Hfsk Hc.
  - exists (journal T). cbn [map for_each]. unfold ret.
    rewrite app_nil_r. by destruct T.
  - rewrite fmap_cons in Hnd, Hc. cbn [fst] in *.
    apply NoDup_cons in Hnd as [Ha Hnd].
    pose proof (Hc a (list_elem_of_here _ _)) as Hca.
    destruct (from_alloc_item_spec a r T Htrie Hca Hfsk) as [j1 H1].
    cbn [map fst snd]. rewrite (for_each_cons _ _ _ _ _ H1).
    destruct (IH (with_cache (cache T ++ [(a, rebuilt_object r)]) (with_journal j1 T)))
      as [j Hj]; [done|done|done| |].
    { intros a' Ha'. cbn [cache with_cache].
      rewrite <-(dict_set_new _ _ _ Hca), dict_get_set_ne.
      - apply Hc. by apply list_elem_of_further.
      - intros ->. done. }
    exists j. rewrite Hj. cbn [cache with_cache with_journal].
    by rewrite <-app_assoc.
Qed.

Lemma TokenBalances_init_enum data tb :
  TokenBalances_init data = inr tb → enum tb = [x00].
Proof.
  unfold TokenBalances_init. case_bool_decide; [|by intros [= <-]].
  destruct (decide (take 1 data = [x00])) as [He|?].
  - destruct (Rlp.decode_pairs _); [done|]. by intros [= <-].
  - by destruct (decide (take 1 data = [x01])).
Qed.

Lemma dict_get_map_to_list `{Countable K} {V} (m : gmap K V) k :
  dict_get (map_to_list m) k = m !! k.
Proof.
  destruct (m !! k) as [v|] eqn:Hm.
  - apply dict_elem_get; [apply NoDup_fst_map_to_list|].
    by apply elem_of_map_to_list.
  - destruct (dict_get (map_to_list m) k) as [v|] eqn:Hg; [|done].
    apply dict_get_Some_elem, elem_of_map_to_list in Hg. congruence.
Qed.

(* the loop of Account.commit over a storage cache without zero values *)
Lemma fold_storage_lookup (l : dict Z Z) (m : gmap Z Z) k :
  NoDup l.*1 → (∀ kv, kv ∈ l → kv.2 ≠ 0) →
  fold_left (λ t kv, if bool_decide (kv.2 ≠ 0) then <[kv.1 := kv.2]> t
                     else delete kv.1 t) l m !! k =
    match dict_get l k with Some v => Some v | None => m !! k end.
Proof.
  revert m. induction l as [|[k0 v0] l IH]; intros m Hnd Hnz; [done|].
  rewrite fmap_cons in Hnd. apply NoDup_cons in Hnd as [Hk0 Hnd].
  cbn [fold_left fst snd dict_get].
  rewrite bool_decide_eq_true_2 by (apply (Hnz (k0, v0)), list_elem_of_here).
  rewrite IH; [|done|intros kv Hkv; apply Hnz; by apply list_elem_of_further].
  destruct (decide (k = k0)) as [->|Hne].
  - replace (dict_get l k0) with (@None Z) by (symmetry; by apply dict_get_None).
    by rewrite lookup_insert_eq.
  - by rewrite lookup_insert_ne.
Qed.

Lemma Account_commit_rebuilt r :
  (∀ k v, acc_storage r !! k = Some v → v ≠ 0) →
  storage (Account_commit (rebuilt_object r)) = acc_storage r.
Proof.
  intros Hnz. apply map_eq. intros k. cbn.
  rewrite fold_storage_lookup.
  - rewrite dict_get_map_to_list, lookup_empty. by destruct (acc_storage r !! k).
  - apply NoDup_fst_map_to_list.
  - intros [k' v'] Hin. apply elem_of_map_to_list in Hin. by eapply Hnz.
Qed.

Lemma commit_loop_total ae ks S :
  NoDup ks →
  (∀ k, k ∈ ks → ∃ x tb, dict_get (cache S) k = Some x ∧
                         serialize (token_balances x) = inr tb) →
  ∃ S', for_each ks (commit_item ae) S = (inr tt, S').
Proof.
  revert S. induction ks as [|k ks IH]; intros S Hnd Hks.
  - by eexists.
  - apply NoDup_cons in Hnd as [Hk Hnd].
    destruct (Hks k) as (x & tb & Hx & Hser); [apply list_elem_of_here|].
    destruct (commit_item_of ae k x S) as [r S1] eqn:Hitem.
    assert (r = inr tt) as ->.
    { unfold commit_item_of in Hitem.
      change (token_balances (Account_commit x)) with (token_balances x) in Hitem.
      rewrite Hser in Hitem.
      destruct (touched x || deleted x); [|by simplify_eq].
      destruct (_ || ae); by simplify_eq. }
    destruct (commit_item_of_spec _ _ _ _ _ _ Hitem) as (_ & _ & Hother & _).
    destruct (IH S1 Hnd) as [S' HS'].
    { intros k' Hk'. destruct (Hother k') as [_ ->]; [by intros ->|].
      apply Hks. by apply list_elem_of_further. }
    exists S'. erewrite for_each_cons; [done|].
    by rewrite (commit_item_cached _ _ _ x).
Qed.

Lemma fold_dict_set_new {K V} `{EqDecision K} (l u : dict K V) :
  NoDup l.*1 → (∀ k, k ∈ l.*1 → dict_get u k = None) →
  fold_left (λ u kv, dict_set u kv.1 kv.2) l u = u ++ l.
Proof.
  revert u. induction l as [|[k v] l IH]; intros u Hnd Hk.
  - by rewrite app_nil_r.
  - rewrite fmap_cons in Hnd, Hk. cbn [fst] in *.
    apply NoDup_cons in Hnd as [Hkl Hnd]. cbn [fold_left fst snd].
    pose proof (Hk k (list_elem_of_here _ _)) as Hku.
    rewrite IH; [|done|].
    + by rewrite (dict_set_new _ _ _ Hku), <-app_assoc.
    + intros k' Hk'. rewrite dict_get_set_ne.
      * apply Hk. by apply list_elem_of_further.
      * intros ->. done.
Qed.

Lemma dict_to_prev_header_to_dict h :
  dict_to_prev_header (prev_header_to_dict h) = h.
Proof. by destruct h. Qed.

Lemma canonical_spec env bn r :
  canonical env bn r = true →
  acc_full_shard_key r = 0 ∧
  TokenBalances_init (acc_token_balances r) = inr (decode_balances r) ∧
  serialize (decode_balances r) = inr (acc_token_balances r) ∧
  (SPURIOUS_DRAGON_FORK_BLKNUM env ≤ bn → is_blank (rebuilt_object r) = false) ∧
  (∀ k v, acc_storage r !! k = Some v → v ≠ 0).
Proof.
  unfold canonical. rewrite !andb_true_iff, bool_decide_eq_true.
  intros [[Hfsk Htb] Hsto].
  assert (Hdec : ∀ tb, TokenBalances_init (acc_token_balances r) = inr tb →
                       decode_balances r = tb).
  { intros tb Hinit. unfold decode_balances. by rewrite Hinit. }
  destruct (TokenBalances_init (acc_token_balances r)) as [e|tb]; [done|].
  rewrite (Hdec tb eq_refl).
  apply andb_true_iff in Htb as [Hser Hblank].
  apply bool_decide_eq_true in Hser.
  repeat split; try done.
  - intros Hfork. apply orb_true_iff in Hblank as [Hlt|Hnb].
    + apply bool_decide_eq_true in Hlt. lia.
    + apply negb_true_iff in Hnb. unfold is_blank, rebuilt_object.
      cbn [nonce token_balances code_hash]. rewrite (Hdec tb eq_refl).
      exact Hnb.
  - intros k v Hkv. rewrite forallb_forall in Hsto.
    apply (bool_decide_eq_true (v ≠ 0)).
    apply (Hsto (k, v)), list_elem_of_In. by apply elem_of_map_to_list.
Qed.

Lemma commit_of_loop ae S S1 :
  for_each (dict_keys (cache S)) (commit_item ae) S = (inr tt, S1) →
  commit ae S = (inr tt, with_journal [] (with_cache [] S1)).
Proof.
  intros Hloop. unfold commit. unfold bind at 1, gets at 1.
  by rewrite (bind_inr _ _ _ _ _ Hloop).
Qed.

Lemma to_dict_committed S :
  cache S = [] →
  (∀ ar, ar ∈ map_to_list (trie S) →
     TokenBalances_init (acc_token_balances ar.2) = inr (decode_balances ar.2)) →
  to_dict S =
    (inr (map (λ ar, (ar.1, Account_to_dict (record_object ar.2))) (map_to_list (trie S))),
     with_cache (map (λ ar, (ar.1, record_object ar.2)) (map_to_list (trie S))) S).
Proof.
  intros Hc Htb. unfold to_dict. unfold bind at 1, gets at 1.
  assert (Hall : for_each (map_to_list (trie S)).*1
                   (λ addr, get_and_cache_account addr >> ret tt) S =
                 (inr tt, with_cache (cache S ++ map (λ ar, (ar.1, record_object ar.2))
                                                  (map_to_list (trie S))) S)).
  { apply cache_all.
    - apply NoDup_fst_map_to_list.
    - intros [a r] Har. split; [by apply elem_of_map_to_list|by apply Htb].
    - intros a _. by rewrite Hc. }
  rewrite (bind_inr _ _ _ _ _ Hall).
  unfold gets. rewrite Hc. cbn [cache with_cache app]. by rewrite map_map.
Qed.

Lemma restore_vars_carried np depth x y :
  dict_wf (recent_uncles x) →
  restore_vars
    (mkSnapshotData y None
       (Some (txindex x)) (Some (gas_used x)) (Some (xshard_receive_gas_used x))
       (Some (gas_limit x)) (Some (block_number x)) (Some (block_coinbase x))
       (Some (block_difficulty x)) (Some (block_fee x)) (Some (timestamp x))
       (Some (bloom x))
       (if np : bool then None else Some (recent_uncles x))
       (if np then None
        else Some (map prev_header_to_dict (take depth (prev_headers x))))
       (Some (refunds x)) (Some (full_shard_key x)))
    STATE_DEFAULTS = carried_vars np depth x.
Proof.
  intros Hwf. unfold restore_vars, carried_vars. destruct np; [done|].
  cbn [s_recent_uncles s_prev_headers default s_txindex s_gas_used
         s_xshard_receive_gas_used s_gas_limit s_block_number s_block_coinbase
         s_block_difficulty s_block_fee s_timestamp s_bloom s_refunds
         s_full_shard_key].
  rewrite (fold_dict_set_new _ []) by done.
  rewrite map_map, (map_ext _ id), map_id; [done|].
  intros h. apply dict_to_prev_header_to_dict.
Qed.

Lemma dict_get_fmap_snd {K V W} `{EqDecision K} (f : K * V → W) (l : dict K V) k :
  dict_get (map (λ kv, (kv.1, f kv)) l) k = (λ v, f (k, v)) <$> dict_get l k.
Proof.
  induction l as [|[k0 v0] l IH]; [done|]. cbn [map dict_get fst snd].
  destruct (decide (k = k0)) as [->|]; [done|apply IH].
Qed.

Lemma dict_keys_map_snd {K V W} (f : K * V → W) (l : dict K V) :
  dict_keys (map (λ kv, (kv.1, f kv)) l) = dict_keys l.
Proof.
  unfold dict_keys. induction l as [|[k v] l IH]; [done|].
  cbn [map]. rewrite !fmap_cons. by rewrite IH.
Qed.

(** C2, as the code has it. For a state with nothing uncommitted (an
    empty account cache) whose trie holds every account in the form
    that from_snapshot and commit write (default shard key, token
    balances as serialize encodes them, no zero storage slot, and, from
    the Spurious Dragon fork of [env] on, not blank) and whose uncles
    dict is a dict: to_snapshot(root_only=False) returns, from_snapshot
    of its result returns a state with the same trie root, the same
    numeric and byte-string auxiliary variables, the same uncles and the
    first PREV_HEADER_DEPTH previous headers (the defaults for both when
    suppressed), and logs, receipts, suicides, xshard_list and
    xshard_tx_cursor_info as in State(). *)
Theorem snapshot_round_trip (S : State) (env : Config) (no_prevblocks : bool)
    (Hcommitted : cache S = [])
    (Hcanon : forallb (λ ar, canonical env (block_number (aux S)) ar.2)
                (map_to_list (trie S)) = true)
    (Huncles : dict_wf (recent_uncles (aux S))) :
  ∃ d S1 S', to_snapshot false no_prevblocks S = (inr d, S1) ∧
             from_snapshot d env false = inr S' ∧
             trie S' = trie S ∧
             aux S' = carried_vars no_prevblocks (PREV_HEADER_DEPTH (config S)) (aux S).
Proof.
  set (l := map_to_list (trie S)).
  assert (Hl : ∀ a r, (a, r) ∈ l → canonical env (block_number (aux S)) r = true).
  { intros a r Har. rewrite forallb_forall in Hcanon.
    by apply (Hcanon (a, r)), list_elem_of_In. }
  assert (Hcan : ∀ a r, (a, r) ∈ l →
            acc_full_shard_key r = 0 ∧
            TokenBalances_init (acc_token_balances r) = inr (decode_balances r) ∧
            serialize (decode_balances r) = inr (acc_token_balances r) ∧
            (SPURIOUS_DRAGON_FORK_BLKNUM env ≤ block_number (aux S) →
             is_blank (rebuilt_object r) = false) ∧
            (∀ k v, acc_storage r !! k = Some v → v ≠ 0)).
  { intros a r Har. by apply canonical_spec, (Hl a). }
  set (alloc := map (λ ar, (ar.1, Account_to_dict (record_object ar.2))) l).
  set (S1 := with_cache (map (λ ar, (ar.1, record_object ar.2)) l) S).
  assert (Hdict : to_dict S = (inr alloc, S1)).
  { apply to_dict_committed; [done|]. intros [a r] Har. by apply (Hcan a r). }
  set (x := aux S).
  set (d := mkSnapshotData (Some alloc) None
       (Some (txindex x)) (Some (gas_used x)) (Some (xshard_receive_gas_used x))
       (Some (gas_limit x)) (Some (block_number x)) (Some (block_coinbase x))
       (Some (block_difficulty x)) (Some (block_fee x)) (Some (timestamp x))
       (Some (bloom x))
       (if no_prevblocks then None else Some (recent_uncles x))
       (if no_prevblocks then None
        else Some (map prev_header_to_dict
                     (take (PREV_HEADER_DEPTH (config S)) (prev_headers x))))
       (Some (refunds x)) (Some (full_shard_key x))).
  assert (Hsnap : to_snapshot false no_prevblocks S = (inr d, S1)).
  { unfold to_snapshot. unfold bind at 1. unfold bind at 1. by rewrite Hdict. }
  set (T0 := State_init ∅ env).
  destruct (from_alloc_spec l T0) as [j Halloc];
    [apply NoDup_fst_map_to_list|done|done|done|].
  fold alloc in Halloc. cbn [cache T0 State_init app] in Halloc.
  set (built := map (λ ar, (ar.1, rebuilt_object ar.2)) l) in *.
  set (T1 := with_cache built (with_journal j T0)) in *.
  set (T2 := with_aux (restore_vars d (aux T1)) T1).
  assert (Hbuilt : ∀ a, dict_get built a = rebuilt_object <$> trie S !! a).
  { intros a. unfold built.
    rewrite (dict_get_fmap_snd (λ ar, rebuilt_object ar.2)).
    unfold l. by rewrite dict_get_map_to_list. }
  assert (Hwf : dict_wf (cache T2)).
  { change (NoDup (dict_keys (map (λ ar : address * _Account,
                                      (ar.1, rebuilt_object ar.2)) l))).
    rewrite (dict_keys_map_snd (λ ar, rebuilt_object ar.2)).
    apply NoDup_fst_map_to_list. }
  assert (Htb : ∀ r, (∃ a, (a, r) ∈ l) →
            token_balances (rebuilt_object r) = decode_balances r).
  { intros r [a Har]. destruct (Hcan a r Har) as (_ & Hinit & _).
    apply TokenBalances_init_enum in Hinit. cbn.
    destruct (decode_balances r). simpl in *. by subst. }
  destruct (commit_loop_total false (dict_keys (cache T2)) T2 Hwf) as [T3 Hloop].
  { intros a Ha. apply dict_keys_cached in Ha as [y Hy].
    cbn [cache T2 T1 with_aux with_cache] in Hy. rewrite Hbuilt in Hy.
    destruct (trie S !! a) as [r|] eqn:Hr; [|done]. clear Hy.
    assert ((a, r) ∈ l) as Har by by apply elem_of_map_to_list.
    exists (rebuilt_object r), (acc_token_balances r).
    split; [by rewrite Hbuilt, Hr|].
    rewrite Htb by eauto. by apply (Hcan a r). }
  pose proof (commit_of_loop _ _ _ Hloop) as Hcommit.
  exists d, S1, (with_changed [] (with_journal [] (with_cache [] T3))).
  split; [exact Hsnap|]. split.
  { unfold from_snapshot, from_snapshot_body. cbn [s_alloc d]. fold T0.
    rewrite (bind_inr _ _ _ _ _ Halloc).
    unfold bind at 1, modify_aux at 1, modify at 1. fold T2.
    unfold bind at 1, ret at 1.
    by rewrite (bind_inr _ _ _ _ _ Hcommit). }
  destruct (commit_spec false T2 _ Hwf Hcommit) as (_ & _ & Haux & Hcfg & Hout & Hin).
  split.
  - apply map_eq. intros a. cbn [trie with_changed with_journal with_cache] in *.
    specialize (Hout a). specialize (Hin a).
    cbn [cache T2 T1 with_aux with_cache] in Hout, Hin. rewrite Hbuilt in Hout, Hin.
    destruct (trie S !! a) as [r|] eqn:Hr.
    + assert ((a, r) ∈ l) as Har by by apply elem_of_map_to_list.
      destruct (Hcan a r Har) as (Hfsk & _ & Hser & Hblank & Hnz).
      specialize (Hin _ eq_refl). unfold entry_after in Hin.
      cbn [touched rebuilt_object orb] in Hin.
      assert (Hex : account_exists_of T2 (Account_commit (rebuilt_object r)) = true).
      { unfold account_exists_of. rewrite is_blank_Account_commit.
        case_bool_decide as Hf; [|done].
        rewrite Hblank; [done|]. revert Hf. unfold T2, T1, T0, d. cbn.
        by destruct no_prevblocks. }
      fold (rebuilt_object r) in Hin. rewrite Hex in Hin.
      destruct Hin as (tb & Htb' & ->). f_equal.
      change (token_balances (Account_commit (rebuilt_object r)))
        with (token_balances (rebuilt_object r)) in Htb'.
      rewrite Htb in Htb' by eauto. rewrite Hser in Htb'. simplify_eq.
      unfold account_record. rewrite Account_commit_rebuilt by done.
      cbn. rewrite <-Hfsk. by destruct r.
    + rewrite (Hout eq_refl). apply lookup_empty.
  - cbn [aux with_changed with_journal with_cache] in Haux |- *. rewrite Haux.
    unfold T2, T1, T0. cbn [aux with_aux with_cache with_journal State_init].
    by apply restore_vars_carried.
Qed.

Lemma snapshot_round_trip_witness :
  ∃ d S1 S', to_snapshot false false rich_committed = (inr d, S1) ∧
             from_snapshot d example_config false = inr S' ∧
             trie S' = trie rich_committed ∧
             aux S' = carried_vars false (PREV_HEADER_DEPTH (config rich_committed))
                        (aux rich_committed).
Proof.
  apply (snapshot_round_trip rich_committed example_config false).
  - vm_compute. reflexivity.
  - vm_compute. reflexivity.
  - apply (bool_decide_unpack _). vm_compute. exact I.
Defined.

(** C2, as stated, fails: a state with a log and an uncommitted
    set_nonce has the blank root and one log; the state rebuilt from its
    snapshot has the account in its trie and no log. *)
Lemma round_trip_loses_state :
  ∃ S', round_trip uncommitted_state example_config = inr S' ∧
        trie uncommitted_state = ∅ ∧ trie S' ≠ ∅ ∧
        logs (aux uncommitted_state) = [PyObj 1] ∧ logs (aux S') = [].
Proof.
  eexists. split; [vm_compute; reflexivity|].
  split; [by vm_compute|]. split; [|by vm_compute].
  intros H. apply (f_equal (λ m, m !! 1%N)) in H. vm_compute in H. discriminate.
Qed.

(* a committed state, too: the dict of an account has no shard key, and
   from_snapshot builds every account under the default one *)
Lemma round_trip_drops_shard_key :
  ∃ S', round_trip keyed_committed example_config = inr S' ∧
        cache keyed_committed = [] ∧
        acc_full_shard_key <$> trie keyed_committed !! 1%N = Some 7 ∧
        acc_full_shard_key <$> trie S' !! 1%N = Some 0.
Proof.
  eexists. split; [vm_compute; reflexivity|]. by vm_compute.
Qed.

(** ** The RLP codec of the token balances *)

Section rlp_facts.
Local Open Scope N_scope.

Lemma to_N_byte_of_N n : Byte.to_N (byte_of_N n) = n mod 256.
Proof.
  unfold byte_of_N. pose proof (Byte.to_of_N_option_map (n mod 256)) as H.
  assert (n mod 256 < 256) as Hlt by (apply N.mod_lt; lia).
  destruct (N.leb_spec (n mod 256) 255) as [_|?]; [|lia].
  destruct (Byte.of_N (n mod 256)) as [b|]; simpl in *; congruence.
Qed.

Lemma size_nat_gt n : n < 2 ^ N.of_nat (N.size_nat n).
Proof.
  destruct n as [|p]; [done|]. simpl.
  induction p as [p IH|p IH|]; simpl Pos.size_nat.
  - rewrite Nat2N.inj_succ, N.pow_succ_r'. lia.
  - rewrite Nat2N.inj_succ, N.pow_succ_r'. lia.
  - done.
Qed.

Lemma big_endian_fold acc b :
  fold_left (λ acc x, acc * 256 + Byte.to_N x) b acc =
    acc * 256 ^ N.of_nat (length b) + Rlp.big_endian_to_int b.
Proof.
  unfold Rlp.big_endian_to_int. revert acc.
  induction b as [|x b IH]; intros acc.
  - simpl. lia.
  - cbn [fold_left length]. rewrite IH, (IH (0 * 256 + _)).
    rewrite Nat2N.inj_succ, N.pow_succ_r'. lia.
Qed.

Lemma big_endian_to_int_cons x b :
  Rlp.big_endian_to_int (x :: b) =
    Byte.to_N x * 256 ^ N.of_nat (length b) + Rlp.big_endian_to_int b.
Proof.
  unfold Rlp.big_endian_to_int at 1. cbn [fold_left].
  rewrite big_endian_fold. lia.
Qed.

Lemma int_to_big_endian_aux_value fuel n acc :
  n < 2 ^ N.of_nat fuel →
  Rlp.big_endian_to_int (Rlp.int_to_big_endian_aux fuel n acc) =
    n * 256 ^ N.of_nat (length acc) + Rlp.big_endian_to_int acc.
Proof.
  revert n acc. induction fuel as [|fuel IH]; intros n acc Hn.
  - simpl in *. assert (n = 0) as -> by lia. lia.
  - cbn [Rlp.int_to_big_endian_aux]. destruct (N.eqb_spec n 0) as [->|Hn0]; [lia|].
    rewrite IH.
    + rewrite big_endian_to_int_cons, to_N_byte_of_N.
      cbn [length]. rewrite Nat2N.inj_succ, N.pow_succ_r'.
      pose proof (N.div_mod n 256). nia.
    + rewrite Nat2N.inj_succ, N.pow_succ_r' in Hn.
      apply N.Div0.div_lt_upper_bound. nia.
Qed.

(* big_endian_to_int inverts int_to_big_endian *)
Lemma big_endian_to_int_of_int n :
  Rlp.big_endian_to_int (Rlp.int_to_big_endian n) = n.
Proof.
  unfold Rlp.int_to_big_endian.
  rewrite int_to_big_endian_aux_value by apply size_nat_gt.
  cbn [length N.of_nat]. rewrite N.pow_0_r.
  change (Rlp.big_endian_to_int []) with 0. lia.
Qed.

Lemma int_to_big_endian_aux_head fuel n acc :
  n ≠ 0 → n < 2 ^ N.of_nat fuel →
  ∃ x rest, Rlp.int_to_big_endian_aux fuel n acc = x :: rest ∧ Byte.to_N x ≠ 0.
Proof.
  revert n acc. induction fuel as [|fuel IH]; intros n acc Hn0 Hn.
  - simpl in Hn. lia.
  - cbn [Rlp.int_to_big_endian_aux]. destruct (N.eqb_spec n 0) as [|_]; [done|].
    destruct (N.eq_dec (n / 256) 0) as [Hq|Hq].
    + rewrite Hq. destruct fuel; simpl.
      * eexists _, _. split; [done|]. rewrite to_N_byte_of_N.
        apply N.div_small_iff in Hq; [|lia]. rewrite N.mod_small; lia.
      * eexists _, _. split; [done|]. rewrite to_N_byte_of_N.
        apply N.div_small_iff in Hq; [|lia]. rewrite N.mod_small; lia.
    + apply IH; [done|].
      rewrite Nat2N.inj_succ, N.pow_succ_r' in Hn.
      apply N.Div0.div_lt_upper_bound. nia.
Qed.

(* the big-endian form has no leading zero *)
Lemma int_to_big_endian_head n :
  match Rlp.int_to_big_endian n with
  | [] => n = 0
  | x :: _ => Byte.to_N x ≠ 0
  end.
Proof.
  destruct (N.eq_dec n 0) as [->|Hn0]; [done|].
  destruct (int_to_big_endian_aux_head (N.size_nat n) n [] Hn0 (size_nat_gt n))
    as (x & rest & Heq & Hx).
  unfold Rlp.int_to_big_endian. by rewrite Heq.
Qed.

Lemma int_to_big_endian_aux_length fuel n acc k :
  n < 256 ^ N.of_nat k →
  (length (Rlp.int_to_big_endian_aux fuel n acc) ≤ k + length acc)%nat.
Proof.
  revert n acc k. induction fuel as [|fuel IH]; intros n acc k Hn.
  - simpl. lia.
  - cbn [Rlp.int_to_big_endian_aux]. destruct (N.eqb_spec n 0) as [|Hn0]; [lia|].
    destruct k as [|k]; [simpl in Hn; lia|].
    etrans; [apply (IH _ _ k)|simpl; lia].
    rewrite Nat2N.inj_succ, N.pow_succ_r' in Hn.
    apply N.Div0.div_lt_upper_bound. nia.
Qed.

Lemma int_to_big_endian_length n k :
  n < 256 ^ N.of_nat k → (length (Rlp.int_to_big_endian n) ≤ k)%nat.
Proof.
  intros Hn. unfold Rlp.int_to_big_endian.
  pose proof (int_to_big_endian_aux_length (N.size_nat n) n [] k Hn). simpl in *. lia.
Qed.

End rlp_facts.

Section rlp_items.
Local Open Scope N_scope.

Lemma split_at_app (s rest : bytes) :
  Rlp.split_at (N.of_nat (length s)) (s ++ rest) = Some (s, rest).
Proof.
  unfold Rlp.split_at. rewrite Nat2N.id.
  rewrite bool_decide_eq_true_2 by (rewrite length_app; lia).
  by rewrite take_app_length, drop_app_length.
Qed.

Lemma long_length_spec L (rest : bytes) :
  56 ≤ L → L < 2 ^ 64 →
  let bl := Rlp.int_to_big_endian L in
  Rlp.long_length (N.of_nat (length bl)) (bl ++ rest) = Some (L, rest) ∧
  (1 ≤ length bl ≤ 8)%nat.
Proof.
  intros HL56 HL64. cbv zeta.
  pose proof (int_to_big_endian_head L) as Hhead.
  pose proof (int_to_big_endian_length L 8 HL64) as Hlen.
  pose proof (big_endian_to_int_of_int L) as Hval.
  unfold Rlp.long_length. rewrite split_at_app. cbn [mbind option_bind].
  destruct (Rlp.int_to_big_endian L) as [|x bl']; [exfalso; lia|].
  destruct (N.eqb_spec (Byte.to_N x) 0) as [|_]; [done|].
  rewrite Hval. destruct (N.ltb_spec L 56) as [?|_]; [exfalso; lia|].
  split; [done|]. simpl in *. lia.
Qed.

(* the item read back off the front of the encoding of a byte string *)
Lemma consume_item_string (s rest : bytes) :
  N.of_nat (length s) < 2 ^ 64 →
  Rlp.consume_item (Rlp.encode_string s ++ rest) = Some (false, s, rest).
Proof.
  intros H64.
  assert (Hgen : (∀ x, s = [x] → 128 ≤ Byte.to_N x) →
            Rlp.consume_item
              (Rlp.length_prefix 128 (N.of_nat (length s)) ++ s ++ rest) =
            Some (false, s, rest)).
  { intros Hx. unfold Rlp.length_prefix.
    destruct (N.ltb_spec (N.of_nat (length s)) 56) as [Hlt|Hge].
    - cbn [app Rlp.consume_item]. rewrite to_N_byte_of_N.
      rewrite N.mod_small by lia.
      destruct (N.ltb_spec (128 + N.of_nat (length s)) 128) as [?|_]; [exfalso; lia|].
      destruct (N.ltb_spec (128 + N.of_nat (length s)) 184) as [_|?]; [|exfalso; lia].
      replace (128 + N.of_nat (length s) - 128) with (N.of_nat (length s)) by lia.
      rewrite split_at_app. cbn [mbind option_bind].
      destruct s as [|x [|y s']]; try done.
      specialize (Hx x eq_refl).
      by destruct (N.ltb_spec (Byte.to_N x) 128) as [?|_]; [exfalso; lia|].
    - destruct (long_length_spec (N.of_nat (length s)) (s ++ rest) Hge H64)
        as [Hll Hk].
      set (bl := Rlp.int_to_big_endian (N.of_nat (length s))) in *.
      cbn [app Rlp.consume_item]. rewrite to_N_byte_of_N.
      rewrite N.mod_small by lia.
      destruct (N.ltb_spec (128 + 55 + N.of_nat (length bl)) 128) as [?|_]; [exfalso; lia|].
      destruct (N.ltb_spec (128 + 55 + N.of_nat (length bl)) 184) as [?|_]; [exfalso; lia|].
      destruct (N.ltb_spec (128 + 55 + N.of_nat (length bl)) 192) as [_|?]; [|exfalso; lia].
      replace (128 + 55 + N.of_nat (length bl) - 183) with (N.of_nat (length bl)) by lia.
      rewrite Hll. cbn [mbind option_bind].
      by rewrite split_at_app. }
  unfold Rlp.encode_string. destruct s as [|x [|y s']].
  - rewrite <-app_assoc. by apply Hgen.
  - destruct (N.ltb_spec (Byte.to_N x) 128) as [Hlt|Hge].
    + cbn [app Rlp.consume_item].
      by destruct (N.ltb_spec (Byte.to_N x) 128) as [_|?]; [|exfalso; lia].
    + rewrite <-app_assoc. apply Hgen. by intros ? [= <-].
  - rewrite <-app_assoc. by apply Hgen.
Qed.

(* the item read back off the front of the encoding of a list *)
Lemma consume_item_list (items : list bytes) (rest : bytes) :
  N.of_nat (length (concat items)) < 2 ^ 64 →
  Rlp.consume_item (Rlp.encode_list items ++ rest) = Some (true, concat items, rest).
Proof.
  intros H64. unfold Rlp.encode_list. cbv zeta.
  set (s := concat items) in *. rewrite <-app_assoc. unfold Rlp.length_prefix.
  destruct (N.ltb_spec (N.of_nat (length s)) 56) as [Hlt|Hge].
  - cbn [app Rlp.consume_item]. rewrite to_N_byte_of_N.
    rewrite N.mod_small by lia.
    destruct (N.ltb_spec (192 + N.of_nat (length s)) 128) as [?|_]; [exfalso; lia|].
    destruct (N.ltb_spec (192 + N.of_nat (length s)) 184) as [?|_]; [exfalso; lia|].
    destruct (N.ltb_spec (192 + N.of_nat (length s)) 192) as [?|_]; [exfalso; lia|].
    destruct (N.ltb_spec (192 + N.of_nat (length s)) 248) as [_|?]; [|exfalso; lia].
    replace (192 + N.of_nat (length s) - 192) with (N.of_nat (length s)) by lia.
    by rewrite split_at_app.
  - destruct (long_length_spec (N.of_nat (length s)) (s ++ rest) Hge H64)
      as [Hll Hk].
    set (bl := Rlp.int_to_big_endian (N.of_nat (length s))) in *.
    cbn [app Rlp.consume_item]. rewrite to_N_byte_of_N.
    rewrite N.mod_small by lia.
    destruct (N.ltb_spec (192 + 55 + N.of_nat (length bl)) 128) as [?|_]; [exfalso; lia|].
    destruct (N.ltb_spec (192 + 55 + N.of_nat (length bl)) 184) as [?|_]; [exfalso; lia|].
    destruct (N.ltb_spec (192 + 55 + N.of_nat (length bl)) 192) as [?|_]; [exfalso; lia|].
    destruct (N.ltb_spec (192 + 55 + N.of_nat (length bl)) 248) as [?|_]; [exfalso; lia|].
    replace (192 + 55 + N.of_nat (length bl) - 247) with (N.of_nat (length bl)) by lia.
    rewrite Hll. cbn [mbind option_bind].
    by rewrite split_at_app.
Qed.

Lemma encode_string_length (s : bytes) :
  (length s ≤ length (Rlp.encode_string s))%nat ∧
  (1 ≤ length (Rlp.encode_string s))%nat.
Proof.
  unfold Rlp.encode_string, Rlp.length_prefix.
  destruct s as [|x [|y s']].
  - simpl. lia.
  - destruct (Byte.to_N x <? 128); simpl; lia.
  - destruct (_ <? 56); rewrite length_app; simpl; lia.
Qed.

Lemma encode_list_length (items : list bytes) :
  (length (concat items) < length (Rlp.encode_list items))%nat.
Proof.
  unfold Rlp.encode_list, Rlp.length_prefix. cbv zeta.
  destruct (_ <? 56); rewrite length_app; simpl; lia.
Qed.

(* an integer read back off the front of its encoding *)
Lemma consume_int_encode n (rest : bytes) :
  N.of_nat (length (Rlp.int_to_big_endian n)) < 2 ^ 64 →
  Rlp.consume_int (Rlp.encode_string (Rlp.int_to_big_endian n) ++ rest) =
    Some (n, rest).
Proof.
  intros H64. unfold Rlp.consume_int.
  rewrite consume_item_string by done. cbn [mbind option_bind].
  pose proof (int_to_big_endian_head n) as Hhead.
  pose proof (big_endian_to_int_of_int n) as Hval.
  destruct (Rlp.int_to_big_endian n) as [|x b]; [by subst|].
  destruct (N.eqb_spec (Byte.to_N x) 0) as [|_]; [done|]. by rewrite Hval.
Qed.

End rlp_items.

Section rlp_pairs.
Local Open Scope N_scope.

Lemma encode_pair_inr p b :
  encode_pair p = inr b →
  (0 ≤ balance p)%Z ∧
  b = Rlp.encode_list
        [Rlp.encode_string (Rlp.int_to_big_endian (token_id p));
         Rlp.encode_string (Rlp.int_to_big_endian (Z.to_N (balance p)))].
Proof.
  unfold encode_pair, Rlp.serialize_int.
  destruct (Z.ltb_spec (Z.of_N (token_id p)) 0) as [?|_]; [lia|].
  destruct (Z.ltb_spec (balance p) 0) as [?|?]; [done|].
  rewrite N2Z.id. by intros [= <-].
Qed.

Lemma consume_pair_encode p b (rest : bytes) :
  encode_pair p = inr b → N.of_nat (length b) < 2 ^ 64 →
  Rlp.consume_pair (b ++ rest) = Some (token_id p, Z.to_N (balance p), rest).
Proof.
  intros Henc H64. apply encode_pair_inr in Henc as [_ ->].
  set (ek := Rlp.encode_string (Rlp.int_to_big_endian (token_id p))) in *.
  set (ev := Rlp.encode_string (Rlp.int_to_big_endian (Z.to_N (balance p)))) in *.
  pose proof (encode_list_length [ek; ev]) as Hlen.
  pose proof (encode_string_length (Rlp.int_to_big_endian (token_id p))) as [Hk _].
  pose proof (encode_string_length (Rlp.int_to_big_endian (Z.to_N (balance p)))) as [Hv _].
  fold ek in Hk. fold ev in Hv.
  cbn [concat] in Hlen. rewrite !length_app in Hlen. cbn [length] in Hlen.
  unfold Rlp.consume_pair. rewrite consume_item_list; last first.
  { cbn [concat]. rewrite !length_app. cbn [length]. lia. }
  cbn [mbind option_bind concat]. unfold ek at 1.
  rewrite consume_int_encode by lia. cbn [mbind option_bind]. unfold ev.
  rewrite consume_int_encode by lia. done.
Qed.

Lemma encode_pairs_length l bs :
  encode_pairs l = inr bs → (length l ≤ length (concat bs))%nat.
Proof.
  revert bs. induction l as [|p l IH]; intros bs; simpl.
  - intros [= <-]. done.
  - destruct (encode_pair p) as [e|b] eqn:Hp; [done|].
    destruct (encode_pairs l) as [e|bs'] eqn:Hl; [done|].
    intros [= <-]. apply encode_pair_inr in Hp as [_ ->].
    specialize (IH _ eq_refl). cbn [concat]. rewrite length_app.
    pose proof (encode_list_length
      [Rlp.encode_string (Rlp.int_to_big_endian (token_id p));
       Rlp.encode_string (Rlp.int_to_big_endian (Z.to_N (balance p)))]). lia.
Qed.

Lemma consume_pairs_encode l bs fuel :
  encode_pairs l = inr bs → N.of_nat (length (concat bs)) < 2 ^ 64 →
  (length l ≤ fuel)%nat →
  Rlp.consume_pairs fuel (concat bs) =
    Some (map (λ p, (token_id p, Z.to_N (balance p))) l).
Proof.
  revert bs fuel. induction l as [|p l IH]; intros bs fuel; simpl.
  - intros [= <-] _ _. by destruct fuel.
  - destruct (encode_pair p) as [e|b] eqn:Hp; [done|].
    destruct (encode_pairs l) as [e|bs'] eqn:Hl; [done|].
    intros [= <-] H64 Hfuel. cbn [concat] in *. rewrite length_app in H64.
    destruct fuel as [|fuel]; [lia|].
    pose proof (consume_pair_encode p b (concat bs') Hp ltac:(lia)) as Hc.
    assert (b ≠ []) as Hb.
    { apply encode_pair_inr in Hp as [_ ->].
      pose proof (encode_list_length
        [Rlp.encode_string (Rlp.int_to_big_endian (token_id p));
         Rlp.encode_string (Rlp.int_to_big_endian (Z.to_N (balance p)))]).
      intros Heq. rewrite Heq in *. simpl in *. lia. }
    cbn [Rlp.consume_pairs].
    destruct (b ++ concat bs') as [|x data] eqn:Hdata.
    { by destruct b. }
    rewrite Hc. cbn [mbind option_bind].
    rewrite (IH bs' fuel eq_refl) by lia. done.
Qed.

(* rlp.decode inverts rlp.encode on lists of pairs *)
Lemma decode_pairs_encode l b :
  rlp_encode_pairs l = inr b → N.of_nat (length b) < 2 ^ 64 →
  Rlp.decode_pairs b = inr (map (λ p, (token_id p, Z.to_N (balance p))) l).
Proof.
  unfold rlp_encode_pairs. destruct (encode_pairs l) as [e|bs] eqn:Hl; [done|].
  intros [= <-] H64. pose proof (encode_list_length bs) as Hlen.
  unfold Rlp.decode_pairs.
  rewrite <-(app_nil_r (Rlp.encode_list bs)), consume_item_list by lia.
  rewrite (consume_pairs_encode l bs _ Hl); [done|lia|].
  by apply encode_pairs_length.
Qed.

End rlp_pairs.

(** ** Decoding a serialized TokenBalances *)

Lemma encode_pairs_nonneg l bs :
  encode_pairs l = inr bs → Forall (λ p, 0 ≤ balance p) l.
Proof.
  revert bs. induction l as [|p l IH]; intros bs; simpl; [by constructor|].
  destruct (encode_pair p) as [e|b] eqn:Hp; [done|].
  destruct (encode_pairs l) as [e|bs'] eqn:Hl; [done|].
  intros _. apply encode_pair_inr in Hp as [Hp _].
  constructor; [done|]. by eapply IH.
Qed.

Lemma fill_balances_encoded l u :
  NoDup (map token_id l) → Forall (λ p, 0 ≤ balance p) l →
  (∀ p, p ∈ l → dict_get u (token_id p) = None) →
  fold_left (λ d p, dict_set d p.1 (Z.of_N p.2))
    (map (λ p, (token_id p, Z.to_N (balance p))) l) u
  = u ++ map (λ p, (token_id p, balance p)) l.
Proof.
  revert u. induction l as [|p l IH]; intros u Hnd Hpos Hk; simpl.
  - by rewrite app_nil_r.
  - simpl in Hnd. apply NoDup_cons in Hnd as [Hp Hnd].
    apply Forall_cons_1 in Hpos as [Hp0 Hpos].
    rewrite Z2N.id by done.
    rewrite dict_set_new by (apply Hk, list_elem_of_here).
    rewrite IH; [by rewrite <-app_assoc|done|done|].
    intros q Hq. apply dict_get_None. unfold dict_keys.
    rewrite fmap_app. simpl. rewrite elem_of_app, list_elem_of_singleton.
    intros [Hin| Heq].
    + apply (dict_get_None u (token_id q)); [|done].
      apply Hk. by apply list_elem_of_further.
    + apply Hp. rewrite <-Heq. apply list_elem_of_In, in_map.
      by apply list_elem_of_In.
Qed.

Lemma dict_get_Permutation {K V} `{EqDecision K} (d1 d2 : dict K V) k :
  dict_wf d1 → d1 ≡ₚ d2 → dict_get d1 k = dict_get d2 k.
Proof.
  intros Hwf Hperm.
  assert (dict_wf d2) as Hwf2.
  { unfold dict_wf, dict_keys in *. by rewrite <-Hperm. }
  destruct (dict_get d1 k) as [v|] eqn:H1.
  - symmetry. apply dict_elem_get; [done|].
    rewrite <-Hperm. by apply dict_get_Some_elem.
  - symmetry. apply dict_get_None. apply dict_get_None in H1.
    unfold dict_keys in *. by rewrite <-Hperm.
Qed.

Lemma pairs_of_sorted_Permutation tb :
  map (λ p, (token_id p, balance p)) (sorted_pairs tb) ≡ₚ balances tb.
Proof.
  rewrite sorted_pairs_Permutation, map_map. simpl.
  rewrite <-(map_id (balances tb)) at 2.
  erewrite map_ext; [done|]. by intros [].
Qed.

(* TokenBalances.__init__ on the bytes that serialize wrote *)
Lemma decode_serialized tb b :
  dict_wf (balances tb) → serialize tb = inr b →
  (N.of_nat (length b) < 2 ^ 64)%N →
  ∃ tb', TokenBalances_init b = inr tb' ∧
         balances tb' = map (λ p, (token_id p, balance p)) (sorted_pairs tb) ∧
         (∀ t, tb_balance tb' t = tb_balance tb t) ∧
         is_empty tb' = is_empty tb ∧
         serialize tb' = inr b.
Proof.
  intros Hwf Hser H64.
  destruct (balances tb) as [|kv d] eqn:Hb.
  { assert (b = []) as ->.
    { unfold serialize in Hser. rewrite Hb in Hser. simpl in Hser. congruence. }
    exists (mkTokenBalances [] [x00]). unfold sorted_pairs. rewrite Hb.
    repeat split; try done.
    - intros t. unfold tb_balance. simpl. by rewrite Hb.
    - unfold is_empty. simpl. by rewrite Hb. }
  assert (balances tb ≠ []) as Hne by (by rewrite Hb).
  rewrite <-Hb in *. clear Hb kv d.
  assert (enum tb = [x00]) as He.
  { unfold serialize in Hser.
    rewrite bool_decide_eq_false_2 in Hser by (by destruct (balances tb)).
    destruct (decide (enum tb = [x00])); [done|].
    by destruct (decide (enum tb = [x01])). }
  rewrite serialize_nonempty in Hser by done.
  destruct (rlp_encode_pairs (sorted_pairs tb)) as [e|rb] eqn:Hrb; [done|].
  injection Hser as <-.
  pose proof Hrb as Hdec. apply decode_pairs_encode in Hdec;
    [|simpl in H64; lia].
  set (d' := map (λ p, (token_id p, balance p)) (sorted_pairs tb)).
  assert (fill_balances
            (map (λ p, (token_id p, Z.to_N (balance p))) (sorted_pairs tb))
          = d') as Hfill.
  { unfold rlp_encode_pairs in Hrb.
    destruct (encode_pairs (sorted_pairs tb)) as [e|bs] eqn:Hbs; [done|].
    unfold fill_balances. rewrite fill_balances_encoded; [done| | |done].
    - unfold dict_wf, dict_keys in Hwf.
      rewrite sorted_pairs_Permutation, map_map. simpl.
      by rewrite <-(list_fmap_ext fst _ (balances tb)) by done.
    - by eapply encode_pairs_nonneg. }
  assert (d' ≡ₚ balances tb) as Hperm by apply pairs_of_sorted_Permutation.
  assert (dict_wf d') as Hwf'.
  { unfold dict_wf, dict_keys in *. by rewrite Hperm. }
  exists (mkTokenBalances d' [x00]). split; [|split; [|split; [|split]]].
  - unfold TokenBalances_init. rewrite bool_decide_eq_true_2 by done.
    change (take 1 (x00 :: rb)) with [x00]. rewrite decide_True by done.
    change (drop 1 (x00 :: rb)) with rb.
    by rewrite Hdec, Hfill.
  - done.
  - intros t. unfold tb_balance. simpl. by rewrite (dict_get_Permutation d' (balances tb) t).
  - apply eq_true_iff_eq. rewrite !is_empty_spec. simpl.
    split; intros Hz k v Hin; apply (Hz k v); [by rewrite Hperm|by rewrite <-Hperm].
  - rewrite serialize_nonempty; simpl; [| |done].
    + by rewrite (sorted_pairs_ext _ tb), Hrb by done.
    + intros Hnil. apply Hne. apply Permutation_nil_r. by rewrite <-Hnil, Hperm.
Qed.

(** X1. Loading what serialize wrote gives the same balances back:
    for a TokenBalances whose serialization succeeds (and is shorter than
    2^64 bytes, the limit of an RLP length prefix), TokenBalances.__init__
    on the serialized bytes succeeds, holds the pairs in increasing order of
    token id, answers balance() as before for every token, and serializes
    to the same bytes again. *)
Theorem TokenBalances_round_trip tb b :
  dict_wf (balances tb) → serialize tb = inr b →
  (N.of_nat (length b) < 2 ^ 64)%N →
  ∃ tb', TokenBalances_init b = inr tb' ∧
         balances tb' = map (λ p, (token_id p, balance p)) (sorted_pairs tb) ∧
         (∀ t, tb_balance tb' t = tb_balance tb t) ∧
         is_empty tb' = is_empty tb ∧
         serialize tb' = inr b.
Proof. apply decode_serialized. Qed.

Lemma TokenBalances_round_trip_witness :
  ∃ tb', TokenBalances_init [x00; xc6; xc2; x80; x09; xc2; x05; x07] = inr tb' ∧
         balances tb' = [(0%N, 9); (5%N, 7)] ∧
         (∀ t, tb_balance tb' t
               = tb_balance (mkTokenBalances [(5%N, 7); (0%N, 9)] [x00]) t) ∧
         is_empty tb' = false ∧
         serialize tb' = inr [x00; xc6; xc2; x80; x09; xc2; x05; x07].
Proof.
  apply (TokenBalances_round_trip (mkTokenBalances [(5%N, 7); (0%N, 9)] [x00])).
  - apply (bool_decide_unpack _). vm_compute. exact I.
  - vm_compute. reflexivity.
  - vm_compute. reflexivity.
Defined.

(** ** Account.commit *)

(* the loop of Account.commit: a slot of the cache is written to the trie,
   or deleted from it if its value is zero *)
Lemma fold_storage_commit (l : dict Z Z) (m : gmap Z Z) k :
  NoDup l.*1 →
  fold_left (λ t kv, if bool_decide (kv.2 ≠ 0) then <[kv.1 := kv.2]> t
                     else delete kv.1 t) l m !! k =
    match dict_get l k with
    | Some v => if bool_decide (v ≠ 0) then Some v else None
    | None => m !! k
    end.
Proof.
  revert m. induction l as [|[k0 v0] l IH]; intros m Hnd; [done|].
  rewrite fmap_cons in Hnd. apply NoDup_cons in Hnd as [Hk0 Hnd].
  cbn [fold_left fst snd dict_get]. rewrite IH by done.
  destruct (decide (k = k0)) as [->|Hne].
  - replace (dict_get l k0) with (@None Z) by (symmetry; by apply dict_get_None).
    case_bool_decide; [by rewrite lookup_insert_eq|by rewrite lookup_delete_eq].
  - destruct (dict_get l k); [done|].
    case_bool_decide; [by rewrite lookup_insert_ne|by rewrite lookup_delete_ne].
Qed.

Lemma Account_commit_view x k :
  dict_wf (storage_cache x) →
  storage_view (Account_commit x) k = storage_view x k.
Proof.
  intros Hwf. unfold storage_view, storage_trie_get. cbn.
  rewrite fold_storage_commit by done.
  destruct (dict_get (storage_cache x) k) as [v|]; [|done].
  case_bool_decide as Hv; [done|]. simpl. destruct (decide (v = 0)); [done|].
  by destruct Hv.
Qed.

Lemma Account_commit_trie x k :
  dict_wf (storage_cache x) →
  (∀ k v, storage_trie x !! k = Some v → v ≠ 0) →
  storage_trie (Account_commit x) !! k =
    if bool_decide (storage_view x k = 0) then None
    else Some (storage_view x k).
Proof.
  intros Hwf Hnz. unfold storage_view, storage_trie_get. cbn.
  rewrite fold_storage_commit by done.
  destruct (dict_get (storage_cache x) k) as [v|].
  - by repeat case_bool_decide.
  - destruct (storage_trie x !! k) as [v|] eqn:Hk; simpl; [|done].
    rewrite bool_decide_eq_false_2; [done|]. by eapply Hnz.
Qed.

(** X2. Account.commit flushes the storage cache without changing what
    the account reads: the cache is empty afterwards, the storage root is
    the root of the storage trie, and every slot has the value that
    get_storage_data had for it before. If the trie held no zero value, it
    then holds exactly the slots whose value is not zero: a slot written
    to zero is deleted, not stored. *)
Theorem Account_commit_storage x :
  dict_wf (storage_cache x) →
  let y := Account_commit x in
  storage_cache y = [] ∧ storage y = storage_trie y ∧
  (∀ k, storage_view y k = storage_view x k) ∧
  ((∀ k v, storage_trie x !! k = Some v → v ≠ 0) →
   ∀ k, storage_trie y !! k = if bool_decide (storage_view x k = 0) then None
                              else Some (storage_view x k)).
Proof.
  intros Hwf y. split; [done|]. split; [done|]. split.
  - intros k. by apply Account_commit_view.
  - intros Hnz k. by apply Account_commit_trie.
Qed.

Lemma Account_commit_storage_witness :
  let x := mkAccount 0 (mkTokenBalances [] [x00]) {[1 := 5; 2 := 6]} [] 0
             [(1, 0); (3, 7)] {[1 := 5; 2 := 6]} true true false in
  let y := Account_commit x in
  storage_cache y = [] ∧ storage y = storage_trie y ∧
  (∀ k, storage_view y k = storage_view x k) ∧
  ((∀ k v, storage_trie x !! k = Some v → v ≠ 0) →
   ∀ k, storage_trie y !! k = if bool_decide (storage_view x k = 0) then None
                              else Some (storage_view x k)).
Proof.
  apply (Account_commit_storage
           (mkAccount 0 (mkTokenBalances [] [x00]) {[1 := 5; 2 := 6]} [] 0
              [(1, 0); (3, 7)] {[1 := 5; 2 := 6]} true true false)).
  apply (bool_decide_unpack _). vm_compute. exact I.
Defined.

(** X3. The storage root that Account.commit leaves depends only on the
    values of the slots, not on the writes that led to them: two accounts
    that read the same value for every slot commit to the same storage
    trie. *)
Theorem Account_commit_canonical x1 x2 :
  dict_wf (storage_cache x1) → dict_wf (storage_cache x2) →
  (∀ k v, storage_trie x1 !! k = Some v → v ≠ 0) →
  (∀ k v, storage_trie x2 !! k = Some v → v ≠ 0) →
  (∀ k, storage_view x1 k = storage_view x2 k) →
  storage (Account_commit x1) = storage (Account_commit x2).
Proof.
  intros Hwf1 Hwf2 Hnz1 Hnz2 Hview. apply map_eq. intros k.
  change (storage_trie (Account_commit x1) !! k
          = storage_trie (Account_commit x2) !! k).
  by rewrite !Account_commit_trie, Hview.
Qed.

Lemma no_zero_slots_12 k v :
  ({[1 := 5; 2 := 6]} : gmap Z Z) !! k = Some v → v ≠ 0.
Proof.
  intros Hk. apply lookup_insert_Some in Hk as [[_ <-]|[_ Hk]]; [done|].
  apply lookup_singleton_Some in Hk as [_ <-]. done.
Qed.

Lemma Account_commit_canonical_witness :
  storage (Account_commit
             (mkAccount 0 (mkTokenBalances [] [x00]) ∅ [] 0
                [(1, 5); (2, 6); (3, 0)] ∅ true true false))
  = storage (Account_commit
               (mkAccount 0 (mkTokenBalances [] [x00]) {[1 := 5; 2 := 6]} [] 0
                  [(2, 6)] {[1 := 5; 2 := 6]} true true false)).
Proof.
  apply Account_commit_canonical.
  - apply (bool_decide_unpack _). vm_compute. exact I.
  - apply (bool_decide_unpack _). vm_compute. exact I.
  - intros k v Hk. simpl in Hk. by rewrite lookup_empty in Hk.
  - apply no_zero_slots_12.
  - intros k. unfold storage_view, storage_trie_get. cbn.
    destruct (decide (k = 1)) as [->|?]; [done|].
    destruct (decide (k = 2)) as [->|?]; [done|].
    destruct (decide (k = 3)) as [->|?]; [done|].
    by rewrite lookup_insert_ne, lookup_singleton_ne by done.
Defined.

(** ** Reading back what was written *)

Lemma get_code_view S a :
  observe (get_code a) S =
    match view S a with inl e => inl e | inr x => inr (code_hash x) end.
Proof.
  unfold observe, get_code, bind, ret.
  rewrite get_and_cache_account_eq. by destruct (view S a).
Qed.

Lemma read_view S a f :
  read S a f = match view S a with inl e => inl e | inr x => inr (field_of x f) end.
Proof.
  destruct f as [| |t|k]; unfold read.
  - rewrite get_nonce_view. by destruct (view S a).
  - rewrite get_code_view. by destruct (view S a).
  - change (observe (get_balance a (Some t)) S) with (balance_of S a t).
    rewrite balance_of_view. by destruct (view S a).
  - rewrite get_storage_data_view. by destruct (view S a).
Qed.

Lemma read_inr S a f v : read S a f = inr v → ∃ x, view S a = inr x ∧ field_of x f = v.
Proof.
  rewrite read_view. destruct (view S a) as [e|x]; [done|].
  intros [= <-]. by exists x.
Qed.

Lemma call_view m a x S :
  target m = Some a → view S a = inr x →
  ∃ S', call m S = (inr tt, S') ∧ view S' a = inr (effect a m x).1 ∧
        (∀ a', a' ≠ a → view S' a' = view S a') ∧
        trie S' = trie S ∧ aux S' = aux S ∧ config S' = config S ∧
        journal S' = (effect a m x).2 ++ journal S.
Proof.
  intros Ht Hv. rewrite (call_target _ _ _ Ht), Hv. cbv zeta.
  eexists. split; [done|].
  destruct (cache_account_fields S a x) as (Htr & Hj & Hx & Hc & _).
  split; [|split; [|by rewrite <-Htr, <-Hx, <-Hc]].
  - rewrite view_with_cache_set. by rewrite decide_True.
  - intros a' Hne. rewrite view_with_cache_set, decide_False by done.
    by apply cache_account_view.
Qed.

(* a call that changes the fields [changes] of the account to [v] and no
   other *)
Lemma call_read m a x S (Q : field → Prop) :
  target m = Some a → view S a = inr x →
  (∀ f, ¬ Q f → field_of (effect a m x).1 f = field_of x f) →
  ∃ S', call m S = (inr tt, S') ∧
        (∀ f, read S' a f = inr (field_of (effect a m x).1 f)) ∧
        (∀ a' f, ¬ (a' = a ∧ Q f) → read S' a' f = read S a' f) ∧
        trie S' = trie S.
Proof.
  intros Ht Hv Hf.
  destruct (call_view m a x S Ht Hv) as (S' & Hcall & Ha & Hframe & Htr & _).
  exists S'. split; [done|]. split; [|split; [|done]].
  - intros f. by rewrite read_view, Ha.
  - intros a' f Hne. rewrite !read_view.
    destruct (decide (a' = a)) as [->|Hna].
    + rewrite Ha, Hv. rewrite Hf; [done|]. intros HQ. by apply Hne.
    + by rewrite Hframe.
Qed.

(** X4. A nonce that was written is the nonce that is read: if
    get_nonce(a) returns n, then after set_nonce(a, v) it returns v and
    after increment_nonce(a) it returns n + 1; the code, the balances and
    the storage of the account, and whatever is read of another account,
    are as before, and the trie is not written. *)
Theorem nonce_read_back (S : State) (a : address) (n : Z)
    (Hn : read S a F_nonce = inr (inl n)) :
  (∀ v, ∃ S', set_nonce a v S = (inr tt, S') ∧
              read S' a F_nonce = inr (inl v) ∧
              (∀ a' f, (a', f) ≠ (a, F_nonce) → read S' a' f = read S a' f) ∧
              trie S' = trie S) ∧
  (∃ S', increment_nonce a S = (inr tt, S') ∧
         read S' a F_nonce = inr (inl (n + 1)) ∧
         (∀ a' f, (a', f) ≠ (a, F_nonce) → read S' a' f = read S a' f) ∧
         trie S' = trie S).
Proof.
  apply read_inr in Hn as (x & Hv & [= Hx]). split.
  - intros v.
    destruct (call_read (Set_nonce a v) a x S (λ f, f = F_nonce) eq_refl Hv)
      as (S' & Hcall & Ha & Hframe & Htr).
    { by intros []. }
    exists S'. split; [done|]. split; [by rewrite Ha|]. split; [|done].
    intros a' f Hne. apply Hframe. intros [-> ->]. done.
  - destruct (call_read (Increment_nonce a) a x S (λ f, f = F_nonce) eq_refl Hv)
      as (S' & Hcall & Ha & Hframe & Htr).
    { by intros []. }
    exists S'. split; [done|]. split; [by rewrite Ha, <-Hx|]. split; [|done].
    intros a' f Hne. apply Hframe. intros [-> ->]. done.
Qed.

Lemma nonce_read_back_witness :
  (∀ v, ∃ S', set_nonce 1%N v fresh_state = (inr tt, S') ∧
              read S' 1%N F_nonce = inr (inl v) ∧
              (∀ a' f, (a', f) ≠ (1%N, F_nonce) →
                       read S' a' f = read fresh_state a' f) ∧
              trie S' = trie fresh_state) ∧
  (∃ S', increment_nonce 1%N fresh_state = (inr tt, S') ∧
         read S' 1%N F_nonce = inr (inl (0 + 1)) ∧
         (∀ a' f, (a', f) ≠ (1%N, F_nonce) →
                  read S' a' f = read fresh_state a' f) ∧
         trie S' = trie fresh_state).
Proof. apply (nonce_read_back fresh_state 1%N 0). reflexivity. Defined.

(** X6. A storage slot that was written is the one that is read: if
    the account can be read, then after set_storage_data(a, k, v)
    get_storage_data(a, k) returns v; the other slots, the nonce, the code
    and the balances of the account, and whatever is read of another
    account, are as before, and neither the state trie nor the storage
    trie of the account is written. *)
Theorem storage_read_back (S : State) (a : address) (k v w : Z)
    (Hw : read S a (F_storage k) = inr (inl w)) :
  ∃ S', set_storage_data a k v S = (inr tt, S') ∧
        read S' a (F_storage k) = inr (inl v) ∧
        (∀ a' f, (a', f) ≠ (a, F_storage k) → read S' a' f = read S a' f) ∧
        trie S' = trie S ∧
        ∀ x y, view S a = inr x → view S' a = inr y →
               storage_trie y = storage_trie x.
Proof.
  apply read_inr in Hw as (x & Hv & _).
  assert (∀ k', storage_view (effect a (Set_storage_data a k v) x).1 k' =
                if decide (k = k') then v else storage_view x k') as Hst.
  { intros k'. cbn [effect]. unfold Account_get_storage_data, storage_view.
    destruct (dict_get (storage_cache x) k) as [u|] eqn:Hk; cbn.
    - rewrite dict_get_set. by destruct (decide (k = k')).
    - rewrite !dict_get_set. destruct (decide (k = k')) as [->|?]; [done|].
      by destruct (dict_get (storage_cache x) k'). }
  destruct (call_read (Set_storage_data a k v) a x S (λ f, f = F_storage k)
              eq_refl Hv) as (S' & Hcall & Ha & Hframe & Htr).
  { intros f Hf. destruct f as [| |t'|k'].
    - cbn [effect]. unfold Account_get_storage_data.
      by destruct (dict_get (storage_cache x) k).
    - cbn [effect]. unfold Account_get_storage_data.
      by destruct (dict_get (storage_cache x) k).
    - cbn [effect]. unfold Account_get_storage_data.
      by destruct (dict_get (storage_cache x) k).
    - cbn [field_of]. rewrite Hst, decide_False; [done|]. by intros ->. }
  exists S'. split; [done|]. split; [|split; [|split; [done|]]].
  - rewrite Ha. cbn [field_of]. by rewrite Hst, decide_True.
  - intros a' f Hne. apply Hframe. intros [-> ->]. done.
  - intros x' y Hx' Hy. rewrite Hv in Hx'. injection Hx' as <-.
    assert (view S' a = inr (effect a (Set_storage_data a k v) x).1) as Hy'.
    { destruct (call_view (Set_storage_data a k v) a x S eq_refl Hv)
        as (S'' & Hcall' & Hy' & _).
      rewrite Hcall in Hcall'. by injection Hcall' as <-. }
    rewrite Hy in Hy'. injection Hy' as ->.
    cbn [effect]. unfold Account_get_storage_data.
    by destruct (dict_get (storage_cache x) k).
Qed.

Lemma storage_read_back_witness :
  ∃ S', set_storage_data 1%N 3 9 fresh_state = (inr tt, S') ∧
        read S' 1%N (F_storage 3) = inr (inl 9) ∧
        (∀ a' f, (a', f) ≠ (1%N, F_storage 3) →
                 read S' a' f = read fresh_state a' f) ∧
        trie S' = trie fresh_state ∧
        ∀ x y, view fresh_state 1%N = inr x → view S' 1%N = inr y →
               storage_trie y = storage_trie x.
Proof. apply (storage_read_back fresh_state 1%N 3 9 0). reflexivity. Defined.

Lemma get_balances_view S a :
  observe (get_balances a) S =
    match view S a with
    | inl e => inl e
    | inr x => inr (balances (token_balances x))
    end.
Proof.
  unfold observe, get_balances, bind, ret.
  rewrite get_and_cache_account_eq. by destruct (view S a).
Qed.

Lemma dict_eqb_refl {K V} `{EqDecision K, EqDecision V} (d : dict K V) :
  dict_wf d → dict_eqb d d = true.
Proof.
  intros Hwf. unfold dict_eqb. rewrite bool_decide_eq_true_2 by done.
  apply forallb_forall. intros [k v] Hin. apply bool_decide_eq_true.
  apply dict_elem_get; [done|]. by apply list_elem_of_In.
Qed.

(** X7. The balances that were written are the ones that are read: if
    get_balances(a) returns a dict, then after set_balances(a, d)
    get_balances(a) returns a dict equal to d and get_balance(a, t) returns
    d.get(t, 0) for every token; the nonce, the code and the storage of the
    account, and whatever is read of another account, are as before, and
    the trie is not written. *)
Theorem balances_read_back (S : State) (a : address) (d cur : dict N Z)
    (Hcur : observe (get_balances a) S = inr cur)
    (Hwf : dict_wf cur) (Hd : dict_wf d) :
  ∃ S' d', set_balances a d S = (inr tt, S') ∧
           observe (get_balances a) S' = inr d' ∧ dict_eqb d' d = true ∧
           (∀ t, read S' a (F_balance t) = inr (inl (default 0 (dict_get d t)))) ∧
           (∀ a' f, (a' ≠ a ∨ ∀ t, f ≠ F_balance t) → read S' a' f = read S a' f) ∧
           trie S' = trie S.
Proof.
  rewrite get_balances_view in Hcur.
  destruct (view S a) as [e|x] eqn:Hv; [done|]. injection Hcur as <-.
  destruct (call_read (Set_balances a d) a x S (λ f, ∃ t, f = F_balance t)
              eq_refl Hv) as (S' & Hcall & Ha & Hframe & Htr).
  { intros f Hf. cbn [effect].
    destruct (dict_eqb _ _); [by destruct f|].
    destruct f as [| |t'|k]; try done. destruct Hf. by exists t'. }
  destruct (call_view (Set_balances a d) a x S eq_refl Hv)
    as (S'' & Hcall' & Hy & _).
  rewrite Hcall in Hcall'. injection Hcall' as <-.
  exists S', (balances (token_balances (effect a (Set_balances a d) x).1)).
  split; [done|]. split; [by rewrite get_balances_view, Hy|].
  assert (dict_eqb (balances (token_balances (effect a (Set_balances a d) x).1)) d
          = true ∧
          ∀ t, dict_get (balances (token_balances (effect a (Set_balances a d) x).1)) t
               = dict_get d t) as [Heq Hget].
  { cbn [effect].
    destruct (dict_eqb (balances (token_balances x)) d) eqn:Heq; cbn.
    - split; [done|]. intros t. apply dict_get_Permutation; [done|].
      by apply dict_eqb_Permutation.
    - split; [by apply dict_eqb_refl|done]. }
  split; [done|]. split; [|split; [|done]].
  - intros t. rewrite Ha. cbn [field_of]. unfold tb_balance. by rewrite Hget.
  - intros a' f Hne. apply Hframe. intros [-> [t ->]].
    destruct Hne as [?|Hne]; [done|]. by apply (Hne t).
Qed.

Lemma balances_read_back_witness :
  ∃ S' d', set_balances 1%N [(7%N, 5); (2%N, 3)] fresh_state = (inr tt, S') ∧
           observe (get_balances 1%N) S' = inr d' ∧
           dict_eqb d' [(7%N, 5); (2%N, 3)] = true ∧
           (∀ t, read S' 1%N (F_balance t)
                 = inr (inl (default 0 (dict_get [(7%N, 5); (2%N, 3)] t)))) ∧
           (∀ a' f, (a' ≠ 1%N ∨ ∀ t, f ≠ F_balance t) →
                    read S' a' f = read fresh_state a' f) ∧
           trie S' = trie fresh_state.
Proof.
  apply (balances_read_back fresh_state 1%N [(7%N, 5); (2%N, 3)] []).
  - reflexivity.
  - apply NoDup_nil_2.
  - apply (bool_decide_unpack _). vm_compute. exact I.
Defined.

(** X8. The code that was written is the code that is read: if the
    account can be read, then after set_code(a, v) get_code(a) returns v;
    the nonce, the balances and the storage of the account, and whatever
    is read of another account, are as before, and the trie is not
    written. *)
Theorem code_read_back (S : State) (a : address) (v c : bytes)
    (Hc : read S a F_code = inr (inr c)) :
  ∃ S', set_code a v S = (inr tt, S') ∧
        read S' a F_code = inr (inr v) ∧
        (∀ a' f, (a', f) ≠ (a, F_code) → read S' a' f = read S a' f) ∧
        trie S' = trie S.
Proof.
  apply read_inr in Hc as (x & Hv & _).
  destruct (call_read (Set_code a v) a x S (λ f, f = F_code) eq_refl Hv)
    as (S' & Hcall & Ha & Hframe & Htr).
  { by intros []. }
  exists S'. split; [done|]. split; [by rewrite Ha|]. split; [|done].
  intros a' f Hne. apply Hframe. intros [-> ->]. done.
Qed.

Lemma code_read_back_witness :
  ∃ S', set_code 1%N [x60; x00] fresh_state = (inr tt, S') ∧
        read S' 1%N F_code = inr (inr [x60; x00]) ∧
        (∀ a' f, (a', f) ≠ (1%N, F_code) → read S' a' f = read fresh_state a' f) ∧
        trie S' = trie fresh_state.
Proof. apply (code_read_back fresh_state 1%N [x60; x00] []). reflexivity. Defined.

(** ** The getters *)

Lemma cache_account_read S a x a' f :
  view S a = inr x → read (cache_account a x S) a' f = read S a' f.
Proof. intros Hv. by rewrite !read_view, (cache_account_view _ _ _ _ Hv). Qed.

Lemma get_and_cache_account_pure S a :
  let S' := (get_and_cache_account a S).2 in
  trie S' = trie S ∧ journal S' = journal S ∧ aux S' = aux S ∧
  config S' = config S ∧
  (∀ a' f, read S' a' f = read S a' f) ∧
  (∀ a', touched_of S' a' = touched_of S a').
Proof.
  rewrite get_and_cache_account_eq.
  destruct (view S a) as [e|x] eqn:Hv; [done|]. cbn [snd].
  destruct (cache_account_fields S a x) as (Htr & Hj & Hx & Hc & _).
  repeat split; try done.
  - intros a' f. by apply cache_account_read.
  - intros a'. apply cache_account_touched_of; [done|]. by apply view_touched.
Qed.

Lemma field_of_get_storage_data k x f :
  field_of (Account_get_storage_data k x).2 f = field_of x f.
Proof.
  unfold Account_get_storage_data.
  destruct (dict_get (storage_cache x) k) as [v|] eqn:Hk; [done|].
  destruct f as [| |t|k']; try done. cbn. unfold storage_view. cbn.
  rewrite dict_get_set. destruct (decide (k = k')) as [<-|?]; [|done].
  by rewrite Hk.
Qed.

Lemma get_storage_data_state S a k :
  (get_storage_data a k S).2 =
    match view S a with
    | inl _ => S
    | inr x =>
        with_cache (dict_set (cache (cache_account a x S)) a
                      (Account_get_storage_data k x).2) (cache_account a x S)
    end.
Proof.
  unfold get_storage_data. unfold bind at 1.
  rewrite get_and_cache_account_eq.
  destruct (view S a) as [e|x] eqn:Hv; [done|].
  destruct (Account_get_storage_data k x) as [v x'] eqn:Hx'.
  erewrite (bind_inr (update_account _ _));
    [|apply update_account_cached; by apply cache_account_get].
  done.
Qed.

(** X9. The getters do not change what the state holds: a call of
    get_nonce, get_code, get_balance, get_balances, get_full_shard_key,
    get_storage_data or account_exists, whether it returns or raises,
    leaves the trie, the journal and the auxiliary variables as they are,
    and every getter answers afterwards as it would have before; no
    account becomes touched. *)
Theorem getters_pure (S : State) (g : getter) :
  let S' := after_getter g S in
  trie S' = trie S ∧ journal S' = journal S ∧ aux S' = aux S ∧
  config S' = config S ∧
  (∀ a f, read S' a f = read S a f) ∧
  (∀ a, touched_of S' a = touched_of S a).
Proof.
  pose proof (get_and_cache_account_pure S) as Hp.
  destruct g as [a|a|a t|a|a|a k|a]; cbn [after_getter].
  - specialize (Hp a). unfold get_nonce, bind, ret.
    by destruct (get_and_cache_account a S) as [[e|x] S1].
  - specialize (Hp a). unfold get_code, bind, ret.
    by destruct (get_and_cache_account a S) as [[e|x] S1].
  - specialize (Hp a). unfold get_balance, bind, ret, gets.
    destruct t; by destruct (get_and_cache_account a S) as [[e|x] S1].
  - specialize (Hp a). unfold get_balances, bind, ret.
    by destruct (get_and_cache_account a S) as [[e|x] S1].
  - specialize (Hp a). unfold get_full_shard_key, bind, ret.
    by destruct (get_and_cache_account a S) as [[e|x] S1].
  - clear Hp. rewrite get_storage_data_state.
    destruct (view S a) as [e|x] eqn:Hv; [done|].
    pose proof (field_of_get_storage_data k x) as Hf.
    pose proof (Account_get_storage_data_touched k x) as Ht.
    destruct (Account_get_storage_data k x) as [v x'] eqn:Hx'. cbn [snd] in *.
    destruct (cache_account_fields S a x) as (Htr & Hj & Hx & Hc & _).
    repeat split; try done.
    + intros a' f. rewrite !read_view.
      rewrite <-(cache_account_view S a x a' Hv).
      pose proof (view_with_cache_set (cache_account a x S) a x'
                    (journal (cache_account a x S)) a') as Hw.
      replace (with_journal (journal (cache_account a x S)) (cache_account a x S))
        with (cache_account a x S) in Hw by (by destruct (cache_account a x S)).
      rewrite Hw. destruct (decide (a = a')) as [<-|?]; [|done].
      by rewrite (cache_account_view S a x a Hv), Hv, Hf.
    + intros a'. rewrite <-(cache_account_touched_of S a x a' Hv)
        by (by apply view_touched).
      unfold touched_of at 1. cbn [cache with_cache]. rewrite dict_get_set.
      destruct (decide (a = a')) as [<-|?]; [|done].
      unfold touched_of. by rewrite (cache_account_get S a x Hv).
  - specialize (Hp a). unfold account_exists, is_SPURIOUS_DRAGON, gets, bind, ret.
    destruct (bool_decide _);
      destruct (get_and_cache_account a S) as [[e|x] S1]; try done.
    destruct (deleted x && negb (touched x)); [done|]. by destruct (touched x).
Qed.

(** ** Snapshots taken and reverted *)

Lemma replayed_here S : replayed (length (journal S)) S = S.
Proof.
  rewrite (replayed_app [] (journal S) S eq_refl). by destruct S.
Qed.

Lemma with_aux_journal_id S : with_aux (aux S) (with_journal (journal S) S) = S.
Proof. by destruct S. Qed.

(** X10. A revert to a snapshot that was just taken changes nothing:
    outside the compatibility rule for account 3, snapshot() leaves the
    state as it is and revert(snapshot) returns with the state exactly as
    it was, journal and cache included. *)
Theorem revert_of_snapshot (S : State)
    (Hc : touched_of S THREE && in_compat_window (block_number (aux S)) = false) :
  ∃ snap, snapshot S = (inr snap, S) ∧ revert snap S = (inr tt, S).
Proof.
  exists (trie S, length (journal S), aux S). split; [done|].
  rewrite revert_eq. cbv zeta.
  rewrite bool_decide_eq_false_2 by (by intros []).
  rewrite Hc, replayed_here. by destruct S.
Qed.

Lemma revert_of_snapshot_witness :
  ∃ snap, snapshot rich_committed = (inr snap, rich_committed) ∧
          revert snap rich_committed = (inr tt, rich_committed).
Proof. apply revert_of_snapshot. reflexivity. Defined.

(** X11. add_refund is undone by a revert although its journal entry
    does nothing: add_refund(v) adds v to refunds and appends an entry that,
    invoked, raises a TypeError and leaves refunds as they are; revert to a
    snapshot taken before the call pops the entry and restores refunds with
    the other variables of the snapshot, so that the state is exactly the
    one before the call. *)
Theorem add_refund_reverted (S : State) (v : Z)
    (Hc : touched_of S THREE && in_compat_window (block_number (aux S)) = false) :
  let snap := (trie S, length (journal S), aux S) in
  ∃ S1 e, add_refund v S = (inr tt, S1) ∧
          refunds (aux S1) = refunds (aux S) + v ∧
          journal S1 = e :: journal S ∧
          run_undo e S1 = S1 ∧
          revert snap S1 = (inr tt, S).
Proof.
  intros snap. eexists _, _. split; [reflexivity|]. cbn [snd].
  split; [done|]. split; [done|]. split; [done|].
  unfold snap. rewrite revert_eq. cbv zeta.
  rewrite bool_decide_eq_false_2 by (by intros []).
  change (touched_of _ THREE) with (touched_of S THREE). rewrite Hc.
  rewrite (replayed_app [USetRefunds (refunds (aux S))] (journal S)) by done.
  by destruct S.
Qed.

Lemma add_refund_reverted_witness :
  ∃ S1 e, add_refund 5 rich_committed = (inr tt, S1) ∧
          refunds (aux S1) = refunds (aux rich_committed) + 5 ∧
          journal S1 = e :: journal rich_committed ∧
          run_undo e S1 = S1 ∧
          revert (trie rich_committed, length (journal rich_committed),
                  aux rich_committed) S1 = (inr tt, rich_committed).
Proof. apply (add_refund_reverted rich_committed 5). reflexivity. Defined.

(** ** Deleting accounts and resetting storage *)

Lemma del_account_effect S a x :
  dict_get (cache S) a = Some x →
  del_account a S =
    (inr tt, with_cache (dict_set (cache S) a (del_effect a x).1)
               (with_journal ((del_effect a x).2 ++ journal S) S)).
Proof.
  intros Hc. unfold del_account, del_effect.
  change (set_balances a []) with (call (Set_balances a [])).
  change (set_nonce a 0) with (call (Set_nonce a 0)).
  change (set_code a []) with (call (Set_code a [])).
  destruct (effect a (Set_balances a []) x) as [x1 j1] eqn:E1.
  destruct (effect a (Set_nonce a 0) x1) as [x2 j2] eqn:E2.
  destruct (effect a (Set_code a []) x2) as [x3 j3] eqn:E3.
  erewrite (bind_inr (call _)) by (by apply (call_cached _ a x)).
  rewrite E1. cbn [fst snd].
  erewrite (bind_inr (call _))
    by (apply (call_cached _ a x1); [done|apply dict_get_set_eq]).
  rewrite E2. cbn [fst snd cache with_cache with_journal].
  erewrite (bind_inr (call _))
    by (apply (call_cached _ a x2); [done|apply dict_get_set_eq]).
  rewrite E3. cbn [fst snd cache with_cache with_journal].
  erewrite (bind_inr (reset_storage _))
    by (apply reset_storage_cached; apply dict_get_set_eq).
  cbn [fst snd cache with_cache with_journal].
  erewrite (bind_inr (set_and_journal _ _))
    by (apply set_and_journal_cached; apply dict_get_set_eq).
  erewrite set_and_journal_cached by apply dict_get_set_eq.
  cbn [fst snd cache with_cache with_journal journal trie aux changed
       executing_on_head config].
  rewrite !dict_set_set. cbn [app]. by rewrite <-!app_assoc.
Qed.

Lemma del_account_uncached S a x :
  view S a = inr x → del_account a S = del_account a (cache_account a x S).
Proof.
  intros Hv. unfold del_account.
  change (set_balances a []) with (call (Set_balances a [])).
  unfold bind at 1. symmetry. unfold bind at 1. symmetry.
  rewrite (call_uncached S a (Set_balances a []) eq_refl), Hv. done.
Qed.

Lemma del_effect_undo a x :
  undo_acct_all (del_effect a x).2 (del_effect a x).1 = x ∧
  Forall (λ e, undo_target e = Some a) (del_effect a x).2.
Proof.
  destruct x as [n [bal en] st ch fsk sc strie tou ex del].
  unfold del_effect. cbn [effect].
  destruct (dict_eqb _ _); cbn; (split; [done|by repeat constructor]).
Qed.

Lemma del_effect_fields a x :
  let y := (del_effect a x).1 in
  nonce y = 0 ∧ code_hash y = [] ∧ balances (token_balances y) = [] ∧
  storage_cache y = [] ∧ storage_trie y = ∅ ∧
  touched y = false ∧ deleted y = true.
Proof.
  destruct x as [n [bal en] st ch fsk sc strie tou ex del].
  unfold del_effect. cbn [effect balances token_balances].
  destruct (dict_eqb bal []) eqn:Heq; cbn; [|done].
  unfold dict_eqb in Heq. apply andb_true_iff in Heq as [Hl _].
  apply bool_decide_eq_true in Hl. by destruct bal.
Qed.

Lemma del_account_view S a x :
  view S a = inr x →
  let S0 := cache_account a x S in
  del_account a S =
    (inr tt, with_cache (dict_set (cache S0) a (del_effect a x).1)
               (with_journal ((del_effect a x).2 ++ journal S) S0)).
Proof.
  intros Hv S0. rewrite (del_account_uncached _ _ _ Hv).
  rewrite (del_account_effect _ a x) by (by apply cache_account_get).
  destruct (cache_account_fields S a x) as (_ & -> & _). done.
Qed.

(** X12. A deleted account reads as a blank one: if the account can be
    read, del_account(a) returns, and afterwards get_nonce(a) is 0,
    get_code(a) is empty, every balance and every storage slot of a is 0
    and account_exists(a) is False, before and after the Spurious Dragon
    fork; what is read of another account is as before, and the trie is
    not written. *)
Theorem del_account_reads (S : State) (a : address) (x : Account)
    (Hv : view S a = inr x) :
  ∃ S', del_account a S = (inr tt, S') ∧
        read S' a F_nonce = inr (inl 0) ∧
        read S' a F_code = inr (inr []) ∧
        (∀ t, read S' a (F_balance t) = inr (inl 0)) ∧
        (∀ k, read S' a (F_storage k) = inr (inl 0)) ∧
        observe (account_exists a) S' = inr false ∧
        (∀ a' f, a' ≠ a → read S' a' f = read S a' f) ∧
        trie S' = trie S.
Proof.
  rewrite (del_account_view _ _ _ Hv). cbv zeta.
  set (S0 := cache_account a x S).
  set (S' := with_cache _ _).
  destruct (del_effect_fields a x) as (Hn & Hch & Hb & Hsc & Hst & Ht & Hd).
  set (y := (del_effect a x).1) in *.
  assert (view S' a = inr y) as Hy.
  { unfold S'. by rewrite view_with_cache_set, decide_True. }
  exists S'. split; [done|].
  split; [by rewrite read_view, Hy; cbn; rewrite Hn|].
  split; [by rewrite read_view, Hy; cbn; rewrite Hch|].
  split; [intros t; rewrite read_view, Hy; cbn; unfold tb_balance; by rewrite Hb|].
  split.
  { intros k. rewrite read_view, Hy. cbn. unfold storage_view, storage_trie_get.
    by rewrite Hsc, Hst. }
  split.
  { unfold observe. rewrite (account_exists_cached S' a y)
      by (unfold S'; simpl; by rewrite dict_get_set_eq).
    cbn [fst]. unfold account_exists_of, is_blank, is_empty.
    rewrite Hn, Hch, Hb, Ht, Hd. by case_bool_decide. }
  split.
  { intros a' f Hne. rewrite !read_view. unfold S'.
    rewrite view_with_cache_set, decide_False by done.
    unfold S0. by rewrite (cache_account_view _ _ _ _ Hv). }
  unfold S', S0. simpl. by destruct (cache_account_fields S a x) as (-> & _).
Qed.

Lemma del_account_reads_witness :
  ∃ S', del_account 1%N rich_committed = (inr tt, S') ∧
        read S' 1%N F_nonce = inr (inl 0) ∧
        read S' 1%N F_code = inr (inr []) ∧
        (∀ t, read S' 1%N (F_balance t) = inr (inl 0)) ∧
        (∀ k, read S' 1%N (F_storage k) = inr (inl 0)) ∧
        observe (account_exists 1%N) S' = inr false ∧
        (∀ a' f, a' ≠ 1%N → read S' a' f = read rich_committed a' f) ∧
        trie S' = trie rich_committed.
Proof.
  apply (del_account_reads rich_committed 1%N
           (mkAccount 0 (mkTokenBalances [(0%N, 5)] [x00]) {[7 := 9]} [] 0 []
              {[7 := 9]} false true false)).
  vm_compute. reflexivity.
Defined.

(** X13. del_account is undone exactly by a revert: outside the
    compatibility rule for account 3, revert to a snapshot taken before
    del_account(a) invokes the journal entries of the call and leaves the
    state as it was before, with the account object of a, as it was read,
    in the cache. *)
Theorem del_account_reverted (S : State) (a : address) (x : Account)
    (Hv : view S a = inr x)
    (Hc : in_compat_window (block_number (aux S)) = false) :
  let snap := (trie S, length (journal S), aux S) in
  ∃ S1, del_account a S = (inr tt, S1) ∧
        revert snap S1 = (inr tt, cache_account a x S) ∧
        (is_Some (dict_get (cache S) a) → cache_account a x S = S).
Proof.
  intros snap. rewrite (del_account_view _ _ _ Hv). cbv zeta.
  set (S0 := cache_account a x S).
  eexists. split; [reflexivity|]. split.
  - unfold snap. rewrite revert_eq. cbv zeta.
    destruct (cache_account_fields S a x) as (Htr & Hj & Hx & _).
    fold S0 in Htr, Hj, Hx.
    rewrite bool_decide_eq_false_2 by (simpl; rewrite Htr; by intros []).
    rewrite Hc, andb_false_r.
    rewrite (replayed_app (del_effect a x).2 (journal S)) by done.
    destruct (del_effect_undo a x) as [Hundo Hall].
    rewrite undo_all_targeted by done. rewrite Hundo.
    rewrite dict_set_get_id by (by apply cache_account_get).
    f_equal. rewrite <-Hj, <-Hx. by destruct S0.
  - intros [x0 Hx0]. unfold S0, cache_account. by rewrite Hx0.
Qed.

Lemma del_account_reverted_witness :
  ∃ S1, del_account 1%N pruning_example = (inr tt, S1) ∧
        revert (trie pruning_example, length (journal pruning_example),
                aux pruning_example) S1
        = (inr tt, cache_account 1%N
                     (mkAccount 0 (mkTokenBalances [(0%N, 0)] [x00]) ∅ [] 0 []
                        ∅ true true false) pruning_example) ∧
        (is_Some (dict_get (cache pruning_example) 1%N) →
         cache_account 1%N
           (mkAccount 0 (mkTokenBalances [(0%N, 0)] [x00]) ∅ [] 0 []
              ∅ true true false) pruning_example = pruning_example).
Proof.
  apply (del_account_reverted pruning_example 1%N
           (mkAccount 0 (mkTokenBalances [(0%N, 0)] [x00]) ∅ [] 0 []
              ∅ true true false)).
  - vm_compute. reflexivity.
  - reflexivity.
Defined.

(** ** What commit keeps *)

Lemma account_exists_of_commit S x :
  account_exists_of S (Account_commit x) = account_exists_of S x.
Proof. done. Qed.

Lemma view_uncached S a : dict_get (cache S) a = None → view S a = load S a.
Proof. unfold view. by intros ->. Qed.

Lemma load_ext S T a :
  trie T !! a = trie S !! a → aux T = aux S → config T = config S →
  load T a = load S a.
Proof. unfold load. by intros -> -> ->. Qed.

(* the account object read from the record that commit wrote for [x] *)
Lemma load_committed S a x tb :
  trie S !! a = Some (account_record (Account_commit x) tb) →
  serialize (token_balances x) = inr tb →
  dict_wf (storage_cache x) → dict_wf (balances (token_balances x)) →
  (N.of_nat (length tb) < 2 ^ 64)%N →
  ∃ y, load S a = inr y ∧ ∀ f, field_of y f = field_of x f.
Proof.
  intros Htrie Hser Hsc Hbal H64.
  destruct (decode_serialized _ _ Hbal Hser H64) as (tb' & Hinit & _ & Htb & _).
  unfold load. rewrite Htrie. unfold Account_init. cbn [acc_token_balances account_record].
  rewrite Hinit. eexists. split; [reflexivity|].
  intros [| |t|k]; cbn [field_of nonce code_hash token_balances acc_nonce
                         acc_code_hash account_record]; try done.
  - by rewrite Htb.
  - f_equal. rewrite <-(Account_commit_view x k Hsc).
    unfold storage_view. cbn. done.
Qed.

(** X14. commit() keeps what the getters return. After commit has
    returned, with the cache dropped: an address that was not in the cache
    reads as before; an account object that was touched or deleted and
    exists (or any, with allow_empties) reads as before, nonce, code, every
    balance and every storage slot, now from the record written to the
    trie; one that was neither touched nor deleted is read from the trie
    again, as when it was first read; and one that was touched or deleted
    and does not exist is read as a blank account. *)
Theorem commit_keeps_reads (ae : bool) (S S' : State) (a : address)
    (Hwf : dict_wf (cache S)) (Hcommit : commit ae S = (inr tt, S')) :
  (dict_get (cache S) a = None → ∀ f, read S' a f = read S a f) ∧
  (∀ x, dict_get (cache S) a = Some x →
     touched x || deleted x = true → account_exists_of S x || ae = true →
     dict_wf (storage_cache x) → dict_wf (balances (token_balances x)) →
     (∀ b, serialize (token_balances x) = inr b → (N.of_nat (length b) < 2 ^ 64)%N) →
     ∀ f, read S' a f = read S a f) ∧
  (∀ x, dict_get (cache S) a = Some x → touched x || deleted x = false →
     view S' a = load S a) ∧
  (∀ x, dict_get (cache S) a = Some x →
     touched x || deleted x = true → account_exists_of S x || ae = false →
     view S' a = blank_account (full_shard_key (aux S))
                   (ACCOUNT_INITIAL_NONCE (config S))).
Proof.
  destruct (commit_spec _ _ _ Hwf Hcommit) as (Hc & _ & Hx & Hcfg & Hout & Hin).
  assert (view S' a = load S' a) as Hview.
  { apply view_uncached. by rewrite Hc. }
  split; [|split; [|split]].
  - intros Hnone f. rewrite !read_view, Hview, (view_uncached S a Hnone).
    by rewrite (load_ext S S' a (Hout a Hnone)).
  - intros x Hcx Htd Hex Hsc Hbal H64 f.
    specialize (Hin a x Hcx). unfold entry_after in Hin.
    rewrite Htd, account_exists_of_commit, Hex in Hin.
    destruct Hin as (tb & Hser & Hnew).
    destruct (load_committed S' a x tb Hnew Hser Hsc Hbal (H64 _ Hser))
      as (y & Hy & Hf).
    by rewrite !read_view, Hview, Hy, (view_cached S a x Hcx), Hf.
  - intros x Hcx Htd. specialize (Hin a x Hcx). unfold entry_after in Hin.
    rewrite Htd in Hin. rewrite Hview. by apply load_ext.
  - intros x Hcx Htd Hex. specialize (Hin a x Hcx). unfold entry_after in Hin.
    rewrite Htd, account_exists_of_commit, Hex in Hin.
    rewrite Hview. unfold load. by rewrite Hin, Hx, Hcfg.
Qed.

(* State() after writes to two accounts and the read of a third *)
Lemma commit_keeps_reads_witness :
  let S := ((set_token_balance 1%N 0%N 5 >> set_storage_data 1%N 7 9 >>
             set_nonce 2%N 3 >> get_nonce 4%N) fresh_state).2 in
  read (commit false S).2 1%N (F_balance 0%N) = read S 1%N (F_balance 0%N) ∧
  read (commit false S).2 1%N (F_storage 7) = read S 1%N (F_storage 7).
Proof.
  intros S.
  assert (Hwf : dict_wf (cache S)).
  { apply (bool_decide_unpack _). vm_compute. exact I. }
  assert (Hcommit : commit false S = (inr tt, (commit false S).2)).
  { vm_compute. reflexivity. }
  enough (∀ f, read (commit false S).2 1%N f = read S 1%N f) as Hall
    by (split; apply Hall).
  refine (proj1 (proj2 (commit_keeps_reads false S _ 1%N Hwf Hcommit)) _ _ _ _ _ _ _).
  - vm_compute. reflexivity.
  - reflexivity.
  - reflexivity.
  - apply (bool_decide_unpack _). vm_compute. exact I.
  - apply (bool_decide_unpack _). vm_compute. exact I.
  - intros b Hb. vm_compute in Hb. injection Hb as <-. vm_compute. reflexivity.
Defined.

Lemma dict_set_wf {K V} `{EqDecision K} (d : dict K V) k v :
  dict_wf d → dict_wf (dict_set d k v).
Proof.
  unfold dict_wf, dict_keys. induction d as [|[k' v'] d IH]; simpl.
  - intros _. apply NoDup_singleton.
  - rewrite NoDup_cons. intros [Hk' Hnd].
    destruct (decide (k = k')) as [->|Hne]; simpl.
    + by apply NoDup_cons.
    + apply NoDup_cons. split; [|by apply IH].
      intros Hin. apply list_elem_of_fmap in Hin as ([k1 v1] & -> & Hin).
      apply Hk'. apply list_elem_of_fmap.
      assert (dict_get (dict_set d k v) k1 = dict_get d k1) as Hget
        by (apply dict_get_set_ne; by intros ->).
      destruct (dict_get d k1) as [v2|] eqn:Hd.
      * exists (k1, v2). split; [done|]. by apply dict_get_Some_elem.
      * apply dict_get_None in Hget. destruct Hget.
        apply list_elem_of_fmap. by exists (k1, v1).
Qed.

Lemma cache_account_wf S a x : dict_wf (cache S) → dict_wf (cache (cache_account a x S)).
Proof.
  intros Hwf. unfold cache_account.
  destruct (dict_get (cache S) a); [done|]. by apply dict_set_wf.
Qed.

(** X15. An account that was deleted is removed by commit: after
    del_account(a) and commit() have returned, the trie has no entry for a,
    before and after the Spurious Dragon fork, and the entries of the
    addresses that were not in the cache are as before. *)
Theorem del_account_commit (S S' : State) (a : address)
    (Hwf : dict_wf (cache S))
    (Hrun : (del_account a >> commit false) S = (inr tt, S')) :
  trie S' !! a = None ∧
  ∀ a', a' ≠ a → dict_get (cache S) a' = None → trie S' !! a' = trie S !! a'.
Proof.
  unfold bind in Hrun.
  destruct (view S a) as [e|x] eqn:Hv.
  { unfold del_account in Hrun.
    change (set_balances a []) with (call (Set_balances a [])) in Hrun.
    unfold bind at 1 in Hrun.
    by rewrite (call_target S a (Set_balances a []) eq_refl), Hv in Hrun. }
  rewrite (del_account_view _ _ _ Hv) in Hrun. cbv zeta in Hrun.
  set (S1 := with_cache _ _) in Hrun.
  assert (dict_wf (cache S1)) as Hwf1.
  { unfold S1. simpl. by apply dict_set_wf, cache_account_wf. }
  destruct (commit_spec _ _ _ Hwf1 Hrun) as (_ & _ & _ & _ & Hout & Hin).
  destruct (del_effect_fields a x) as (Hn & Hch & Hb & Hsc & Hst & Ht & Hd).
  destruct (cache_account_fields S a x) as (Htr & _).
  split.
  - specialize (Hin a (del_effect a x).1).
    unfold entry_after in Hin.
    rewrite account_exists_of_commit, Ht, Hd in Hin. cbn [orb] in Hin.
    unfold account_exists_of, is_blank, is_empty in Hin.
    rewrite Hn, Hch, Hb, Ht, Hd in Hin.
    assert (dict_get (cache S1) a = Some (del_effect a x).1) as Hc1
      by (unfold S1; simpl; apply dict_get_set_eq).
    specialize (Hin Hc1). clear -Hin. by case_bool_decide.
  - intros a' Hne Hnone. rewrite Hout.
    + unfold S1. simpl. by rewrite Htr.
    + unfold S1. simpl. rewrite dict_get_set_ne by done.
      by rewrite cache_account_get_ne.
Qed.

Lemma del_account_commit_witness :
  trie rich_committed !! 1%N ≠ None ∧
  trie ((del_account 1%N >> commit false) rich_committed).2 !! 1%N = None.
Proof.
  split; [vm_compute; discriminate|].
  refine (proj1 (del_account_commit rich_committed _ 1%N _ _)).
  - apply NoDup_nil_2.
  - vm_compute. reflexivity.
Defined.

(** X16. commit() leaves nothing to commit: when it has returned, the
    cache and the journal are empty, and a second commit, with
    allow_empties or not, returns with the state exactly as it is. *)
Theorem commit_twice (ae ae' : bool) (S S' : State)
    (Hcommit : commit ae S = (inr tt, S')) :
  cache S' = [] ∧ journal S' = [] ∧ commit ae' S' = (inr tt, S').
Proof.
  unfold commit in Hcommit. unfold bind at 1, gets at 1 in Hcommit.
  unfold bind at 1 in Hcommit.
  destruct (for_each _ _ S) as [[e|[]] S1]; [done|].
  unfold bind, modify in Hcommit. injection Hcommit as <-.
  split; [done|]. split; [done|]. done.
Qed.

Lemma commit_twice_witness :
  cache (commit false uncommitted_state).2 = [] ∧
  journal (commit false uncommitted_state).2 = [] ∧
  commit true (commit false uncommitted_state).2
  = (inr tt, (commit false uncommitted_state).2).
Proof. apply (commit_twice false true uncommitted_state). vm_compute. reflexivity. Defined.

Lemma reset_storage_uncached S a x :
  view S a = inr x → reset_storage a S = reset_storage a (cache_account a x S).
Proof.
  intros Hv. unfold reset_storage.
  unfold bind at 1. symmetry. unfold bind at 1. symmetry.
  rewrite get_and_cache_account_eq, Hv.
  by rewrite (get_and_cache_account_cached _ a x) by (by apply cache_account_get).
Qed.

(** X17. reset_storage empties the storage of an account and is undone
    exactly by a revert: if the account can be read, then after
    reset_storage(a) every slot of a reads 0, while the nonce, the code and
    the balances of a, and whatever is read of another account, are as
    before; outside the compatibility rule for account 3, revert to a
    snapshot taken before the call leaves the state as it was before, with
    the account object of a, as it was read, in the cache. *)
Theorem reset_storage_spec (S : State) (a : address) (x : Account)
    (Hv : view S a = inr x)
    (Hc : touched_of S THREE && in_compat_window (block_number (aux S)) = false) :
  let snap := (trie S, length (journal S), aux S) in
  ∃ S1, reset_storage a S = (inr tt, S1) ∧
        (∀ k, read S1 a (F_storage k) = inr (inl 0)) ∧
        (∀ a' f, (a' ≠ a ∨ ∀ k, f ≠ F_storage k) → read S1 a' f = read S a' f) ∧
        revert snap S1 = (inr tt, cache_account a x S).
Proof.
  intros snap. rewrite (reset_storage_uncached _ _ _ Hv).
  set (S0 := cache_account a x S).
  assert (dict_get (cache S0) a = Some x) as Hc0 by (by apply cache_account_get).
  rewrite (reset_storage_cached _ _ _ Hc0).
  destruct (cache_account_fields S a x) as (Htr & Hj & Hx & _).
  fold S0 in Htr, Hj, Hx.
  eexists. split; [reflexivity|]. split; [|split].
  - intros k. rewrite read_view, view_with_cache_set, decide_True by done. done.
  - intros a' f Hne. rewrite !read_view, view_with_cache_set.
    destruct (decide (a = a')) as [<-|?].
    + rewrite Hv. destruct Hne as [?|Hne]; [done|].
      destruct f; try done. by destruct (Hne key).
    + unfold S0. by rewrite (cache_account_view _ _ _ _ Hv).
  - unfold snap. rewrite revert_eq. cbv zeta.
    rewrite bool_decide_eq_false_2 by (simpl; rewrite Htr; by intros []).
    assert (touched_of
              (with_cache (dict_set (cache S0) a
                 (setattr (A_root_hash ∅) (setattr (A_storage_cache []) x)))
                 (with_journal
                    (USetattr a (A_root_hash (storage_trie x))
                     :: USetattr a (A_storage_cache (storage_cache x))
                     :: journal S0) S0)) THREE = touched_of S THREE) as ->.
    { unfold touched_of at 1. cbn [cache with_cache]. rewrite dict_get_set.
      destruct (decide (a = THREE)) as [->|Hne].
      - cbn. by apply view_touched.
      - fold (touched_of S0 THREE). unfold S0.
        apply cache_account_touched_of; [done|]. by apply view_touched. }
    rewrite Hc.
    rewrite (replayed_app [USetattr a (A_root_hash (storage_trie x));
                           USetattr a (A_storage_cache (storage_cache x))]
               (journal S)) by (simpl; by rewrite Hj).
    rewrite undo_all_targeted by (by repeat constructor).
    replace (undo_acct_all _ _) with x by (by destruct x).
    rewrite dict_set_get_id by done.
    f_equal. rewrite <-Hj, <-Hx. by destruct S0.
Qed.

Lemma reset_storage_spec_witness :
  ∃ S1, reset_storage 1%N rich_committed = (inr tt, S1) ∧
        (∀ k, read S1 1%N (F_storage k) = inr (inl 0)) ∧
        (∀ a' f, (a' ≠ 1%N ∨ ∀ k, f ≠ F_storage k) →
                 read S1 a' f = read rich_committed a' f) ∧
        revert (trie rich_committed, length (journal rich_committed),
                aux rich_committed) S1
        = (inr tt, cache_account 1%N
                     (mkAccount 0 (mkTokenBalances [(0%N, 5)] [x00]) {[7 := 9]}
                        [] 0 [] {[7 := 9]} false true false) rich_committed).
Proof.
  apply (reset_storage_spec rich_committed 1%N
           (mkAccount 0 (mkTokenBalances [(0%N, 5)] [x00]) {[7 := 9]} [] 0 []
              {[7 := 9]} false true false)).
  - vm_compute. reflexivity.
  - reflexivity.
Defined.

(** ** Nested snapshots *)

Lemma state_sim_read S T : state_sim S T → ∀ a f, read T a f = read S a f.
Proof.
  intros Hsim a f. rewrite !read_view.
  pose proof (state_sim_view S T a Hsim) as Hv.
  destruct (view S a) as [e|x], (view T a) as [e'|y]; simpl in Hv; try done;
    [congruence|].
  f_equal. destruct f as [| |t|k]; cbn [field_of].
  - by destruct Hv as (-> & _).
  - by destruct Hv as (_ & _ & _ & -> & _).
  - by destruct Hv as (_ & -> & _).
  - by rewrite (acct_sim_storage_view _ _ k Hv).
Qed.

Lemma supported_mono S T e :
  (∀ a, is_Some (dict_get (cache S) a) → is_Some (dict_get (cache T) a)) →
  supported S e → supported T e.
Proof.
  intros Hmono. unfold supported.
  destruct e as [a []| | | | | | | |]; simpl; try done; apply Hmono.
Qed.

Lemma call_cache_mono m S a :
  is_Some (dict_get (cache S) a) → is_Some (dict_get (cache (call m S).2) a).
Proof.
  intros Hs. destruct (target m) as [a0|] eqn:Ht.
  - rewrite (call_target _ _ _ Ht).
    destruct (view S a0) as [e|x] eqn:Hv; [done|]. cbv zeta. simpl.
    rewrite dict_get_set. destruct (decide (a0 = a)) as [->|Hne]; [by eexists|].
    by rewrite cache_account_get_ne.
  - by destruct m; simplify_eq/=.
Qed.

Lemma call_all_cache_mono ms S a :
  is_Some (dict_get (cache S) a) → is_Some (dict_get (cache (call_all ms S)) a).
Proof.
  revert S. induction ms as [|m ms IH]; intros S Hs; [done|].
  simpl. apply IH. by apply call_cache_mono.
Qed.

(* the journal entries of a sequence of calls, which bring the state back
   and are about account objects of the cache *)
Lemma call_all_undo_supported ms S :
  ∃ new, journal (call_all ms S) = new ++ journal S ∧
         Forall (supported (call_all ms S)) new ∧
         state_sim S (undo_all new (call_all ms S)) ∧
         trie (call_all ms S) = trie S ∧ config (call_all ms S) = config S.
Proof.
  revert S. induction ms as [|m ms IH]; intros S.
  - exists []. simpl. repeat split; try done. apply state_sim_refl.
  - simpl. destruct (call_undo m S) as (es & Hj & Hsup & Hsim & Ht & Hc).
    destruct (IH (call m S).2) as (new & Hj' & Hsup' & Hsim' & Ht' & Hc').
    exists (new ++ es). unfold call_all in *. simpl.
    rewrite Hj', Hj, Ht', Hc', app_assoc. split; [done|].
    split; [|split; [|done]].
    + apply Forall_app. split; [done|].
      eapply Forall_impl; [exact Hsup|]. intros e. apply supported_mono.
      intros a. apply (call_all_cache_mono ms).
    + rewrite undo_all_app. eapply state_sim_trans; [exact Hsim|].
      by apply undo_all_sim.
Qed.

(* revert to a snapshot of [S] from a state whose journal has grown by
   entries that bring it back to [S] *)
Lemma revert_sim S T new :
  journal T = new ++ journal S → trie T = trie S →
  state_sim S (undo_all new T) →
  in_compat_window (block_number (aux S)) = false →
  let R := with_aux (aux S) (with_journal (journal S) (undo_all new T)) in
  revert (trie S, length (journal S), aux S) T = (inr tt, R) ∧ state_sim S R.
Proof.
  intros Hj Ht Hsim Hc R. split; [|by apply state_sim_frame].
  rewrite revert_eq. cbv zeta.
  rewrite bool_decide_eq_false_2 by (by rewrite Ht; intros []).
  by rewrite Hc, andb_false_r, (replayed_app _ _ _ Hj).
Qed.

(** X18. Snapshots nest. With a snapshot taken, calls made, a second
    snapshot taken and more calls made, outside the compatibility rule for
    account 3: revert to the second snapshot returns and every getter
    answers as at the second snapshot, with the journal and the variables
    of that moment; a revert to the first snapshot then returns and every
    getter answers as at the first snapshot, with its journal, its
    variables and its trie. *)
Theorem nested_revert (S : State) (ms1 ms2 : list mutator)
    (H1 : in_compat_window (block_number (aux S)) = false)
    (H2 : in_compat_window (block_number (aux (call_all ms1 S))) = false) :
  let snap1 := (trie S, length (journal S), aux S) in
  let S1 := call_all ms1 S in
  let snap2 := (trie S1, length (journal S1), aux S1) in
  let S2 := call_all ms2 S1 in
  ∃ R2 R1, revert snap2 S2 = (inr tt, R2) ∧
           (∀ a f, read R2 a f = read S1 a f) ∧
           journal R2 = journal S1 ∧ aux R2 = aux S1 ∧
           revert snap1 R2 = (inr tt, R1) ∧
           (∀ a f, read R1 a f = read S a f) ∧
           (∀ a, touched_of R1 a = touched_of S a) ∧
           journal R1 = journal S ∧ aux R1 = aux S ∧ trie R1 = trie S.
Proof.
  intros snap1 S1 snap2 S2.
  destruct (call_all_undo_supported ms1 S) as (new1 & Hj1 & Hsup1 & Hsim1 & Ht1 & _).
  destruct (call_all_undo ms2 S1) as (new2 & Hj2 & Hsim2 & Ht2 & _).
  fold S1 in Hj1, Hsup1, Hsim1, Ht1. fold S2 in Hj2, Hsim2, Ht2.
  destruct (revert_sim S1 S2 new2 Hj2 Ht2 Hsim2 H2) as [Hrev2 HsimR2].
  set (R2 := with_aux (aux S1) (with_journal (journal S1) (undo_all new2 S2))) in *.
  assert (state_sim S (undo_all new1 R2)) as HsimU.
  { eapply state_sim_trans; [exact Hsim1|]. by apply undo_all_sim. }
  assert (trie R2 = trie S) as HtR2.
  { unfold R2. simpl. destruct (undo_all_fields new2 S2) as (-> & _).
    by rewrite Ht2. }
  destruct (revert_sim S R2 new1 Hj1 HtR2 HsimU H1) as [Hrev1 HsimR1].
  set (R1 := with_aux (aux S) (with_journal (journal S) (undo_all new1 R2))) in *.
  exists R2, R1. split; [done|]. split; [by apply state_sim_read|].
  split; [done|]. split; [done|]. split; [done|].
  split; [by apply state_sim_read|].
  split; [by apply state_sim_observe|]. split; [done|]. split; [done|].
  unfold R1. simpl. destruct (undo_all_fields new1 R2) as (-> & _). done.
Qed.

Lemma nested_revert_witness :
  let S1 := call_all [Set_nonce 1%N 4; Add_log (PyObj 1)] rich_committed in
  let S2 := call_all [Set_storage_data 1%N 7 0; Increment_nonce 2%N] S1 in
  ∃ R2 R1, revert (trie S1, length (journal S1), aux S1) S2 = (inr tt, R2) ∧
           (∀ a f, read R2 a f = read S1 a f) ∧
           journal R2 = journal S1 ∧ aux R2 = aux S1 ∧
           revert (trie rich_committed, length (journal rich_committed),
                   aux rich_committed) R2 = (inr tt, R1) ∧
           (∀ a f, read R1 a f = read rich_committed a f) ∧
           (∀ a, touched_of R1 a = touched_of rich_committed a) ∧
           journal R1 = journal rich_committed ∧ aux R1 = aux rich_committed ∧
           trie R1 = trie rich_committed.
Proof.
  apply (nested_revert rich_committed [Set_nonce 1%N 4; Add_log (PyObj 1)]
           [Set_storage_data 1%N 7 0; Increment_nonce 2%N]); reflexivity.
Defined.

(** ** Snapshots of the root only *)

Lemma restore_vars_root np depth x r :
  dict_wf (recent_uncles x) →
  restore_vars
    (mkSnapshotData None (Some r)
       (Some (txindex x)) (Some (gas_used x)) (Some (xshard_receive_gas_used x))
       (Some (gas_limit x)) (Some (block_number x)) (Some (block_coinbase x))
       (Some (block_difficulty x)) (Some (block_fee x)) (Some (timestamp x))
       (Some (bloom x))
       (if np : bool then None else Some (recent_uncles x))
       (if np then None
        else Some (map prev_header_to_dict (take depth (prev_headers x))))
       (Some (refunds x)) (Some (full_shard_key x)))
    STATE_DEFAULTS = carried_vars np depth x.
Proof.
  intros Hwf. unfold restore_vars, carried_vars. destruct np; [done|].
  cbn [s_recent_uncles s_prev_headers default s_txindex s_gas_used
         s_xshard_receive_gas_used s_gas_limit s_block_number s_block_coinbase
         s_block_difficulty s_block_fee s_timestamp s_bloom s_refunds
         s_full_shard_key].
  rewrite (fold_dict_set_new _ []) by done.
  rewrite map_map, (map_ext _ id), map_id; [done|].
  intros h. apply dict_to_prev_header_to_dict.
Qed.

(** X19. A snapshot of the root only restores the committed state,
    whatever the state: to_snapshot(root_only=True) reads no account and
    leaves the state as it is, and from_snapshot on its result returns a
    state with the same trie, an empty cache and journal, and the variables
    that a snapshot carries over; what was written and not committed is
    not part of it. *)
Theorem root_only_round_trip (S : State) (env : Config) (no_prevblocks eoh : bool)
    (Huncles : dict_wf (recent_uncles (aux S))) :
  ∃ d, to_snapshot true no_prevblocks S = (inr d, S) ∧
       from_snapshot d env eoh =
         inr (mkState (trie S) [] []
                (carried_vars no_prevblocks (PREV_HEADER_DEPTH (config S)) (aux S))
                [] eoh env).
Proof.
  eexists. split; [reflexivity|].
  unfold from_snapshot, from_snapshot_body.
  cbn [s_alloc s_state_root]. unfold bind at 1, modify at 1.
  unfold bind at 1, modify_aux at 1, modify at 1.
  cbn [aux with_aux with_trie State_init trie cache journal changed
       executing_on_head config].
  rewrite (restore_vars_root _ _ _ _ Huncles).
  by destruct eoh.
Qed.

Lemma root_only_round_trip_witness :
  ∃ d, to_snapshot true false uncommitted_state = (inr d, uncommitted_state) ∧
       from_snapshot d example_config false =
         inr (mkState (trie uncommitted_state) [] []
                (carried_vars false (PREV_HEADER_DEPTH (config uncommitted_state))
                   (aux uncommitted_state))
                [] false example_config).
Proof. apply root_only_round_trip. apply NoDup_nil_2. Defined.

(** ** Block hashes *)

(** X20. get_block_hash raises exactly when a header is missing: for
    a block number n between 0 and 256 that is not above block_number,
    get_block_hash(n) raises an IndexError if prev_headers holds no more
    than n headers, and returns otherwise; outside that range it returns
    32 zero bytes. After add_block_header(h), which puts h first,
    get_block_hash(0) is about h and get_block_hash(n + 1) returns what
    get_block_hash(n) returned before. *)
Theorem get_block_hash_spec (get_hash : FakeHeader → bytes)
    (truth_value : FakeHeader → bool) (S : State) (n : Z) :
  let in_range n := 0 ≤ n ∧ n ≤ 256 ∧ n ≤ block_number (aux S) in
  (get_block_hash get_hash truth_value n S = None ↔
   in_range n ∧ (length (prev_headers (aux S)) ≤ Z.to_nat n)%nat) ∧
  (¬ in_range n → get_block_hash get_hash truth_value n S = Some ZERO_HASH32) ∧
  ∀ h, ∃ S', add_block_header h S = (inr tt, S') ∧
             journal S' = journal S ∧
             (in_range 0 →
              get_block_hash get_hash truth_value 0 S'
              = Some (if truth_value h then get_hash h else ZERO_HASH32)) ∧
             (in_range (n + 1) → 0 ≤ n →
              get_block_hash get_hash truth_value (n + 1) S'
              = get_block_hash get_hash truth_value n S).
Proof.
  intros in_range. unfold get_block_hash. split; [|split].
  - repeat case_bool_decide; cbn [orb]; unfold in_range;
      try (split; [done|intros [? _]; lia]).
    destruct (prev_headers (aux S) !! Z.to_nat n) as [h|] eqn:Hh.
    + split; [done|]. intros [_ Hlen]. apply lookup_lt_Some in Hh. lia.
    + split; [|done]. intros _. apply lookup_ge_None in Hh. split; [lia|done].
  - unfold in_range. intros Hn. repeat case_bool_decide; cbn [orb]; try done.
    destruct Hn. lia.
  - intros h. eexists. split; [reflexivity|]. split; [done|].
    cbn [snd aux with_aux setattr_param prev_headers block_number]. split.
    + unfold in_range. intros (_ & _ & Hb).
      rewrite !bool_decide_eq_false_2 by lia. done.
    + unfold in_range. intros (_ & H256 & Hb) Hn.
      rewrite !bool_decide_eq_false_2 by lia. cbn [orb].
      replace (Z.to_nat (n + 1)) with (Datatypes.S (Z.to_nat n)) by lia. done.
Qed.

(* State() holds no header: get_block_hash(0) raises *)
Lemma get_block_hash_spec_witness :
  get_block_hash h_hash (λ _, true) 0 fresh_state = None.
Proof.
  apply (proj2 (proj1 (get_block_hash_spec h_hash (λ _, true) fresh_state 0))).
  vm_compute. repeat split; try discriminate. constructor.
Defined.

(** ** Dumps *)

Lemma dict_get_fold_set {K V} `{EqDecision K} (l d : dict K V) k :
  dict_get (fold_left (λ d kv, dict_set d kv.1 kv.2) l d) k =
    match dict_get (reverse l) k with
    | Some v => Some v
    | None => dict_get d k
    end.
Proof.
  revert d. induction l as [|[k0 v0] l IH]; intros d; [done|].
  cbn [fold_left fst snd]. rewrite IH, reverse_cons.
  assert (∀ (l1 l2 : dict K V), dict_get (l1 ++ l2) k =
            match dict_get l1 k with Some v => Some v | None => dict_get l2 k end)
    as Happ.
  { intros l1 l2. induction l1 as [|[k1 v1] l1 IHl]; [done|]. simpl.
    by destruct (decide (k = k1)). }
  rewrite Happ. destruct (dict_get (reverse l) k); [done|].
  rewrite dict_get_set. simpl. destruct (decide (k0 = k)) as [->|?].
  - by rewrite decide_True.
  - by rewrite decide_False.
Qed.

Lemma dict_get_reverse {K V} `{EqDecision K} (l : dict K V) k :
  dict_wf l → dict_get (reverse l) k = dict_get l k.
Proof.
  intros Hwf. apply dict_get_Permutation.
  - unfold dict_wf, dict_keys in *. by rewrite fmap_reverse, reverse_Permutation.
  - apply reverse_Permutation.
Qed.

Lemma fold_dict_set_wf {K V} `{EqDecision K} (l d : dict K V) :
  dict_wf d → dict_wf (fold_left (λ d kv, dict_set d kv.1 kv.2) l d).
Proof.
  revert d. induction l as [|[k v] l IH]; intros d Hwf; [done|].
  simpl. by apply IH, dict_set_wf.
Qed.

(** X21. Account.to_dict reports what the account reads: the nonce,
    the code and the balances are those of the object, and the storage
    dict has pairwise different keys and, for every slot, the value that
    get_storage_data returns for it, a cached slot taking precedence over
    the storage trie; a slot is listed if and only if it is in the cache
    or in the trie. *)
Theorem Account_to_dict_reads (x : Account) :
  dict_wf (storage_cache x) →
  let d := Account_to_dict x in
  d_nonce d = Some (nonce x) ∧ d_code d = Some (code_hash x) ∧
  d_token_balances d = Some (balances (token_balances x)) ∧ d_wei d = None ∧
  ∃ st, d_storage d = Some st ∧ dict_wf st ∧
        (∀ k, default 0 (dict_get st k) = storage_view x k) ∧
        (∀ k, is_Some (dict_get st k) ↔
              is_Some (dict_get (storage_cache x) k) ∨ is_Some (storage_trie x !! k)).
Proof.
  intros Hwf d. repeat split. eexists. split; [reflexivity|].
  split; [|split].
  - apply fold_dict_set_wf. apply NoDup_fst_map_to_list.
  - intros k. rewrite dict_get_fold_set, dict_get_reverse by done.
    unfold storage_view, storage_trie_get.
    destruct (dict_get (storage_cache x) k); [done|].
    by rewrite dict_get_map_to_list.
  - intros k. rewrite dict_get_fold_set, dict_get_reverse by done.
    rewrite dict_get_map_to_list.
    destruct (dict_get (storage_cache x) k) as [v|].
    + split; [by left|by eexists].
    + split; [by right|]. intros [[? [=]]|?]. done.
Qed.

Lemma Account_to_dict_reads_witness :
  let x := mkAccount 2 (mkTokenBalances [(0%N, 5)] [x00]) {[7 := 9]} [] 0
             [(7, 0); (8, 1)] {[7 := 9]} true true false in
  let d := Account_to_dict x in
  d_nonce d = Some (nonce x) ∧ d_code d = Some (code_hash x) ∧
  d_token_balances d = Some (balances (token_balances x)) ∧ d_wei d = None ∧
  ∃ st, d_storage d = Some st ∧ dict_wf st ∧
        (∀ k, default 0 (dict_get st k) = storage_view x k) ∧
        (∀ k, is_Some (dict_get st k) ↔
              is_Some (dict_get (storage_cache x) k) ∨ is_Some (storage_trie x !! k)).
Proof.
  apply (Account_to_dict_reads
           (mkAccount 2 (mkTokenBalances [(0%N, 5)] [x00]) {[7 := 9]} [] 0
              [(7, 0); (8, 1)] {[7 := 9]} true true false)).
  apply (bool_decide_unpack _). vm_compute. exact I.
Defined.

Lemma cache_account_cached S a x a' :
  view S a = inr x →
  is_Some (dict_get (cache (cache_account a x S)) a') ↔
  a' = a ∨ is_Some (dict_get (cache S) a').
Proof.
  intros Hv. destruct (decide (a' = a)) as [->|Hne].
  - rewrite (cache_account_get _ _ _ Hv). split; [by left|by eexists].
  - rewrite cache_account_get_ne by done. split; [by right|]. by intros [?|?].
Qed.

(* the loop of to_dict, which reads every account of the trie *)
Lemma cache_loop keys S S' :
  for_each keys (λ addr, get_and_cache_account addr >> ret tt) S = (inr tt, S') →
  trie S' = trie S ∧ journal S' = journal S ∧ aux S' = aux S ∧
  config S' = config S ∧
  (∀ a, view S' a = view S a) ∧
  (∀ a, is_Some (dict_get (cache S') a) ↔
        a ∈ keys ∨ is_Some (dict_get (cache S) a)).
Proof.
  revert S. induction keys as [|k ks IH]; intros S.
  - simpl. unfold ret. intros [= <-]. repeat split; try done.
    + by right.
    + intros [Hin|?]; [|done]. by apply elem_of_nil in Hin.
  - cbn [for_each]. unfold bind at 1. unfold bind at 1.
    rewrite get_and_cache_account_eq.
    destruct (view S k) as [e|x] eqn:Hv; [done|]. unfold ret at 1.
    intros Hloop. apply IH in Hloop as (Ht & Hj & Hx & Hc & Hview & Hdom).
    destruct (cache_account_fields S k x) as (Ht' & Hj' & Hx' & Hc' & _).
    split; [congruence|]. split; [congruence|]. split; [congruence|].
    split; [congruence|]. split.
    + intros a. by rewrite Hview, (cache_account_view _ _ _ _ Hv).
    + intros a. rewrite Hdom, (cache_account_cached _ _ _ _ Hv), elem_of_cons.
      tauto.
Qed.

(** X22. State.to_dict reports every account of the trie and of the
    cache as it is read: when it returns, the dict has an entry for an
    address if and only if the address is in the trie or in the cache, the
    entry is Account.to_dict of the account object that the state has for
    the address, and, although every account of the trie is now in the
    cache, the trie, the journal and what the getters return are as
    before. *)
Theorem to_dict_reads (S S' : State) (ds : dict address AccountDict)
    (Hrun : to_dict S = (inr ds, S')) :
  (∀ a, is_Some (dict_get ds a) ↔
        is_Some (trie S !! a) ∨ is_Some (dict_get (cache S) a)) ∧
  (∀ a d, dict_get ds a = Some d →
          ∃ x, view S a = inr x ∧ d = Account_to_dict x) ∧
  (∀ a f, read S' a f = read S a f) ∧
  trie S' = trie S ∧ journal S' = journal S ∧ aux S' = aux S.
Proof.
  unfold to_dict in Hrun. unfold bind at 1, gets at 1 in Hrun.
  unfold bind at 1 in Hrun.
  destruct (for_each _ _ S) as [[e|[]] S1] eqn:Hloop; [done|].
  unfold gets in Hrun. injection Hrun as <- <-.
  apply cache_loop in Hloop as (Ht & Hj & Hx & Hc & Hview & Hdom).
  assert (∀ a, dict_get (map (λ kv, (kv.1, Account_to_dict kv.2)) (cache S1)) a
               = Account_to_dict <$> dict_get (cache S1) a) as Hget.
  { intros a. apply (dict_get_fmap_snd (λ kv, Account_to_dict kv.2)). }
  split; [|split; [|split; [|done]]].
  - intros a. rewrite Hget, fmap_is_Some, Hdom.
    rewrite list_elem_of_fmap. split.
    + intros [([a' r] & -> & Hin)|?]; [|by right]. left.
      apply elem_of_map_to_list in Hin. by eexists.
    + intros [[r Hr]|?]; [|by right]. left. exists (a, r).
      split; [done|]. by apply elem_of_map_to_list.
  - intros a d. rewrite Hget. intros Hd.
    destruct (dict_get (cache S1) a) as [x|] eqn:Hc1; [|done].
    injection Hd as <-. exists x. split; [|done].
    by rewrite <-Hview, (view_cached _ _ _ Hc1).
  - intros a f. by rewrite !read_view, Hview.
Qed.

Lemma to_dict_reads_witness :
  let S := ((set_nonce 3%N 1) rich_committed).2 in
  let a := 3%N in
       is_Some (dict_get
                  [(3%N, Account_to_dict (mkAccount 1 (mkTokenBalances [] [x00]) ∅
                                             [] 0 [] ∅ true false false));
                   (2%N, Account_to_dict (mkAccount 3 (mkTokenBalances [] [x00]) ∅
                                             [] 0 [] ∅ false true false));
                   (1%N, Account_to_dict (mkAccount 0
                                             (mkTokenBalances [(0%N, 5)] [x00])
                                             {[7 := 9]} [] 0 [] {[7 := 9]}
                                             false true false))] a) ↔
       is_Some (trie S !! a) ∨ is_Some (dict_get (cache S) a).
Proof.
  intros S a.
  refine (proj1 (to_dict_reads S (to_dict S).2 _ _) a).
  vm_compute. reflexivity.
Defined.

(** ** Serializations tell balances apart *)

(** X23. serialize is injective up to the order of the dict: two
    TokenBalances that serialize to the same bytes hold the same pairs,
    whatever their order, so that balance() agrees on every token. *)
Theorem serialize_injective (tb1 tb2 : TokenBalances) (b : bytes)
    (Hwf1 : dict_wf (balances tb1)) (Hwf2 : dict_wf (balances tb2))
    (H1 : serialize tb1 = inr b) (H2 : serialize tb2 = inr b)
    (H64 : (N.of_nat (length b) < 2 ^ 64)%N) :
  balances tb1 ≡ₚ balances tb2 ∧
  ∀ t, tb_balance tb1 t = tb_balance tb2 t.
Proof.
  destruct (decode_serialized _ _ Hwf1 H1 H64) as (tb & Hinit1 & Hb1 & Ht1 & _).
  destruct (decode_serialized _ _ Hwf2 H2 H64) as (tb' & Hinit2 & Hb2 & Ht2 & _).
  rewrite Hinit1 in Hinit2. injection Hinit2 as <-. split.
  - by rewrite <-(pairs_of_sorted_Permutation tb1), <-Hb1, Hb2,
               pairs_of_sorted_Permutation.
  - intros t. by rewrite <-Ht1, Ht2.
Qed.

Lemma serialize_injective_witness :
  [(5%N, 7); (0%N, 9)] ≡ₚ [(0%N, 9); (5%N, 7)] ∧
  ∀ t, tb_balance (mkTokenBalances [(5%N, 7); (0%N, 9)] [x00]) t
       = tb_balance (mkTokenBalances [(0%N, 9); (5%N, 7)] [x00]) t.
Proof.
  apply (serialize_injective (mkTokenBalances [(5%N, 7); (0%N, 9)] [x00])
           (mkTokenBalances [(0%N, 9); (5%N, 7)] [x00])
           [x00; xc6; xc2; x80; x09; xc2; x05; x07]).
  - apply (bool_decide_unpack _). vm_compute. exact I.
  - apply (bool_decide_unpack _). vm_compute. exact I.
  - vm_compute. reflexivity.
  - vm_compute. reflexivity.
  - vm_compute. reflexivity.
Defined.

(** ** Addresses the state does not know *)

(** X24. An address that is neither in the trie nor in the cache reads
    as a blank account: the nonce is ACCOUNT_INITIAL_NONCE, the code is
    empty, every balance and every storage slot is 0, and
    get_full_shard_key returns the full_shard_key of the state. The
    account object is built at the first read and keeps that shard key:
    once the address was read, a later change of full_shard_key does not
    show in get_full_shard_key, while it does if the address was not
    read before. *)
Theorem unknown_address_reads (S : State) (a : address)
    (Htrie : trie S !! a = None) (Hcache : dict_get (cache S) a = None) :
  read S a F_nonce = inr (inl (ACCOUNT_INITIAL_NONCE (config S))) ∧
  read S a F_code = inr (inr []) ∧
  (∀ t, read S a (F_balance t) = inr (inl 0)) ∧
  (∀ k, read S a (F_storage k) = inr (inl 0)) ∧
  observe (get_full_shard_key a) S = inr (full_shard_key (aux S)) ∧
  ∀ v, observe (set_param (P_full_shard_key v) >> get_full_shard_key a) S
       = inr v ∧
       observe (get_nonce a >> set_param (P_full_shard_key v) >>
                get_full_shard_key a) S = inr (full_shard_key (aux S)).
Proof.
  assert (view S a = inr (mkAccount (ACCOUNT_INITIAL_NONCE (config S))
                            (mkTokenBalances [] [x00]) ∅ []
                            (full_shard_key (aux S)) [] ∅ false false false))
    as Hv.
  { unfold view, load. by rewrite Hcache, Htrie. }
  split; [by rewrite read_view, Hv|]. split; [by rewrite read_view, Hv|].
  split; [intros t; by rewrite read_view, Hv|].
  split; [intros k; by rewrite read_view, Hv|].
  split.
  { unfold observe, get_full_shard_key, bind.
    by rewrite get_and_cache_account_eq, Hv. }
  intros v. split.
  - unfold observe, bind, set_param, gets, journal_append, modify_aux, modify.
    cbn [fst snd]. unfold get_full_shard_key, bind.
    unfold get_and_cache_account, load.
    cbn [cache with_aux with_journal trie aux config]. rewrite Hcache, Htrie.
    by destruct (aux S).
  - unfold observe. unfold bind at 1. unfold get_nonce at 1, bind at 1.
    rewrite get_and_cache_account_eq, Hv. unfold ret at 1.
    unfold bind, set_param, gets, journal_append, modify_aux, modify.
    cbn [fst snd]. unfold get_full_shard_key, bind.
    rewrite (get_and_cache_account_cached _ a
               (mkAccount (ACCOUNT_INITIAL_NONCE (config S))
                  (mkTokenBalances [] [x00]) ∅ []
                  (full_shard_key (aux S)) [] ∅ false false false)); [done|].
    cbn [cache with_aux with_journal]. unfold cache_account. rewrite Hcache.
    cbn [cache with_cache]. apply dict_get_set_eq.
Qed.

Lemma unknown_address_reads_witness :
  read rich_committed 9%N F_nonce
  = inr (inl (ACCOUNT_INITIAL_NONCE (config rich_committed))) ∧
  read rich_committed 9%N F_code = inr (inr []) ∧
  (∀ t, read rich_committed 9%N (F_balance t) = inr (inl 0)) ∧
  (∀ k, read rich_committed 9%N (F_storage k) = inr (inl 0)) ∧
  observe (get_full_shard_key 9%N) rich_committed
  = inr (full_shard_key (aux rich_committed)) ∧
  ∀ v, observe (set_param (P_full_shard_key v) >> get_full_shard_key 9%N)
         rich_committed = inr v ∧
       observe (get_nonce 9%N >> set_param (P_full_shard_key v) >>
                get_full_shard_key 9%N) rich_committed
       = inr (full_shard_key (aux rich_committed)).
Proof. apply unknown_address_reads; reflexivity. Defined.

(** ** The order of the cache *)

Lemma entry_after_functional ae S x old new1 new2 :
  entry_after ae S x old new1 → entry_after ae S x old new2 → new1 = new2.
Proof.
  unfold entry_after. destruct (touched x || deleted x); [|congruence].
  destruct (account_exists_of S (Account_commit x) || ae); [|congruence].
  intros (tb1 & Hs1 & ->) (tb2 & Hs2 & ->). congruence.
Qed.

(** X25. The trie that commit leaves does not depend on the order in
    which the accounts came into the cache: two states with the same
    trie, variables and configuration whose caches hold the same account
    objects in a different order commit to the same trie. *)
Theorem commit_order_independent (ae : bool) (S T S' T' : State)
    (Hwf : dict_wf (cache S)) (Hperm : cache S ≡ₚ cache T)
    (Htrie : trie S = trie T) (Haux : aux S = aux T) (Hcfg : config S = config T)
    (HS : commit ae S = (inr tt, S')) (HT : commit ae T = (inr tt, T')) :
  trie S' = trie T'.
Proof.
  assert (dict_wf (cache T)) as HwfT.
  { unfold dict_wf, dict_keys in *. by rewrite <-Hperm. }
  destruct (commit_spec _ _ _ Hwf HS) as (_ & _ & _ & _ & HoutS & HinS).
  destruct (commit_spec _ _ _ HwfT HT) as (_ & _ & _ & _ & HoutT & HinT).
  apply map_eq. intros a.
  pose proof (dict_get_Permutation _ _ a Hwf Hperm) as Hget.
  destruct (dict_get (cache S) a) as [x|] eqn:Hx.
  - specialize (HinS a x Hx). specialize (HinT a x (eq_sym Hget)).
    apply (entry_after_ext ae T S x) in HinT; [|done..].
    rewrite <-Htrie in HinT. by eapply entry_after_functional.
  - rewrite (HoutS a Hx), (HoutT a (eq_sym Hget)). by rewrite Htrie.
Qed.

Lemma commit_order_independent_witness :
  trie (commit false ((set_nonce 1%N 4 >> set_nonce 2%N 5) fresh_state).2).2
  = trie (commit false ((set_nonce 2%N 5 >> set_nonce 1%N 4) fresh_state).2).2.
Proof.
  refine (commit_order_independent false
            ((set_nonce 1%N 4 >> set_nonce 2%N 5) fresh_state).2
            ((set_nonce 2%N 5 >> set_nonce 1%N 4) fresh_state).2
            _ _ _ _ _ _ _ _ _).
  - apply (bool_decide_unpack _). vm_compute. exact I.
  - vm_compute. apply perm_swap.
  - reflexivity.
  - reflexivity.
  - reflexivity.
  - vm_compute. reflexivity.
  - vm_compute. reflexivity.
Defined.

(** ** Balances dicts as objects *)

Section byref_facts.
Import ByRef.
Local Open Scope byref_scope.

Lemma foldr_max_ge (l : list N) k : k ∈ l → (k ≤ foldr N.max 0 l)%N.
Proof.
  induction l as [|k' l IH]; [by intros ?%elem_of_nil|].
  intros [->|Hin]%elem_of_cons; simpl; [lia|]. specialize (IH Hin). lia.
Qed.

Lemma fresh_ref_fresh (h : gmap ref (dict N Z)) : h !! fresh_ref h = None.
Proof.
  destruct (h !! fresh_ref h) as [d|] eqn:Hd; [|done]. exfalso.
  assert (fresh_ref h ∈ (map_to_list h).*1) as Hin.
  { apply list_elem_of_fmap. exists (fresh_ref h, d). split; [done|].
    by apply elem_of_map_to_list. }
  apply foldr_max_ge in Hin. unfold fresh_ref in Hin.
  exact (N.nle_succ_diag_l _ Hin).
Qed.

Lemma byref_bind_inr {A B} (m : M A) (f : A → M B) S x S' :
  m S = (inr x, S') → bind m f S = f x S'.
Proof. unfold bind. by intros ->. Qed.

Lemma byref_bind_inl {A B} (m : M A) (f : A → M B) S e S' :
  m S = (inl e, S') → bind m f S = (inl e, S').
Proof. unfold bind. by intros ->. Qed.

Lemma byref_get_and_cache_account_eq S a :
  get_and_cache_account a S =
    match dict_get (cache S) a with
    | Some x => (inr x, S)
    | None =>
        match built S a with
        | inl e => (inl e, S)
        | inr (x, d) =>
            (inr x, with_cache (dict_set (cache S) a x)
                      (with_dicts (<[fresh_ref (dicts S) := d]> (dicts S)) S))
        end
    end.
Proof.
  unfold get_and_cache_account, built. unfold bind at 1, gets at 1.
  destruct (dict_get (cache S) a) as [x|]; [done|].
  unfold bind at 1, gets at 1. destruct (trie S !! a) as [o|].
  - unfold bind at 1, Account_init.
    by destruct (TokenBalances_init (acc_token_balances o)) as [e|[d en]].
  - done.
Qed.

Lemma built_ref S a x d : built S a = inr (x, d) → balances x = fresh_ref (dicts S).
Proof.
  unfold built. destruct (trie S !! a) as [o|].
  - destruct (TokenBalances_init _) as [e|[d' en]]; [done|]. by intros [= <- <-].
  - by intros [= <- <-].
Qed.

Lemma seen_uncached_ext S S' a :
  trie S' = trie S → aux S' = aux S → config S' = config S →
  dict_get (cache S) a = None → dict_get (cache S') a = None →
  seen S' a = seen S a.
Proof.
  intros Ht Hx Hc Hn Hn'. unfold seen, built. rewrite Hn, Hn', Ht, Hx, Hc.
  destruct (trie S !! a) as [o|]; [|done].
  by destruct (TokenBalances_init _) as [e|[d en]].
Qed.

Lemma byref_balance_of_seen S a t :
  balance_of S a t =
    match seen S a with
    | inl e => inl e
    | inr i => inr (default 0 (dict_get i.1.1 t))
    end.
Proof.
  unfold balance_of, observe, get_balance. unfold bind at 1, ret at 1.
  unfold bind. rewrite byref_get_and_cache_account_eq. unfold seen.
  destruct (dict_get (cache S) a) as [x|]; [done|].
  destruct (built S a) as [e|[x d]] eqn:Hb; [done|].
  unfold gets, deref. cbn. apply built_ref in Hb as ->.
  by rewrite lookup_insert_eq.
Qed.

Lemma byref_get_nonce_seen S a :
  observe (get_nonce a) S =
    match seen S a with inl e => inl e | inr i => inr i.1.2 end.
Proof.
  unfold observe, get_nonce, bind, ret. rewrite byref_get_and_cache_account_eq.
  unfold seen. destruct (dict_get (cache S) a) as [x|]; [done|].
  by destruct (built S a) as [e|[x d]].
Qed.

Lemma byref_get_code_seen S a :
  observe (get_code a) S =
    match seen S a with inl e => inl e | inr i => inr i.2 end.
Proof.
  unfold observe, get_code, bind, ret. rewrite byref_get_and_cache_account_eq.
  unfold seen. destruct (dict_get (cache S) a) as [x|]; [done|].
  by destruct (built S a) as [e|[x d]].
Qed.

Lemma evolves_refl S : wf S → evolves S S (λ _ d, d).
Proof.
  intros Hwf. repeat split; try done. intros a.
  by destruct (seen S a) as [e|[[d n] c]].
Qed.

Lemma evolves_trans S S1 S2 F G :
  evolves S S1 F → evolves S1 S2 G → evolves S S2 (λ a d, G a (F a d)).
Proof.
  intros (_ & Ht1 & Hx1 & Hc1 & Hs1 & Hm1 & Hseen1)
         (Hwf & Ht2 & Hx2 & Hc2 & Hs2 & Hm2 & Hseen2).
  split; [done|]. split; [congruence|]. split; [congruence|].
  split; [congruence|]. split; [intros; by rewrite Hs2, Hs1|].
  split; [intros; by apply Hm2, Hm1|].
  intros a. rewrite Hseen2, Hseen1. by destruct (seen S a) as [e|[[d n] c]].
Qed.

Lemma evolves_ext S S' F G :
  (∀ a i, seen S a = inr i → F a i.1.1 = G a i.1.1) →
  evolves S S' F → evolves S S' G.
Proof.
  intros Hext (Hwf & Ht & Hx & Hc & Hs & Hm & Hseen).
  repeat split; try done. intros a. rewrite Hseen.
  destruct (seen S a) as [e|i] eqn:Hi; [done|]. by rewrite (Hext a i Hi).
Qed.

Lemma seen_cached S a x :
  dict_get (cache S) a = Some x →
  seen S a = inr (deref S (balances x), nonce x, code_hash x).
Proof. unfold seen. by intros ->. Qed.

Lemma shares_refl S a : shares S a a = true.
Proof. unfold shares. by rewrite bool_decide_eq_true_2. Qed.

Lemma shares_cached S a b x :
  dict_get (cache S) a = Some x →
  shares S a b = bool_decide (a = b) ||
                 match dict_get (cache S) b with
                 | Some y => bool_decide (balances x = balances y)
                 | None => false
                 end.
Proof. unfold shares. by intros ->. Qed.

(* accounts that hold the same dict see the same entries *)
Lemma shares_seen S a b i :
  shares S a b = true → seen S a = inr i →
  ∃ j, seen S b = inr j ∧ j.1.1 = i.1.1.
Proof.
  unfold shares. intros Hs Hi. apply orb_true_iff in Hs as [Hs|Hs].
  - apply bool_decide_eq_true in Hs as <-. by exists i.
  - destruct (dict_get (cache S) a) as [x|] eqn:Hx; [|done].
    destruct (dict_get (cache S) b) as [y|] eqn:Hy; [|done].
    apply bool_decide_eq_true in Hs.
    rewrite (seen_cached _ _ _ Hx) in Hi. injection Hi as <-.
    rewrite (seen_cached _ _ _ Hy). eexists. split; [done|]. simpl.
    by rewrite Hs.
Qed.

(* the first access to an account caches its object, with a dict of its
   own, and changes nothing that is seen *)
Lemma cache_step S a :
  wf S →
  match seen S a with
  | inl e => get_and_cache_account a S = (inl e, S)
  | inr _ =>
      ∃ x S1, get_and_cache_account a S = (inr x, S1) ∧
              dict_get (cache S1) a = Some x ∧ evolves S S1 (λ _ d, d)
  end.
Proof.
  intros Hwf. rewrite byref_get_and_cache_account_eq. unfold seen at 1.
  destruct (dict_get (cache S) a) as [x|] eqn:Hx.
  { exists x, S. split; [done|]. split; [done|]. by apply evolves_refl. }
  destruct (built S a) as [e|[x d]] eqn:Hb; [done|].
  pose proof (built_ref _ _ _ _ Hb) as Hr.
  pose proof (fresh_ref_fresh (dicts S)) as Hfresh.
  eexists _, _. split; [reflexivity|]. split; [by cbn; rewrite dict_get_set_eq|].
  assert (∀ b y, dict_get (cache S) b = Some y → balances y ≠ fresh_ref (dicts S))
    as Hne.
  { intros b y Hy Heq. destruct (Hwf b y Hy) as [d' Hd'].
    rewrite Heq in Hd'. by rewrite Hfresh in Hd'. }
  split; [|split; [done|split; [done|split; [done|split; [|split]]]]].
  - intros b y. cbn. rewrite dict_get_set.
    destruct (decide (a = b)) as [<-|?].
    + intros [= <-]. rewrite Hr, lookup_insert_eq. by eexists.
    + intros Hy. rewrite lookup_insert_ne by (by apply not_eq_sym, (Hne b)).
      by apply (Hwf b).
  - intros b c. unfold shares. cbn. rewrite !dict_get_set.
    destruct (decide (b = c)) as [<-|Hbc];
      [by rewrite !bool_decide_eq_true_2|].
    rewrite !(bool_decide_eq_false_2 (b = c)) by done. cbn [orb].
    destruct (decide (a = b)) as [<-|?], (decide (a = c)) as [<-|?]; try done.
    + rewrite Hx. destruct (dict_get (cache S) c) as [y|] eqn:Hy; [|done].
      apply bool_decide_eq_false_2. rewrite Hr. by apply not_eq_sym, (Hne c).
    + rewrite Hx. destruct (dict_get (cache S) b) as [y|] eqn:Hy; [|done].
      apply bool_decide_eq_false_2. rewrite Hr. by apply (Hne b).
  - intros b [y Hy]. cbn. rewrite dict_get_set.
    destruct (decide (a = b)); by eexists.
  - intros b. destruct (decide (a = b)) as [<-|Hab].
    + unfold seen. cbn [cache with_cache]. rewrite dict_get_set_eq, Hx, Hb.
      unfold deref. cbn. by rewrite Hr, lookup_insert_eq.
    + destruct (dict_get (cache S) b) as [y|] eqn:Hy.
      * rewrite (seen_cached S b y Hy).
        rewrite (seen_cached _ b y) by (cbn; by rewrite dict_get_set_ne).
        unfold deref. cbn.
        by rewrite lookup_insert_ne by (by apply not_eq_sym, (Hne b)).
      * erewrite (seen_uncached_ext S _ b);
          [by destruct (seen S b) as [e|[[d' n'] c']]|done..|].
        cbn. by rewrite dict_get_set_ne.
Qed.

Lemma touch_step S a x v :
  wf S → dict_get (cache S) a = Some x →
  ∃ S', set_and_journal a (A_touched v) S = (inr tt, S') ∧
        dict_get (cache S') a = Some (setattr (A_touched v) x) ∧
        evolves S S' (λ _ d, d).
Proof.
  intros Hwf Hx. unfold set_and_journal. unfold bind at 1.
  rewrite byref_get_and_cache_account_eq, Hx.
  unfold bind, journal_append, update_account, modify. cbn. rewrite Hx.
  eexists. split; [reflexivity|]. split; [by cbn; rewrite dict_get_set_eq|].
  split; [|split; [done|split; [done|split; [done|split; [|split]]]]].
  - intros b y. cbn. rewrite dict_get_set.
    destruct (decide (a = b)) as [<-|?]; [|by apply Hwf].
    intros [= <-]. cbn. by apply (Hwf a).
  - intros b c. unfold shares. cbn. rewrite !dict_get_set.
    destruct (decide (a = b)) as [<-|?], (decide (a = c)) as [<-|?];
      rewrite ?Hx; done.
  - intros b [y Hy]. cbn. rewrite dict_get_set.
    destruct (decide (a = b)); by eexists.
  - intros b. destruct (decide (a = b)) as [<-|Hab].
    + rewrite (seen_cached S a x Hx).
      by rewrite (seen_cached _ a (setattr (A_touched v) x))
        by (cbn; by rewrite dict_get_set_eq).
    + destruct (dict_get (cache S) b) as [y|] eqn:Hy.
      * rewrite (seen_cached S b y Hy).
        by rewrite (seen_cached _ b y) by (cbn; by rewrite dict_get_set_ne).
      * erewrite (seen_uncached_ext S _ b);
          [by destruct (seen S b) as [e|[[d' n'] c']]|done..|].
        cbn. by rewrite dict_get_set_ne.
Qed.

(* the write of an entry shows in every account that holds the dict *)
Lemma write_step S a x t val :
  wf S → dict_get (cache S) a = Some x →
  ∃ S', _set_token_balance_and_journal a t val S = (inr tt, S') ∧
        dict_get (cache S') a = Some x ∧
        evolves S S' (λ b d, if shares S a b then dict_set d t val else d).
Proof.
  intros Hwf Hx. unfold _set_token_balance_and_journal. unfold bind at 1.
  rewrite byref_get_and_cache_account_eq, Hx.
  unfold bind at 1, gets at 1.
  set (u := match dict_get (deref S (balances x)) t with
            | Some preval => USetToken a t preval
            | None => UPopToken a t
            end).
  assert (∀ k : unit → M unit,
            bind (match dict_get (deref S (balances x)) t with
                  | Some preval => journal_append (USetToken a t preval)
                  | None => journal_append (UPopToken a t)
                  end) k S = k tt (with_journal (u :: journal S) S)) as ->.
  { intros k. unfold u, bind.
    by destruct (dict_get (deref S (balances x)) t). }
  unfold modify. eexists. split; [reflexivity|]. split; [done|].
  destruct (Hwf a x Hx) as [dx Hdx].
  split; [|split; [done|split; [done|split; [done|split; [done|split; [done|]]]]]].
  - intros b y Hy. cbn in *. specialize (Hwf b y Hy).
    destruct (decide (balances x = balances y)) as [<-|?].
    + rewrite lookup_insert_eq. by eexists.
    + by rewrite lookup_insert_ne.
  - intros b. destruct (dict_get (cache S) b) as [y|] eqn:Hy.
    + rewrite (seen_cached S b y Hy), (seen_cached _ b y) by done.
      rewrite (shares_cached S a b x Hx), Hy. unfold deref. cbn.
      destruct (decide (balances x = balances y)) as [Heq|Hne].
      * rewrite (bool_decide_eq_true_2 _ Heq), orb_true_r.
        by rewrite <-Heq, lookup_insert_eq.
      * rewrite (bool_decide_eq_false_2 _ Hne), orb_false_r.
        rewrite lookup_insert_ne by done.
        rewrite bool_decide_eq_false_2; [done|].
        intros <-. rewrite Hx in Hy. by injection Hy as <-.
    + rewrite (shares_cached S a b x Hx), Hy, orb_false_r.
      rewrite bool_decide_eq_false_2 by (intros <-; by rewrite Hx in Hy).
      erewrite (seen_uncached_ext S _ b);
        [by destruct (seen S b) as [e|[[d' n'] c']]|done..].
Qed.

Lemma evolves_balance_of S S' F a t :
  evolves S S' F →
  balance_of S' a t =
    match seen S a with
    | inl e => inl e
    | inr i => inr (default 0 (dict_get (F a i.1.1) t))
    end.
Proof.
  intros (_ & _ & _ & _ & _ & _ & Hseen).
  rewrite byref_balance_of_seen, Hseen. by destruct (seen S a).
Qed.

Lemma evolves_id_balance_of S S' a t :
  evolves S S' (λ _ d, d) → balance_of S' a t = balance_of S a t.
Proof.
  intros Hev. by rewrite (evolves_balance_of _ _ _ _ _ Hev), byref_balance_of_seen.
Qed.

Lemma evolves_static S S' F a :
  evolves S S' F →
  observe (get_nonce a) S' = observe (get_nonce a) S ∧
  observe (get_code a) S' = observe (get_code a) S.
Proof.
  intros (_ & _ & _ & _ & _ & _ & Hseen).
  rewrite !byref_get_nonce_seen, !byref_get_code_seen, Hseen.
  by destruct (seen S a).
Qed.

Lemma get_balance_step S a t b :
  wf S → balance_of S a t = inr b →
  ∃ S0, get_balance a (Some t) S = (inr b, S0) ∧ evolves S S0 (λ _ d, d).
Proof.
  intros Hwf Hb. pose proof (cache_step S a Hwf) as Hstep.
  unfold balance_of, observe in Hb. unfold get_balance in *.
  unfold bind at 1, ret at 1 in Hb. unfold bind at 1, ret at 1.
  destruct (seen S a) as [e|i].
  { rewrite (byref_bind_inl _ _ _ _ _ Hstep) in Hb. done. }
  destruct Hstep as (x & S1 & Hget & Hx & Hev).
  rewrite (byref_bind_inr _ _ _ _ _ Hget) in Hb.
  rewrite (byref_bind_inr _ _ _ _ _ Hget).
  unfold gets in *. cbn in Hb. injection Hb as <-. by exists S1.
Qed.

Lemma delta_step S a t v i :
  wf S → seen S a = inr i →
  ∃ S', delta_token_balance a t v S = (inr tt, S') ∧
        evolves S S'
          (λ b d, if shares S a b && negb (bool_decide (v = 0))
                  then dict_set d t (default 0 (dict_get i.1.1 t) + v) else d).
Proof.
  intros Hwf Hi. pose proof (cache_step S a Hwf) as Hstep. rewrite Hi in Hstep.
  destruct Hstep as (x & S1 & Hget & Hx & Hev1).
  unfold delta_token_balance. rewrite (byref_bind_inr _ _ _ _ _ Hget).
  pose proof Hev1 as (Hwf1 & _ & _ & _ & Hs1 & _ & Hseen1).
  case_bool_decide as Hv.
  - destruct (touch_step S1 a x true Hwf1 Hx) as (S' & Hrun & _ & Hev2).
    exists S'. split; [done|].
    eapply evolves_ext; [|exact (evolves_trans _ _ _ _ _ Hev1 Hev2)].
    intros b j _. cbn. by rewrite andb_false_r.
  - unfold bind at 1, gets at 1.
    assert (deref S1 (balances x) = i.1.1) as Hd.
    { specialize (Hseen1 a). rewrite Hi, (seen_cached _ _ _ Hx) in Hseen1.
      by injection Hseen1 as -> _ _. }
    rewrite Hd.
    destruct (write_step S1 a x t (default 0 (dict_get i.1.1 t) + v) Hwf1 Hx)
      as (S2 & Hw & Hx2 & Hev2).
    rewrite (byref_bind_inr _ _ _ _ _ Hw).
    pose proof Hev2 as (Hwf2 & _).
    destruct (touch_step S2 a x true Hwf2 Hx2) as (S' & Hrun & _ & Hev3).
    exists S'. split; [done|].
    eapply evolves_ext;
      [|exact (evolves_trans _ _ _ _ _ Hev1 (evolves_trans _ _ _ _ _ Hev2 Hev3))].
    intros b j _. cbn. by rewrite Hs1, andb_true_r.
Qed.

(* adding to an entry of the dict of [a] shows in the balance of every
   account that holds that dict, and in no other *)
Lemma delta_spec S a t v b :
  wf S → balance_of S a t = inr b →
  ∃ S', delta_token_balance a t v S = (inr tt, S') ∧ wf S' ∧
        trie S' = trie S ∧
        (∀ c c', shares S' c c' = shares S c c') ∧
        (∀ a' t', balance_of S' a' t' = adjust S a t v a' t' (balance_of S a' t')) ∧
        (∀ a', observe (get_nonce a') S' = observe (get_nonce a') S ∧
               observe (get_code a') S' = observe (get_code a') S).
Proof.
  intros Hwf Hb. rewrite byref_balance_of_seen in Hb.
  destruct (seen S a) as [e|i] eqn:Hi; [done|]. injection Hb as Hb.
  destruct (delta_step S a t v i Hwf Hi) as (S' & Hrun & Hev).
  exists S'. split; [done|]. pose proof Hev as (Hwf' & Ht & _ & _ & Hs & _ & _).
  split; [done|]. split; [done|]. split; [done|].
  split; [|intros a'; by eapply evolves_static].
  intros a' t'. rewrite (evolves_balance_of _ _ _ _ _ Hev), byref_balance_of_seen.
  destruct (seen S a') as [e|j] eqn:Hj; [done|]. unfold adjust.
  destruct (shares S a a') eqn:Hsh; [|done]. cbn [andb].
  destruct (shares_seen _ _ _ _ Hsh Hi) as (j' & Hj' & Heq).
  rewrite Hj in Hj'. injection Hj' as <-.
  case_bool_decide as Hv; cbn [negb].
  - subst v. case_bool_decide; f_equal; lia.
  - rewrite dict_get_set. case_bool_decide as Ht'.
    + subst t'. rewrite decide_True by done. cbn. by rewrite Heq, Hb.
    + by rewrite decide_False by (by apply not_eq_sym).
Qed.

Lemma adjust_inr S a0 t0 d a t r b :
  adjust S a0 t0 d a t r = inr b →
  ∃ b0, r = inr b0 ∧
        b = if shares S a0 a && bool_decide (t = t0) then b0 + d else b0.
Proof.
  unfold adjust. destruct r as [e|b0]; [done|].
  destruct (shares S a0 a && bool_decide (t = t0)); intros [= <-]; by exists b0.
Qed.

(* accounts that hold the same dict read the same balances *)
Lemma shares_balance_of S a b t :
  shares S a b = true → ∀ v, balance_of S a t = inr v → balance_of S b t = inr v.
Proof.
  intros Hsh v. rewrite !byref_balance_of_seen.
  destruct (seen S a) as [e|i] eqn:Hi; [done|].
  destruct (shares_seen _ _ _ _ Hsh Hi) as (j & -> & ->). done.
Qed.

Lemma shares_sym S a b : shares S a b = shares S b a.
Proof.
  unfold shares. rewrite (bool_decide_ext (a = b) (b = a)) by done.
  destruct (dict_get (cache S) a), (dict_get (cache S) b); try done.
  f_equal. by apply bool_decide_ext.
Qed.

Lemma shares_trans S a b c :
  shares S a b = true → shares S b c = true → shares S a c = true.
Proof.
  unfold shares. intros [Hab|Hab]%orb_true_iff [Hbc|Hbc]%orb_true_iff.
  - apply bool_decide_eq_true in Hab as ->, Hbc as ->.
    by rewrite bool_decide_eq_true_2.
  - apply bool_decide_eq_true in Hab as ->. by rewrite Hbc, orb_true_r.
  - apply bool_decide_eq_true in Hbc as <-. by rewrite Hab, orb_true_r.
  - destruct (dict_get (cache S) a), (dict_get (cache S) b),
      (dict_get (cache S) c); try done.
    apply bool_decide_eq_true in Hab, Hbc.
    rewrite (bool_decide_eq_true_2 (balances _ = balances _)) by congruence.
    apply orb_true_r.
Qed.

Lemma wf_check S :
  forallb (λ kv, bool_decide (is_Some (dicts S !! balances kv.2))) (cache S) = true →
  wf S.
Proof.
  intros Hall a x Hx. apply dict_get_Some_elem, list_elem_of_In in Hx.
  rewrite forallb_forall in Hall. specialize (Hall _ Hx).
  by apply bool_decide_eq_true in Hall.
Qed.

Lemma transfer_nonneg S S' a0 t0 v bal :
  0 ≤ v → v ≤ bal → balance_of S a0 t0 = inr bal →
  (∀ a t, ∃ c : bool,
     balance_of S' a t =
       match adjust S a0 t0 (- v) a t (balance_of S a t) with
       | inl e => inl e
       | inr b => if c then inr (b + v) else inr b
       end) →
  nonneg S → nonneg S'.
Proof.
  intros Hv Hle Hbal Hform Hnn a t b Hb.
  destruct (Hform a t) as [c Hc]. rewrite Hc in Hb. clear Hc.
  destruct (adjust S a0 t0 (- v) a t (balance_of S a t)) as [e|b1] eqn:Hadj;
    [done|].
  apply adjust_inr in Hadj as (b0 & Hb0 & ->).
  assert (0 ≤ if shares S a0 a && bool_decide (t = t0) then b0 + - v else b0)
    as Hb1.
  { destruct (shares S a0 a) eqn:Hsh; cbn [andb]; [|by eapply Hnn].
    case_bool_decide as Ht; [|by eapply Hnn]. subst t.
    rewrite (shares_balance_of _ _ _ _ Hsh _ Hbal) in Hb0.
    injection Hb0 as <-. lia. }
  destruct c; injection Hb as <-; lia.
Qed.

(** C3. For a state whose cached account objects hold dicts of the
    store, a non-negative amount and a sender whose balance can be read:
    when the balance covers the amount and the balance of the receiver
    can be read, transfer_value returns True, having subtracted the
    amount from the entry of the token in the dict that the sender holds
    and added it to the entry in the dict that the receiver holds, so that
    the debit shows in every account that holds the sender's dict, the
    credit in every account that holds the receiver's, and every other
    balance is as before; if the two hold different dicts the sender
    reads the balance less the amount and the receiver its balance plus
    the amount, and if they hold the same dict every balance is as before.
    When the balance does not cover the amount, transfer_value returns
    False with every balance as before. deduct_value does the same without
    a credit. When no balance is negative before either operation, none is
    negative after it. *)
Theorem transfer_value_spec (S : State) (from_addr to_addr : address) (t : N)
    (value bal : Z)
    (Hwf : wf S) (Hvalue : 0 ≤ value)
    (Hfrom : balance_of S from_addr t = inr bal) :
  (value ≤ bal → ∀ bt, balance_of S to_addr t = inr bt →
     ∃ S', transfer_value from_addr to_addr t value S = (inr true, S') ∧
           (∀ a t', balance_of S' a t' =
                      adjust S to_addr t value a t'
                        (adjust S from_addr t (- value) a t' (balance_of S a t'))) ∧
           (shares S from_addr to_addr = false →
            balance_of S' from_addr t = inr (bal - value) ∧
            balance_of S' to_addr t = inr (bt + value)) ∧
           (shares S from_addr to_addr = true →
            ∀ a t', balance_of S' a t' = balance_of S a t') ∧
           (nonneg S → nonneg S')) ∧
  (bal < value →
     ∃ S', transfer_value from_addr to_addr t value S = (inr false, S') ∧
           (∀ a t', balance_of S' a t' = balance_of S a t') ∧
           (nonneg S → nonneg S')) ∧
  (value ≤ bal →
     ∃ S', deduct_value from_addr t value S = (inr true, S') ∧
           (∀ a t', balance_of S' a t' =
                      adjust S from_addr t (- value) a t' (balance_of S a t')) ∧
           (nonneg S → nonneg S')) ∧
  (bal < value →
     ∃ S', deduct_value from_addr t value S = (inr false, S') ∧
           (∀ a t', balance_of S' a t' = balance_of S a t') ∧
           (nonneg S → nonneg S')).
Proof.
  destruct (get_balance_step S from_addr t bal Hwf Hfrom) as (S0 & Hget & Hev0).
  pose proof Hev0 as (Hwf0 & _ & _ & _ & Hs0 & _ & _).
  assert (Hbal0 : ∀ a t', balance_of S0 a t' = balance_of S a t')
    by (intros; by apply evolves_id_balance_of).
  assert (Hadj0 : ∀ a0 t0 d a t' r, adjust S0 a0 t0 d a t' r = adjust S a0 t0 d a t' r)
    by (intros; unfold adjust; by rewrite Hs0).
  assert (Hnn0 : nonneg S → nonneg S0).
  { intros Hnn a t' b. rewrite Hbal0. apply Hnn. }
  assert (Hfail : ∀ (k : M bool),
            bal < value →
            (assert (bool_decide (0 ≤ value)) >>
             do b <- get_balance from_addr (Some t);
             if bool_decide (value ≤ b) then k else ret false) S
            = (inr false, S0)).
  { intros k Hlt. rewrite bool_decide_eq_true_2 by done. unfold assert.
    unfold bind at 1, ret at 1. rewrite (byref_bind_inr _ _ _ _ _ Hget).
    by rewrite bool_decide_eq_false_2 by lia. }
  assert (Hok : ∀ (k : M bool),
            value ≤ bal →
            (assert (bool_decide (0 ≤ value)) >>
             do b <- get_balance from_addr (Some t);
             if bool_decide (value ≤ b) then k else ret false) S
            = k S0).
  { intros k Hle. rewrite bool_decide_eq_true_2 by done. unfold assert.
    unfold bind at 1, ret at 1. rewrite (byref_bind_inr _ _ _ _ _ Hget).
    by rewrite bool_decide_eq_true_2 by lia. }
  destruct (delta_spec S0 from_addr t (- value) bal Hwf0)
    as (S1 & Hd1 & Hwf1 & _ & Hs1 & Hbal1 & _); [by rewrite Hbal0|].
  split; [|split; [|split]].
  - intros Hle bt Hto. unfold transfer_value. rewrite (Hok _ Hle).
    rewrite (byref_bind_inr _ _ _ _ _ Hd1).
    assert (∃ bt1, balance_of S1 to_addr t = inr bt1) as [bt1 Hto1].
    { rewrite Hbal1, Hbal0, Hto. unfold adjust.
      destruct (_ && _); by eexists. }
    destruct (delta_spec S1 to_addr t value bt1 Hwf1 Hto1)
      as (S2 & Hd2 & Hwf2 & _ & Hs2 & Hbal2 & _).
    rewrite (byref_bind_inr _ _ _ _ _ Hd2). unfold ret.
    exists S2. split; [done|].
    assert (Hform : ∀ a t', balance_of S2 a t' =
              adjust S to_addr t value a t'
                (adjust S from_addr t (- value) a t' (balance_of S a t'))).
    { intros a t'. rewrite Hbal2, Hbal1, Hbal0, Hadj0. unfold adjust.
      by rewrite Hs1, Hs0. }
    split; [done|]. split; [|split].
    + intros Hsh. rewrite !Hform, Hfrom, Hto. unfold adjust.
      rewrite !shares_refl, (shares_sym S to_addr from_addr), Hsh.
      rewrite !bool_decide_eq_true_2 by done. cbn [andb].
      split; f_equal; lia.
    + intros Hsh a t'. rewrite Hform. unfold adjust.
      destruct (balance_of S a t') as [e|b0]; [done|].
      assert (shares S to_addr a = shares S from_addr a) as ->.
      { destruct (shares S from_addr a) eqn:Hfa.
        - apply (shares_trans _ _ from_addr); [|done].
          by rewrite shares_sym.
        - destruct (shares S to_addr a) eqn:Hta; [|done].
          by rewrite (shares_trans _ _ _ _ Hsh Hta) in Hfa. }
      destruct (shares S from_addr a && bool_decide (t' = t)); f_equal; lia.
    + apply (transfer_nonneg S S2 from_addr t value bal); try done.
      intros a t'. exists (shares S to_addr a && bool_decide (t' = t)).
      rewrite Hform. unfold adjust at 1.
      by destruct (adjust S from_addr t (- value) a t' (balance_of S a t')).
  - intros Hlt. unfold transfer_value. rewrite (Hfail _ Hlt).
    exists S0. split; [done|]. split; [done|]. done.
  - intros Hle. unfold deduct_value. rewrite (Hok _ Hle).
    rewrite (byref_bind_inr _ _ _ _ _ Hd1). unfold ret.
    exists S1. split; [done|].
    assert (Hform : ∀ a t', balance_of S1 a t' =
              adjust S from_addr t (- value) a t' (balance_of S a t')).
    { intros a t'. by rewrite Hbal1, Hbal0, Hadj0. }
    split; [done|].
    apply (transfer_nonneg S S1 from_addr t value bal); try done.
    intros a t'. exists false. rewrite Hform.
    by destruct (adjust S from_addr t (- value) a t' (balance_of S a t')).
  - intros Hlt. unfold deduct_value. rewrite (Hfail _ Hlt).
    exists S0. split; [done|]. split; [done|]. done.
Qed.

(* the sender and the receiver hold one dict each, the accounts 1 and 3
   of a state in which the accounts 1 and 2 hold the same *)
Lemma transfer_value_spec_witness :
  ∃ S', transfer_value 1%N 3%N 0%N 3 shared_example = (inr true, S') ∧
        balance_of S' 1%N 0%N = inr 7 ∧ balance_of S' 2%N 0%N = inr 7 ∧
        balance_of S' 3%N 0%N = inr 3.
Proof.
  destruct (transfer_value_spec shared_example 1%N 3%N 0%N 3 10) as (H & _).
  - apply wf_check. vm_compute. reflexivity.
  - lia.
  - vm_compute. reflexivity.
  - destruct (H ltac:(lia) 0 ltac:(vm_compute; reflexivity))
      as (S' & Hrun & Hbal & _).
    exists S'. split; [exact Hrun|]. rewrite !Hbal.
    repeat split; vm_compute; reflexivity.
Defined.

(** C3, as stated, fails. With a balance that covers the amount,
    transfer_value does not return True when the record of the receiver
    cannot be decoded: it raises, and the sender has been debited before;
    and when the sender and the receiver hold the same dict, after
    set_balances(2, get_balances(1)), it returns True with neither a debit
    nor a credit. *)
Lemma transfer_value_not_atomic :
  (balance_of undecodable_example 1%N 0%N = inr 5 ∧
   ∃ e S', transfer_value 1%N 2%N 0%N 3 undecodable_example = (inl e, S') ∧
           balance_of S' 1%N 0%N = inr 2) ∧
  (balance_of shared_example 1%N 0%N = inr 10 ∧
   balance_of shared_example 2%N 0%N = inr 10 ∧
   ∃ S', transfer_value 1%N 2%N 0%N 3 shared_example = (inr true, S') ∧
         balance_of S' 1%N 0%N = inr 10 ∧ balance_of S' 2%N 0%N = inr 10).
Proof.
  split.
  - split; [vm_compute; reflexivity|]. eexists _, _.
    split; [vm_compute; reflexivity|]. vm_compute. reflexivity.
  - split; [vm_compute; reflexivity|]. split; [vm_compute; reflexivity|].
    eexists. split; [vm_compute; reflexivity|].
    split; vm_compute; reflexivity.
Qed.

Lemma byref_get_balance_cached S a x t :
  dict_get (cache S) a = Some x →
  get_balance a (Some t) S =
    (inr (default 0 (dict_get (deref S (balances x)) t)), S).
Proof.
  intros Hx. unfold get_balance. unfold bind at 1, ret at 1.
  unfold bind. by rewrite byref_get_and_cache_account_eq, Hx.
Qed.

(** X5. A token balance that was written is the one that is read, by
    every account that holds the dict: if get_balance(a, t) returns, then
    set_token_balance(a, t, v) returns and afterwards get_balance(a, t) is
    v, as is get_balance(b, t) for every account b that holds the same
    balances dict as a (after set_balances(b, get_balances(a)), say);
    every other balance, and the nonce and the code of every account, are
    as before, and the state trie is unchanged. set_balance(a, v) is the
    same call for the default chain token. *)
Theorem token_balance_read_back (S : State) (a : address) (t : N) (v b : Z)
    (Hwf : wf S) (Hb : balance_of S a t = inr b) :
  (∃ S', set_token_balance a t v S = (inr tt, S') ∧
         balance_of S' a t = inr v ∧
         (∀ a' t', balance_of S' a' t' =
                     if shares S a a' && bool_decide (t' = t) then inr v
                     else balance_of S a' t') ∧
         (∀ a', observe (get_nonce a') S' = observe (get_nonce a') S ∧
                observe (get_code a') S' = observe (get_code a') S) ∧
         trie S' = trie S) ∧
  set_balance a v S = set_token_balance a (default_chain_token (config S)) v S.
Proof.
  split; [|done].
  pose proof Hb as Hseen. rewrite byref_balance_of_seen in Hseen.
  destruct (seen S a) as [e|i] eqn:Hi; [done|]. injection Hseen as Hbi.
  pose proof (cache_step S a Hwf) as Hstep. rewrite Hi in Hstep.
  destruct Hstep as (x & S1 & Hget & Hx & Hev1).
  pose proof Hev1 as (Hwf1 & _ & _ & _ & Hs1 & _ & Hseen1).
  assert (deref S1 (balances x) = i.1.1) as Hd.
  { specialize (Hseen1 a). rewrite Hi, (seen_cached _ _ _ Hx) in Hseen1.
    by injection Hseen1 as -> _ _. }
  unfold set_token_balance. rewrite (byref_bind_inr _ _ _ _ _ Hget).
  rewrite (byref_bind_inr _ _ _ _ _ (byref_get_balance_cached S1 a x t Hx)).
  rewrite Hd, Hbi.
  assert (∃ S', (if bool_decide (v = b)
                 then set_and_journal a (A_touched true)
                 else _set_token_balance_and_journal a t v >>
                      set_and_journal a (A_touched true)) S1 = (inr tt, S') ∧
                evolves S S' (λ c d, if shares S a c && negb (bool_decide (v = b))
                                     then dict_set d t v else d))
    as (S' & Hrun & Hev).
  { case_bool_decide as Hv.
    - destruct (touch_step S1 a x true Hwf1 Hx) as (S' & Hrun & _ & Hev2).
      exists S'. split; [done|].
      eapply evolves_ext; [|exact (evolves_trans _ _ _ _ _ Hev1 Hev2)].
      intros c j _. cbn. by rewrite andb_false_r.
    - destruct (write_step S1 a x t v Hwf1 Hx) as (S2 & Hw & Hx2 & Hev2).
      rewrite (byref_bind_inr _ _ _ _ _ Hw).
      pose proof Hev2 as (Hwf2 & _).
      destruct (touch_step S2 a x true Hwf2 Hx2) as (S' & Hrun & _ & Hev3).
      exists S'. split; [done|].
      eapply evolves_ext;
        [|exact (evolves_trans _ _ _ _ _ Hev1 (evolves_trans _ _ _ _ _ Hev2 Hev3))].
      intros c j _. cbn. by rewrite Hs1, andb_true_r. }
  exists S'. split; [done|].
  assert (Hform : ∀ a' t', balance_of S' a' t' =
                    if shares S a a' && bool_decide (t' = t) then inr v
                    else balance_of S a' t').
  { intros a' t'. rewrite (evolves_balance_of _ _ _ _ _ Hev).
    destruct (shares S a a') eqn:Hsh; cbn [andb].
    - destruct (shares_seen _ _ _ _ Hsh Hi) as (j & Hj & Heq). rewrite Hj.
      rewrite byref_balance_of_seen, Hj.
      destruct (decide (v = b)) as [Hv|Hv];
        [rewrite (bool_decide_eq_true_2 _ Hv)
        |rewrite (bool_decide_eq_false_2 _ Hv)]; cbn [negb];
        (destruct (decide (t' = t)) as [->|Ht'];
         [rewrite (bool_decide_eq_true_2 (t = t)) by done
         |rewrite (bool_decide_eq_false_2 _ Ht')]).
      + by rewrite Heq, Hbi, Hv.
      + done.
      + by rewrite dict_get_set, decide_True.
      + by rewrite dict_get_set, decide_False by (by apply not_eq_sym).
    - rewrite byref_balance_of_seen. by destruct (seen S a'). }
  split.
  { by rewrite Hform, shares_refl, bool_decide_eq_true_2. }
  split; [done|]. split; [intros a'; by eapply evolves_static|].
  by destruct Hev as (_ & -> & _).
Qed.

Lemma token_balance_read_back_witness :
  ∃ S', set_token_balance 1%N 0%N 99 shared_example = (inr tt, S') ∧
        balance_of S' 1%N 0%N = inr 99 ∧ balance_of S' 2%N 0%N = inr 99 ∧
        balance_of S' 3%N 0%N = balance_of shared_example 3%N 0%N.
Proof.
  destruct (token_balance_read_back shared_example 1%N 0%N 99 10)
    as [(S' & Hrun & Ha & Hall & _) _].
  - apply wf_check. vm_compute. reflexivity.
  - vm_compute. reflexivity.
  - exists S'. split; [exact Hrun|]. split; [exact Ha|].
    rewrite !Hall. split; reflexivity.
Defined.

End byref_facts.
